(** * Swiftbuy checkout agent: flow store, health monitor, step extractor,
      form fill and replay

    A shallow embedding of [backend/checkout-agent/flow_store.py] (the flow
    store, the health check, the step extractor) and of the parts of
    [backend/checkout-agent/checkout_agent.py] that decide what is learned
    and what is replayed: the field lists, the loop of [FORM_FILL_JS] with
    its [verifyField], the blocks of [run_checkout] around the saved flow,
    [_filter_pre_form_steps], [_build_page_replay_script] and
    [_discover_and_save]. The properties of the flow learning and replay
    engine follow the definitions.

    Conventions.
    - A Python [str] is a [string]; one [ascii] is one character (code
      points 0..255), so slices and comparisons count characters.
    - A JavaScript string is a [list N] of UTF-16 code units.
    - A Python [dict] with string keys and string values is a
      [gmap string string]; [{**a, **b}] is [b ∪ a] (the union of stdpp is
      left-biased).
    - A key of a JSON object that may be missing is an [option] field; the
      default of [d.get(k, default)] is written with [default].
    - Code that may raise is in the [result] monad, and in the [io] monad
      when it also reads or writes the flows directory; the clock and the
      outcome of a write are inputs of the operation that uses them, and so
      is what the operating system or the browser answers (a directory
      listing, the scan of a page).
    - The document in which a script runs is a parameter: its states, its
      elements, and what the script reads from it and does to it are the
      variables of a section. *)

From Stdlib Require Import ZArith NArith Ascii String List Bool Lia SpecFloat.
From stdpp Require Import base option list strings gmap fin_maps.

(** ** Python exceptions *)

Inductive exn : Type :=
  | AttributeError
  | IOError
  | JSONDecodeError
  | UnicodeDecodeError
  | ValueError.

#[global] Instance exn_eq_dec : EqDecision exn.
Proof. solve_decision. Defined.

Inductive result (A : Type) : Type :=
  | Ok (a : A)
  | Raise (e : exn).
Arguments Ok {A} a.
Arguments Raise {A} e.

#[global] Instance result_ret : MRet result := λ A a, Ok a.
#[global] Instance result_bind : MBind result := λ A B f m,
  match m with
  | Ok a => f a
  | Raise e => Raise e
  end.

(** ** Python strings *)

(** [sub in s] *)
Fixpoint str_contains (sub s : string) : bool :=
  String.prefix sub s ||
  match s with
  | EmptyString => false
  | String _ s' => str_contains sub s'
  end.

(** [c in s] for one character *)
Fixpoint str_has (c : ascii) (s : string) : bool :=
  match s with
  | EmptyString => false
  | String a s' => Ascii.eqb a c || str_has c s'
  end.

(** [s[n:]] *)
Fixpoint str_drop (n : nat) (s : string) : string :=
  match n, s with
  | S n', String _ s' => str_drop n' s'
  | _, _ => s
  end.

(** [s[:n]] *)
Fixpoint str_take (n : nat) (s : string) : string :=
  match n, s with
  | S n', String a s' => String a (str_take n' s')
  | _, _ => EmptyString
  end.

(** Truth value of a [str]. *)
Definition str_truthy (s : string) : bool := negb (String.eqb s "").

(** [x or y] where [x] is a [str] or [None]. *)
Definition str_or (x y : option string) : option string :=
  match x with
  | Some s => if str_truthy s then Some s else y
  | None => y
  end.

(** [s.replace(old, new)] for one-character [old] and [new]. *)
Fixpoint str_replace (old new : ascii) (s : string) : string :=
  match s with
  | EmptyString => EmptyString
  | String a s' =>
      String (if Ascii.eqb a old then new else a) (str_replace old new s')
  end.

(** [s.replace(c, '')] *)
Fixpoint str_remove (c : ascii) (s : string) : string :=
  match s with
  | EmptyString => EmptyString
  | String a s' =>
      if Ascii.eqb a c then str_remove c s' else String a (str_remove c s')
  end.

(** [c.lower()] on the code points below 256: A-Z and the accented
    capitals U+00C0..U+00DE, the multiplication sign U+00D7 apart. *)
Definition chr_lower (c : ascii) : ascii :=
  let n := N_of_ascii c in
  if ((65 <=? n) && (n <=? 90)
      || (192 <=? n) && (n <=? 222) && negb (n =? 215))%N
  then ascii_of_N (n + 32) else c.

Fixpoint str_lower (s : string) : string :=
  match s with
  | EmptyString => EmptyString
  | String a s' => String (chr_lower a) (str_lower s')
  end.

(** [s.partition(c)[0]] *)
Fixpoint before_first (c : ascii) (s : string) : string :=
  match s with
  | EmptyString => EmptyString
  | String a s' => if Ascii.eqb a c then EmptyString else String a (before_first c s')
  end.

(** [c + s.partition(c)[2]] when [c] occurs in [s], else [''] *)
Fixpoint from_first (c : ascii) (s : string) : string :=
  match s with
  | EmptyString => EmptyString
  | String a s' => if Ascii.eqb a c then s else from_first c s'
  end.

(** [s.rpartition(c)[2]] *)
Fixpoint after_last (c : ascii) (s : string) : string :=
  match s with
  | EmptyString => EmptyString
  | String a s' =>
      if str_has c s' then after_last c s'
      else if Ascii.eqb a c then s' else s
  end.

(** [s.partition(c)[2]] *)
Fixpoint after_first (c : ascii) (s : string) : string :=
  match s with
  | EmptyString => EmptyString
  | String a s' => if Ascii.eqb a c then s' else after_first c s'
  end.

(** [s.split(c)] *)
Fixpoint str_split_on (c : ascii) (s : string) : list string :=
  match s with
  | EmptyString => [EmptyString]
  | String a s' =>
      if Ascii.eqb a c then EmptyString :: str_split_on c s'
      else match str_split_on c s' with
           | w :: ws => String a w :: ws
           | [] => [String a EmptyString]
           end
  end.

(** Every character of [s] satisfies [p]. *)
Fixpoint str_forall (p : ascii → bool) (s : string) : bool :=
  match s with
  | EmptyString => true
  | String a s' => p a && str_forall p s'
  end.

(** The value of a digit of a base up to 16, in either case. *)
Definition digit_value (c : ascii) : N :=
  let n := N_of_ascii c in
  (if (48 <=? n) && (n <=? 57) then n - 48
   else if (97 <=? n) && (n <=? 102) then n - 87
   else n - 55)%N.

(** [int(s, base)] for a non-empty string of digits of the base *)
Definition int_of (base : N) (s : string) : N :=
  fold_left (λ acc c, acc * base + digit_value c)%N (list_ascii_of_string s) 0%N.

Definition hex_digit (n : N) : ascii :=
  if (n <? 10)%N then ascii_of_N (48 + n) else ascii_of_N (87 + n).

Fixpoint hex_digits (fuel : nat) (n : N) (acc : string) : string :=
  match fuel with
  | O => acc
  | S fuel' =>
      let acc := String (hex_digit (n mod 16)) acc in
      if (n / 16 =? 0)%N then acc else hex_digits fuel' (n / 16)%N acc
  end.

(** ['%x' % n] *)
Definition str_hex (n : N) : string := hex_digits (S (N.to_nat (N.log2 n))) n "".

(** ** ipaddress: the address literals

    [ip_address] of CPython 3.11 for a [str]. [AddressValueError] is a
    subclass of [ValueError] and is raised as such here. *)

Inductive ip : Type :=
  | IPv4 (_ip : N)
  | IPv6 (_ip : N) (_scope_id : option string).

Definition is_ascii_digit (c : ascii) : bool :=
  let n := N_of_ascii c in ((48 <=? n) && (n <=? 57))%N.

(** [c in _HEX_DIGITS] *)
Definition is_hex_digit (c : ascii) : bool :=
  let n := N_of_ascii c in
  ((48 <=? n) && (n <=? 57) || (65 <=? n) && (n <=? 70)
   || (97 <=? n) && (n <=? 102))%N.

Module IPv4Address.

Definition _parse_octet (octet_str : string) : result N :=
  if negb (str_truthy octet_str) then Raise ValueError
  else if negb (str_forall is_ascii_digit octet_str) then Raise ValueError
  else if (3 <? String.length octet_str)%nat then Raise ValueError
  else if negb (String.eqb octet_str "0") && String.prefix "0" octet_str
  then Raise ValueError
  else
    let octet_int := int_of 10 octet_str in
    if (255 <? octet_int)%N then Raise ValueError else Ok octet_int.

(** [int.from_bytes(map(cls._parse_octet, octets), 'big')] *)
Fixpoint from_octets (acc : N) (octets : list string) : result N :=
  match octets with
  | [] => Ok acc
  | o :: octets' =>
      octet_int ← _parse_octet o;
      from_octets (N.lor (N.shiftl acc 8) octet_int) octets'
  end.

Definition _ip_int_from_string (ip_str : string) : result N :=
  if negb (str_truthy ip_str) then Raise ValueError
  else
    let octets := str_split_on "." ip_str in
    if negb (length octets =? 4)%nat then Raise ValueError
    else from_octets 0 octets.

(** [IPv4Address(address)._ip] for a [str] *)
Definition init (address : string) : result N :=
  if str_has "/" address then Raise ValueError
  else _ip_int_from_string address.

End IPv4Address.

Module IPv6Address.

Definition _HEXTET_COUNT : nat := 8.

Definition _split_scope_id (ip_str : string) : result (string * option string) :=
  let addr := before_first "%" ip_str in
  let scope_id := after_first "%" ip_str in
  if negb (str_has "%" ip_str) then Ok (addr, None)
  else if negb (str_truthy scope_id) || str_has "%" scope_id
  then Raise ValueError
  else Ok (addr, Some scope_id).

(** [int(hextet_str, 16)] raises on the empty string. *)
Definition _parse_hextet (hextet_str : string) : result N :=
  if negb (str_forall is_hex_digit hextet_str) then Raise ValueError
  else if (4 <? String.length hextet_str)%nat then Raise ValueError
  else if negb (str_truthy hextet_str) then Raise ValueError
  else Ok (int_of 16 hextet_str).

(** The loop [ip_int <<= 16; ip_int |= cls._parse_hextet(parts[i])] *)
Fixpoint parse_hextets (ip_int : N) (parts : list string) : result N :=
  match parts with
  | [] => Ok ip_int
  | p :: parts' =>
      hextet ← _parse_hextet p;
      parse_hextets (N.lor (N.shiftl ip_int 16) hextet) parts'
  end.

(** The indices [i] of [range(1, len(parts) - 1)] with an empty
    [parts[i]]. *)
Definition skip_indices (parts : list string) : list nat :=
  List.filter (λ i, negb (str_truthy (nth i parts "")))
              (seq 1 (length parts - 2)).

Definition _ip_int_from_string (ip_str : string) : result N :=
  if negb (str_truthy ip_str) then Raise ValueError
  else
    let parts := str_split_on ":" ip_str in
    if (length parts <? 3)%nat then Raise ValueError
    else
      parts ←
        (if str_has "." (List.last parts "") then
           ipv4_int ← IPv4Address.init (List.last parts "");
           Ok (removelast parts
               ++ [str_hex (N.land (N.shiftr ipv4_int 16) 65535);
                   str_hex (N.land ipv4_int 65535)])
         else Ok parts);
      if (_HEXTET_COUNT + 1 <? length parts)%nat then Raise ValueError
      else
        let first_empty := negb (str_truthy (hd "" parts)) in
        let last_empty := negb (str_truthy (List.last parts "")) in
        '(parts_hi, parts_lo, parts_skipped) ←
          match skip_indices parts with
          | _ :: _ :: _ => Raise ValueError
          | [skip_index] =>
              let parts_hi := skip_index in
              let parts_lo := (length parts - skip_index - 1)%nat in
              if first_empty && negb (parts_hi - 1 =? 0)%nat
              then Raise ValueError
              else
                let parts_hi :=
                  if first_empty then (parts_hi - 1)%nat else parts_hi in
                if last_empty && negb (parts_lo - 1 =? 0)%nat
                then Raise ValueError
                else
                  let parts_lo :=
                    if last_empty then (parts_lo - 1)%nat else parts_lo in
                  let parts_skipped :=
                    (Z.of_nat _HEXTET_COUNT - Z.of_nat (parts_hi + parts_lo))%Z in
                  if (parts_skipped <? 1)%Z then Raise ValueError
                  else Ok (parts_hi, parts_lo, Z.to_nat parts_skipped)
          | [] =>
              if negb (length parts =? _HEXTET_COUNT)%nat then Raise ValueError
              else if first_empty then Raise ValueError
              else if last_empty then Raise ValueError
              else Ok (length parts, 0%nat, 0%nat)
          end;
        ip_int ← parse_hextets 0 (take parts_hi parts);
        let ip_int := N.shiftl ip_int (16 * N.of_nat parts_skipped) in
        parse_hextets ip_int (drop (length parts - parts_lo) parts).

(** [IPv6Address(address)] for a [str]: [_ip] and [_scope_id] *)
Definition init (address : string) : result (N * option string) :=
  if str_has "/" address then Raise ValueError
  else
    '(addr_str, scope_id) ← _split_scope_id address;
    ip_int ← _ip_int_from_string addr_str;
    Ok (ip_int, scope_id).

End IPv6Address.

Definition ip_address (address : string) : result ip :=
  match IPv4Address.init address with
  | Ok n => Ok (IPv4 n)
  | Raise _ =>
      match IPv6Address.init address with
      | Ok (n, scope_id) => Ok (IPv6 n scope_id)
      | Raise _ => Raise ValueError
      end
  end.

(** ** urllib.parse: the host name of a URL

    [urlparse(url).hostname] of CPython 3.11 for a [str], followed step by
    step: [urlsplit] strips leading C0 controls and spaces, removes tabs and
    line breaks, splits off the scheme and takes the net location between
    [//] and the first of [/?#]; [hostname] drops the user information up to
    the last [@] and the port after the first [:], or takes what stands
    between [[] and []] when the host is an IP literal in brackets, and
    lower-cases what precedes a [%]. A net location with a bracket is
    checked as [urlsplit] checks it: both brackets, nothing before the
    opening one, nothing but a port after the closing one, and between
    them an IPv6 or an IPvFuture address. The NFKC check of a non-ASCII
    net location is not embedded: it accepts every character below 256. *)

Definition is_c0_control_or_space (c : ascii) : bool := (N_of_ascii c <=? 32)%N.

Fixpoint lstrip_c0 (s : string) : string :=
  match s with
  | EmptyString => EmptyString
  | String a s' => if is_c0_control_or_space a then lstrip_c0 s' else s
  end.

Definition is_ascii_alpha (c : ascii) : bool :=
  let n := N_of_ascii c in
  ((65 <=? n) && (n <=? 90) || (97 <=? n) && (n <=? 122))%N.

(** [c in scheme_chars] *)
Definition is_scheme_char (c : ascii) : bool :=
  let n := N_of_ascii c in
  (is_ascii_alpha c || (48 <=? n) && (n <=? 57)
   || (n =? 43) || (n =? 45) || (n =? 46))%N.

Fixpoint all_scheme_chars (s : string) : bool :=
  match s with
  | EmptyString => true
  | String a s' => is_scheme_char a && all_scheme_chars s'
  end.

(** The URL after its scheme, if it has one:
    [i = url.find(':')], [i > 0], a first character that is an ASCII
    letter and only scheme characters in [url[:i]]. *)
Definition drop_scheme (url : string) : string :=
  let candidate := before_first ":" url in
  match url with
  | String a _ =>
      if str_has ":" url && negb (String.eqb candidate "")
         && is_ascii_alpha a && all_scheme_chars candidate
      then str_drop (S (String.length candidate)) url
      else url
  | EmptyString => url
  end.

(** One of the delimiters [/?#] that end the net location. *)
Definition is_delimiter (c : ascii) : bool :=
  Ascii.eqb c "/" || Ascii.eqb c "?" || Ascii.eqb c "#".

(** [_splitnetloc(url, 2)[0]] applied to what follows [//] *)
Fixpoint up_to_delimiter (s : string) : string :=
  match s with
  | EmptyString => EmptyString
  | String a s' =>
      if is_delimiter a then EmptyString else String a (up_to_delimiter s')
  end.

(** [for b in _UNSAFE_URL_BYTES_TO_REMOVE: url = url.replace(b, "")]:
    tabs, carriage returns and line feeds are removed. *)
Definition remove_unsafe (s : string) : string :=
  str_remove "010" (str_remove "013" (str_remove "009" s)).

(** [re.match(r"\Av[a-fA-F0-9]+\..+\Z", hostname)]: the hexadecimal digits
    end at the first [.], and [.+] takes the rest, which holds no line
    feed. *)
Definition is_ipvfuture (hostname : string) : bool :=
  match hostname with
  | String "v" rest =>
      let digits := before_first "." rest in
      let rest' := after_first "." rest in
      str_truthy digits && str_forall is_hex_digit digits
      && str_has "." rest
      && str_truthy rest' && negb (str_has "010" rest')
  | _ => false
  end.

Definition _check_bracketed_host (hostname : string) : result unit :=
  if String.prefix "v" hostname then
    if negb (is_ipvfuture hostname) then Raise ValueError else Ok ()
  else
    address ← ip_address hostname;
    match address with
    | IPv4 _ => Raise ValueError
    | IPv6 _ _ => Ok ()
    end.

Definition _check_bracketed_netloc (netloc : string) : result unit :=
  let hostname_and_port := after_last "@" netloc in
  let before_bracket := before_first "[" hostname_and_port in
  let bracketed := after_first "[" hostname_and_port in
  if str_has "[" hostname_and_port then
    if str_truthy before_bracket then Raise ValueError
    else
      let hostname := before_first "]" bracketed in
      let port := after_first "]" bracketed in
      if str_truthy port && negb (String.prefix ":" port) then Raise ValueError
      else _check_bracketed_host hostname
  else _check_bracketed_host (before_first ":" hostname_and_port).

Definition urlsplit_netloc (url : string) : result string :=
  let url := lstrip_c0 url in
  let url := remove_unsafe url in
  let url := drop_scheme url in
  if String.prefix "//" url then
    let netloc := up_to_delimiter (str_drop 2 url) in
    if str_has "[" netloc && negb (str_has "]" netloc)
       || str_has "]" netloc && negb (str_has "[" netloc)
    then Raise ValueError
    else if str_has "[" netloc && str_has "]" netloc then
      _ ← _check_bracketed_netloc netloc;
      Ok netloc
    else Ok netloc
  else Ok "".

(** [_hostinfo[0]] *)
Definition _hostinfo_hostname (netloc : string) : string :=
  let hostinfo := after_last "@" netloc in
  let bracketed := after_first "[" hostinfo in
  if str_has "[" hostinfo then before_first "]" bracketed
  else before_first ":" hostinfo.

Definition urlparse_hostname (url : string) : result (option string) :=
  netloc ← urlsplit_netloc url;
  let hostname := _hostinfo_hostname netloc in
  if str_truthy hostname then
    Ok (Some (str_lower (before_first "%" hostname) +:+ from_first "%" hostname))
  else Ok None.

(** ** flow_store.py: data model *)

(** A navigation step, an element of [navigation_steps]. *)
Module Step.
Record t : Type := mk {
  action : option string;
  text : option string;
  selector : option string;
  tag : option string;
  url_at : option string;
  purpose : option string;
  aria_label : option string;
  role : option string;
  url : option string;
  seconds : option N;
}.
End Step.

(** A flow record: a JSON object whose fields have the types of the data
    model; the counters are non-negative integers. [None] is a missing
    key; for the text fields read with [flow.get(k)] it also stands for
    [null]. *)
Module Flow.
Record t : Type := mk {
  domain : option string;
  platform : option string;
  checkout_url_pattern : option string;
  navigation_steps : option (list Step.t);
  form_selectors : option (gmap string string);
  payment_selectors : option (gmap string string);
  success_count : option N;
  failure_count : option N;
  consecutive_failures : option N;
  last_success : option string;
  last_failure : option string;
  last_error : option string;
  last_url : option string;
}.

(** The empty object [{}]. *)
Definition empty : t :=
  mk None None None None None None None None None None None None None.
End Flow.

(** The kind of a JSON document whose top-level value is not an object. *)
Inductive json_kind : Type := JNull | JBool | JNumber | JString | JArray.

(** What a file of the flows directory holds. *)
Inductive file_content : Type :=
  | Unreadable                 (* [open] or [read] raises IOError *)
  | BadEncoding                (* bytes that do not decode as text *)
  | NotJson                    (* text that is not a JSON document *)
  | NonObject (k : json_kind)  (* a JSON document that is not an object *)
  | Object (f : Flow.t).       (* a flow record *)

(** What [json.load] returns. *)
Inductive pyobj : Type :=
  | PyDict (f : Flow.t)
  | PyOther (k : json_kind).

(** [with open(path, 'r') as f: json.load(f)] on a file that exists. *)
Definition json_load (c : file_content) : result pyobj :=
  match c with
  | Unreadable => Raise IOError
  | BadEncoding => Raise UnicodeDecodeError
  | NotJson => Raise JSONDecodeError
  | NonObject k => Ok (PyOther k)
  | Object f => Ok (PyDict f)
  end.

(** The value on which [.get(...)] is called: a list, a string, a number,
    a boolean and [None] have no such attribute. *)
Definition get_receiver (o : pyobj) : result Flow.t :=
  match o with
  | PyDict f => Ok f
  | PyOther _ => Raise AttributeError
  end.

(** ** The flows directory: state and exceptions *)

Abbreviation files := (gmap string file_content).

Definition io (A : Type) : Type := files → files * result A.

#[global] Instance io_ret : MRet io := λ A a fs, (fs, Ok a).
#[global] Instance io_bind : MBind io := λ A B f m fs,
  match m fs with
  | (fs', Ok a) => f a fs'
  | (fs', Raise e) => (fs', Raise e)
  end.

Definition lift {A} (r : result A) : io A := λ fs, (fs, r).

(** [return a] *)
Definition ret {A} (a : A) : io A := mret a.

(** [try: body except classes: handler] *)
Definition try_except {A} (body : io A) (classes : list exn) (handler : io A)
  : io A := λ fs,
  match body fs with
  | (fs', Raise e) =>
      if bool_decide (e ∈ classes) then handler fs' else (fs', Raise e)
  | r => r
  end.

(** [os.path.exists(path)] *)
Definition path_exists (path : string) : io bool := λ fs,
  (fs, Ok (bool_decide (is_Some (fs !! path)))).

(** [with open(path, 'r') as f: json.load(f)] *)
Definition read_json (path : string) : io pyobj := λ fs,
  (fs, match fs !! path with
       | Some c => json_load c
       | None => Raise IOError
       end).

(** How a write ends: the file holds the whole record, [open] fails and
    nothing changes, or the write stops after [open] has truncated the
    file, which then holds a strict prefix of the JSON text. *)
Inductive write_outcome : Type := Written | OpenFailed | Interrupted.

(** [with open(path, 'w') as f: json.dump(flow, f, indent=2)] *)
Definition write_json (w : write_outcome) (path : string) (flow : Flow.t)
  : io unit := λ fs,
  match w with
  | Written => (<[path := Object flow]> fs, Ok ())
  | OpenFailed => (fs, Raise IOError)
  | Interrupted => (<[path := NotJson]> fs, Raise IOError)
  end.

(** ** flow_store.py: the flow store *)

Definition FLOWS_DIR : string := "flows".

Definition _domain_from_url (url : string) : result string :=
  hostname ← urlparse_hostname url;
  let domain := default "" hostname in
  Ok (if String.prefix "www." domain then str_drop 4 domain else domain).

(** [os.makedirs(FLOWS_DIR, exist_ok=True)] is taken to succeed. *)
Definition _flow_path (domain : string) : string :=
  let safe_domain := str_replace ":" "_" (str_replace "/" "_" domain) in
  FLOWS_DIR +:+ "/" +:+ safe_domain +:+ ".json".

(** The first statement of every operation of the store:
    [_domain_from_url(domain_or_url) if '/' in domain_or_url else domain_or_url] *)
Definition domain_of (domain_or_url : string) : result string :=
  if str_contains "/" domain_or_url then _domain_from_url domain_or_url
  else Ok domain_or_url.

Definition load_flow (domain_or_url : string) : io (option Flow.t) :=
  domain ← lift (domain_of domain_or_url);
  let path := _flow_path domain in
  present ← path_exists path;
  if negb present then ret None
  else
    try_except
      (loaded ← read_json path;
       flow ← lift (get_receiver loaded);
       ret (Some flow))
      [JSONDecodeError; IOError]
      (ret None).

Definition save_flow (now : string) (w : write_outcome)
    (domain_or_url : string)
    (form_selectors : gmap string string)
    (payment_selectors : option (gmap string string))
    (navigation_steps : option (list Step.t))
    (checkout_url_pattern platform final_url : option string) : io unit :=
  domain ← lift (domain_of domain_or_url);
  let path := _flow_path domain in
  present ← path_exists path;
  loaded ← (if (present : bool) then
              try_except (read_json path) [JSONDecodeError; IOError]
                         (ret (PyDict Flow.empty))
            else ret (PyDict Flow.empty));
  existing ← lift (get_receiver loaded);
  let merged_form := form_selectors ∪ default ∅ (Flow.form_selectors existing) in
  let merged_payment :=
    default ∅ payment_selectors ∪ default ∅ (Flow.payment_selectors existing) in
  let nav_steps :=
    match navigation_steps with
    | Some steps => steps
    | None => default [] (Flow.navigation_steps existing)
    end in
  let flow := {|
    Flow.domain := Some domain;
    Flow.platform := str_or platform (Some (default "unknown" (Flow.platform existing)));
    Flow.checkout_url_pattern :=
      str_or checkout_url_pattern (Flow.checkout_url_pattern existing);
    Flow.navigation_steps := Some nav_steps;
    Flow.form_selectors := Some merged_form;
    Flow.payment_selectors := Some merged_payment;
    Flow.success_count := Some (default 0 (Flow.success_count existing) + 1)%N;
    Flow.failure_count := Some (default 0%N (Flow.failure_count existing));
    Flow.consecutive_failures := Some 0%N;
    Flow.last_success := Some now;
    Flow.last_failure := None;
    Flow.last_error := None;
    Flow.last_url := str_or final_url (Flow.last_url existing);
  |} in
  try_except (write_json w path flow) [IOError] (ret ()).

Definition record_failure (now : string) (w : write_outcome)
    (domain_or_url : string) (error : option string) : io unit :=
  domain ← lift (domain_of domain_or_url);
  let path := _flow_path domain in
  present ← path_exists path;
  if negb present then ret ()
  else
    try_except
      (loaded ← read_json path;
       flow ← lift (get_receiver loaded);
       let flow := {|
         Flow.domain := Flow.domain flow;
         Flow.platform := Flow.platform flow;
         Flow.checkout_url_pattern := Flow.checkout_url_pattern flow;
         Flow.navigation_steps := Flow.navigation_steps flow;
         Flow.form_selectors := Flow.form_selectors flow;
         Flow.payment_selectors := Flow.payment_selectors flow;
         Flow.success_count := Flow.success_count flow;
         Flow.failure_count := Some (default 0 (Flow.failure_count flow) + 1)%N;
         Flow.consecutive_failures :=
           Some (default 0 (Flow.consecutive_failures flow) + 1)%N;
         Flow.last_success := Flow.last_success flow;
         Flow.last_failure := Some now;
         Flow.last_error :=
           match error with
           | Some e => if str_truthy e then Some (str_take 200 e)
                       else Flow.last_error flow
           | None => Flow.last_error flow
           end;
         Flow.last_url := Flow.last_url flow;
       |} in
       write_json w path flow)
      [JSONDecodeError; IOError]
      (ret ()).

(** ** flow_store.py: the health monitor *)

(** Binary64, the [float] of Python. *)
Definition prec : Z := 53.
Definition emax : Z := 1024.

(** [float(n)] for an int: the nearest double. *)
Definition float_of_int (n : Z) : spec_float := binary_normalize prec emax n 0 false.

(** A non-negative int as an exact dyadic number. *)
Definition exact_int (n : N) : spec_float :=
  match n with
  | N0 => S754_zero false
  | Npos p => S754_finite false p 0
  end.

(** [a / b] on ints: the exact quotient rounded once to the nearest double,
    ties to even. It is called with [0 <= a <= b] and [0 < b] only, where
    neither [ZeroDivisionError] nor [OverflowError] can be raised. *)
Definition int_truediv (a b : N) : spec_float :=
  SFdiv prec emax (exact_int a) (exact_int b).

(** The integer nearest to [n / d], ties to even, for [0 <= n] and [0 < d]. *)
Definition div_round_half_even (n d : Z) : Z :=
  let q := (n / d)%Z in
  match (2 * (n mod d) ?= d)%Z with
  | Lt => q
  | Gt => (q + 1)%Z
  | Eq => if Z.even q then q else (q + 1)%Z
  end.

(** [round(x, 1)]: the decimal with one fractional digit nearest to the
    exact value of [x], ties to even, then the double nearest to that
    decimal. *)
Definition round1 (x : spec_float) : spec_float :=
  match x with
  | S754_finite s m e =>
      let tenths :=
        if (0 <=? e)%Z then (10 * Zpos m * 2 ^ e)%Z
        else div_round_half_even (10 * Zpos m) (2 ^ (- e)) in
      match tenths with
      | Zpos t => SFdiv prec emax (S754_finite s t 0) (float_of_int 10)
      | _ => S754_zero s
      end
  | _ => x
  end.

Module Health.
Record t : Type := mk {
  status : string;
  nav_steps : nat;
  form_selectors : nat;
  payment_selectors : nat;
  success_count : N;
  failure_count : N;
  success_rate : spec_float;
  needs_relearn : bool;
  consecutive_failures : N;
}.
End Health.

(** [total_runs = success_count + failure_count] *)
Definition total_runs (flow : Flow.t) : N :=
  (default 0 (Flow.success_count flow) + default 0 (Flow.failure_count flow))%N.

(** [(success_count / total_runs * 100) if total_runs > 0 else 0]; the int
    [0] of the second branch compares and rounds like [0.0]. *)
Definition success_rate (flow : Flow.t) : spec_float :=
  if (0 <? total_runs flow)%N
  then SFmul prec emax
         (int_truediv (default 0%N (Flow.success_count flow)) (total_runs flow))
         (float_of_int 100)
  else S754_zero false.

(** Truth value of a [str] or [None]. *)
Definition opt_truthy (x : option string) : bool :=
  match x with
  | Some s => str_truthy s
  | None => false
  end.

(** The recency check:
    [last_failure and last_success and last_failure > last_success]. *)
Definition failed_after_last_success (flow : Flow.t) : bool :=
  match Flow.last_failure flow, Flow.last_success flow with
  | Some last_failure, Some last_success =>
      str_truthy last_failure && str_truthy last_success
      && String.ltb last_success last_failure
  | _, _ => false
  end.

Definition check_flow_health (flow : Flow.t) : Health.t :=
  let nav_count := length (default [] (Flow.navigation_steps flow)) in
  let form_count := size (default ∅ (Flow.form_selectors flow)) in
  let pay_count := size (default ∅ (Flow.payment_selectors flow)) in
  let success_count := default 0%N (Flow.success_count flow) in
  let failure_count := default 0%N (Flow.failure_count flow) in
  let total_runs := total_runs flow in
  let success_rate := success_rate flow in
  let status := "healthy" in
  let status :=
    if (3 <=? total_runs)%N && SFltb success_rate (float_of_int 50)
    then "degraded" else status in
  let status :=
    if (3 <=? total_runs)%N && SFltb success_rate (float_of_int 20)
    then "broken" else status in
  let status :=
    if (3 <=? failure_count)%N && (success_count =? 0)%N
    then "broken" else status in
  let needs_relearn := false in
  let needs_relearn :=
    if failed_after_last_success flow then true else needs_relearn in
  let consecutive_failures := default 0%N (Flow.consecutive_failures flow) in
  let '(needs_relearn, status) :=
    if (2 <=? consecutive_failures)%N then (true, "needs_relearn")
    else (needs_relearn, status) in
  {| Health.status := status;
     Health.nav_steps := nav_count;
     Health.form_selectors := form_count;
     Health.payment_selectors := pay_count;
     Health.success_count := success_count;
     Health.failure_count := failure_count;
     Health.success_rate := round1 success_rate;
     Health.needs_relearn := needs_relearn;
     Health.consecutive_failures := consecutive_failures |}.

(** ** checkout_agent.py: the replay boundary *)

(** [re.search(r'/checkout/.+', s)]: somewhere in [s], [/checkout/]
    followed by one character that is not a line feed. *)
Fixpoint search_checkout_subpage (s : string) : bool :=
  (String.prefix "/checkout/" s
   && match str_drop 10 s with
      | String c _ => negb (Ascii.eqb c "010")
      | EmptyString => false
      end)
  || match s with
     | EmptyString => false
     | String _ s' => search_checkout_subpage s'
     end.

(** The stop condition of the loop: a [continue] or [confirm] click on a
    checkout sub-page. *)
Definition is_post_form_step (step : Step.t) : bool :=
  let action := default "" (Step.action step) in
  let purpose := default "other" (Step.purpose step) in
  let url_at := default "" (str_or (Step.url_at step) (Some "")) in
  String.eqb action "click"
  && (String.eqb purpose "continue" || String.eqb purpose "confirm")
  && search_checkout_subpage url_at.

Fixpoint _filter_pre_form_steps (nav_steps : list Step.t) : list Step.t :=
  match nav_steps with
  | [] => []
  | step :: rest =>
      let action := default "" (Step.action step) in
      if String.eqb action "wait" then _filter_pre_form_steps rest
      else if is_post_form_step step then []
      else step :: _filter_pre_form_steps rest
  end.

(** ** JavaScript strings and [verifyField] (FORM_FILL_JS) *)

Abbreviation jsstring := (list N).

(** The code units of an ASCII literal. *)
Definition utf16 (s : string) : jsstring :=
  N_of_ascii <$> list_ascii_of_string s.

Inductive jsval : Type :=
  | JsUndefined
  | JsNull
  | JsString (s : jsstring).

(** [v || ''] for a string, [undefined] or [null]. *)
Definition or_empty (v : jsval) : jsstring :=
  match v with
  | JsString s => s
  | JsUndefined | JsNull => []
  end.

(** ECMAScript WhiteSpace and LineTerminator code units: what
    [String.prototype.trim] removes and what [\s] matches. *)
Definition is_white_space (c : N) : bool :=
  ((9 <=? c) && (c <=? 13) || (c =? 32) || (c =? 160) || (c =? 5760)
   || (8192 <=? c) && (c <=? 8202) || (c =? 8232) || (c =? 8233)
   || (c =? 8239) || (c =? 8287) || (c =? 12288) || (c =? 65279))%N.

Fixpoint trim_start (s : jsstring) : jsstring :=
  match s with
  | c :: s' => if is_white_space c then trim_start s' else s
  | [] => []
  end.

Definition trim_end (s : jsstring) : jsstring := rev (trim_start (rev s)).

Definition trim (s : jsstring) : jsstring := trim_end (trim_start s).

(** The character class [[\s\-\(\)]]. *)
Definition is_format_char (c : N) : bool :=
  (is_white_space c || (c =? 45) || (c =? 40) || (c =? 41))%N.

(** [s.replace(/[\s\-\(\)]/g, '')] *)
Definition strip_format (s : jsstring) : jsstring :=
  List.filter (λ c, negb (is_format_char c)) s.

Definition js_eq (a b : jsstring) : bool := bool_decide (a = b).

Definition verifyField (el_value expectedValue : jsval) : bool :=
  let actual := trim (or_empty el_value) in
  let expected := trim (or_empty expectedValue) in
  if bool_decide (expected = []) then true
  else if js_eq actual expected then true
  else if js_eq (strip_format actual) (strip_format expected) then true
  else false.

(** ** Histories of calls to the flow store *)

(** The arguments of one [save_flow] call, with the clock reading and the
    outcome of its write. *)
Record save_request : Type := {
  sr_now : string;
  sr_write : write_outcome;
  sr_target : string;
  sr_form : gmap string string;
  sr_payment : option (gmap string string);
  sr_nav : option (list Step.t);
  sr_pattern : option string;
  sr_platform : option string;
  sr_final_url : option string;
}.

Inductive call : Type :=
  | Save (r : save_request)
  | Failure (now : string) (w : write_outcome) (target : string)
            (error : option string).

Definition run_call (c : call) : io unit :=
  match c with
  | Save r =>
      save_flow (sr_now r) (sr_write r) (sr_target r) (sr_form r)
                (sr_payment r) (sr_nav r) (sr_pattern r) (sr_platform r)
                (sr_final_url r)
  | Failure now w target error => record_failure now w target error
  end.

Fixpoint run (cs : list call) : io unit :=
  match cs with
  | [] => ret ()
  | c :: cs' => _ ← run_call c; run cs'
  end.

(** A call addressed to the domain [d] whose write succeeds. *)
Definition served (d : string) (c : call) : Prop :=
  match c with
  | Save r => domain_of (sr_target r) = Ok d ∧ sr_write r = Written
  | Failure _ w target _ => domain_of target = Ok d ∧ w = Written
  end.

Definition is_failure (c : call) : bool :=
  match c with
  | Failure _ _ _ _ => true
  | Save _ => false
  end.

Definition is_save (c : call) : bool := negb (is_failure c).

(** The number of calls of a history that satisfy [p]. *)
Definition count (p : call → bool) (cs : list call) : N :=
  N.of_nat (length (List.filter p cs)).

(** The length of the run of failures that ends the history. *)
Fixpoint trailing_failures (cs : list call) : N :=
  match cs with
  | [] => 0
  | c :: cs' =>
      if forallb is_failure cs then N.of_nat (length cs)
      else trailing_failures cs'
  end.

(** The number of failures recorded after the first save. *)
Fixpoint failures_after_first_save (cs : list call) : N :=
  match cs with
  | [] => 0
  | Save _ :: cs' => count is_failure cs'
  | Failure _ _ _ _ :: cs' => failures_after_first_save cs'
  end.

(** The value that the most recent element of a history gives, among
    those that give one. *)
Fixpoint latest {A B} (f : A → option B) (l : list A) : option B :=
  match l with
  | [] => None
  | x :: l' =>
      match latest f l' with
      | Some b => Some b
      | None => f x
      end
  end.

(** The union of the maps of a history, a later map overriding the earlier
    ones on the keys that it has. *)
Definition union_later_wins (ms : list (gmap string string))
  : gmap string string :=
  foldl (λ acc m, m ∪ acc) ∅ ms.

(** ** The replay boundary in the words of the specification *)

(** A checkout sub-page: [/checkout/] followed by one more character. *)
Definition checkout_subpage (u : string) : Prop :=
  ∃ a c b, u = a +:+ "/checkout/" +:+ String c b ∧ c ≠ "010"%char.

(** A [continue] or [confirm] click on a checkout sub-page. *)
Definition boundary (step : Step.t) : Prop :=
  Step.action step = Some "click"
  ∧ (Step.purpose step = Some "continue" ∨ Step.purpose step = Some "confirm")
  ∧ ∃ u, Step.url_at step = Some u ∧ checkout_subpage u.

Definition is_wait (step : Step.t) : bool :=
  bool_decide (Step.action step = Some "wait").

(** ** URLs in the words of the specification *)

(** A character of a plain host name: none of the separators of a URL, no
    bracket, no percent sign, no tab or line break. *)
Definition is_host_char (c : ascii) : bool :=
  negb (is_delimiter c || Ascii.eqb c "@" || Ascii.eqb c ":"
        || Ascii.eqb c "[" || Ascii.eqb c "]" || Ascii.eqb c "%"
        || Ascii.eqb c "009" || Ascii.eqb c "010" || Ascii.eqb c "013").

Definition is_plain_host (host : string) : bool :=
  str_truthy host && str_forall is_host_char host.

(** A character of a net location without an IP literal: none of the
    delimiters that end it, no bracket, no tab or line break. *)
Definition is_netloc_char (c : ascii) : bool :=
  negb (is_delimiter c || Ascii.eqb c "[" || Ascii.eqb c "]"
        || Ascii.eqb c "009" || Ascii.eqb c "010" || Ascii.eqb c "013").

(** The user information of a URL that has one: what precedes the [@]
    before the host. *)
Definition is_userinfo (userinfo : option string) : bool :=
  match userinfo with
  | Some u => str_forall is_netloc_char u
  | None => true
  end.

(** The port of a URL that has one: what follows the host and its [:]. *)
Definition is_port (port : option string) : bool :=
  match port with
  | Some p => str_forall (λ c, is_netloc_char c && negb (Ascii.eqb c "@")) p
  | None => true
  end.

(** The net location [userinfo@host:port]. *)
Definition netloc_of (userinfo : option string) (host : string)
    (port : option string) : string :=
  match userinfo with Some u => u +:+ "@" | None => "" end
  +:+ host
  +:+ match port with Some p => String ":" p | None => "" end.

(** The URL [scheme://userinfo@host:port] followed by [tail]. *)
Definition url_of (scheme : string) (userinfo : option string) (host : string)
    (port : option string) (tail : string) : string :=
  scheme +:+ "://" +:+ netloc_of userinfo host port +:+ tail.

(** A scheme: an ASCII letter, then letters, digits, [+], [-] and [.]. *)
Definition is_scheme (scheme : string) : bool :=
  match scheme with
  | String a _ => is_ascii_alpha a && all_scheme_chars scheme
  | EmptyString => false
  end.

(** What may follow the host: nothing, or a path, query or fragment. *)
Definition is_url_tail (tail : string) : bool :=
  match tail with
  | String c _ => is_delimiter c
  | EmptyString => true
  end.

(** A host name without one leading [www.] *)
Definition without_www (host : string) : string :=
  if String.prefix "www." host then str_drop 4 host else host.

(** ** What a save reads, and the example records of the properties *)

(** What [save_flow] takes as the existing record: [{}] when there is no
    file or when the file cannot be read as JSON; nothing when reading it
    raises. *)
Definition existing_record (c : option file_content) : option Flow.t :=
  match c with
  | None | Some Unreadable | Some NotJson => Some Flow.empty
  | Some (Object flow) => Some flow
  | Some BadEncoding | Some (NonObject _) => None
  end.

(** One success in five runs. *)
Definition one_in_five : Flow.t :=
  {| Flow.domain := Some "shop.example";
     Flow.platform := Some "unknown";
     Flow.checkout_url_pattern := None;
     Flow.navigation_steps := Some [];
     Flow.form_selectors := Some ∅;
     Flow.payment_selectors := Some ∅;
     Flow.success_count := Some 1%N;
     Flow.failure_count := Some 4%N;
     Flow.consecutive_failures := Some 0%N;
     Flow.last_success := Some "2026-02-17T12:00:00+00:00";
     Flow.last_failure := None;
     Flow.last_error := None;
     Flow.last_url := None |}.

(** A first successful visit, addressed by URL. *)
Definition first_visit : save_request :=
  {| sr_now := "2026-02-17T12:00:00+00:00";
     sr_write := Written;
     sr_target := "https://www.shop.example/products/sneakers";
     sr_form := {[ "email" := "#email" ]};
     sr_payment := None;
     sr_nav := Some [];
     sr_pattern := Some "/checkout/";
     sr_platform := Some "shopify";
     sr_final_url := Some "https://www.shop.example/checkout/done" |}.

(** A later visit addressed by the bare domain: one selector replaced, one
    added, no navigation steps given. *)
Definition second_visit : save_request :=
  {| sr_now := "2026-02-18T12:00:00+00:00";
     sr_write := Written;
     sr_target := "shop.example";
     sr_form := {[ "email" := "input[name=email]"; "city" := "#city" ]};
     sr_payment := Some {[ "card_number" := "#card" ]};
     sr_nav := None;
     sr_pattern := None;
     sr_platform := None;
     sr_final_url := None |}.

Definition failed_visit : call :=
  Failure "2026-02-16T09:30:00+00:00" Written
          "https://www.shop.example/products/sneakers" (Some "timeout").

(** A record with two consecutive failures and a perfect earlier history. *)
Definition stale_twice : Flow.t :=
  {| Flow.domain := Some "shop.example";
     Flow.platform := Some "unknown";
     Flow.checkout_url_pattern := None;
     Flow.navigation_steps := Some [];
     Flow.form_selectors := Some ∅;
     Flow.payment_selectors := Some ∅;
     Flow.success_count := Some 50%N;
     Flow.failure_count := Some 2%N;
     Flow.consecutive_failures := Some 2%N;
     Flow.last_success := Some "2026-02-17T12:00:00+00:00";
     Flow.last_failure := None;
     Flow.last_error := None;
     Flow.last_url := None |}.

(** A record whose last run failed. *)
Definition stale_error : Flow.t :=
  {| Flow.domain := Some "shop.example";
     Flow.platform := Some "unknown";
     Flow.checkout_url_pattern := None;
     Flow.navigation_steps := Some [];
     Flow.form_selectors := Some ∅;
     Flow.payment_selectors := Some ∅;
     Flow.success_count := Some 1%N;
     Flow.failure_count := Some 1%N;
     Flow.consecutive_failures := Some 1%N;
     Flow.last_success := Some "2026-02-17T12:00:00+00:00";
     Flow.last_failure := Some "2026-02-18T08:00:00+00:00";
     Flow.last_error := Some "Agent did not complete checkout";
     Flow.last_url := None |}.

(** A successful visit after a failure. *)
Definition retry_visit (fs : files) : files * result () :=
  save_flow "2026-02-19T10:00:00+00:00" Written
    "https://www.shop.example/products/sneakers"
    {[ "email" := "#email" ]} None None None None None fs.

(** A click step and a wait step as the step extractor records them. *)
Definition click (purpose url_at text : string) : Step.t :=
  {| Step.action := Some "click";
     Step.text := Some text;
     Step.selector := None;
     Step.tag := Some "button";
     Step.url_at := Some url_at;
     Step.purpose := Some purpose;
     Step.aria_label := None;
     Step.role := None;
     Step.url := None;
     Step.seconds := None |}.

Definition wait (seconds : N) : Step.t :=
  {| Step.action := Some "wait";
     Step.text := None;
     Step.selector := None;
     Step.tag := None;
     Step.url_at := None;
     Step.purpose := Some "page_load";
     Step.aria_label := None;
     Step.role := None;
     Step.url := None;
     Step.seconds := Some seconds |}.
(** ** flow_store.py: deleting a flow *)

(** [os.remove(path)]: the file is removed, or the call raises. *)
Definition os_remove (removed : bool) (path : string) : io unit := λ fs,
  if removed then (delete path fs, Ok ()) else (fs, Raise IOError).

Definition delete_flow (removed : bool) (domain_or_url : string) : io bool :=
  domain ← lift (domain_of domain_or_url);
  let path := _flow_path domain in
  present ← path_exists path;
  if (present : bool) then _ ← os_remove removed path; ret true
  else ret false.

(** A mutating operation of the store with its inputs. *)
Inductive store_op : Type :=
  | OpCall (c : call)
  | OpDelete (removed : bool) (target : string).

Definition op_target (o : store_op) : string :=
  match o with
  | OpCall (Save r) => sr_target r
  | OpCall (Failure _ _ target _) => target
  | OpDelete _ target => target
  end.

(** The state in which an operation leaves the flows directory. *)
Definition run_op (o : store_op) (fs : files) : files :=
  match o with
  | OpCall c => (run_call c fs).1
  | OpDelete removed target => (delete_flow removed target fs).1
  end.

(** ** checkout_agent.py: what a run takes from the saved flow *)

Definition opt_present {A : Type} (x : option A) : bool :=
  match x with
  | Some _ => true
  | None => false
  end.

(** Truth value of the [dict] that [load_flow] returns: a [dict] without a
    key is false. A key is seen here when its field is not [None]; a
    record written by [save_flow] always has such keys. *)
Definition flow_truthy (flow : Flow.t) : bool :=
  opt_present (Flow.domain flow)
  || opt_present (Flow.platform flow)
  || opt_present (Flow.checkout_url_pattern flow)
  || opt_present (Flow.navigation_steps flow)
  || opt_present (Flow.form_selectors flow)
  || opt_present (Flow.payment_selectors flow)
  || opt_present (Flow.success_count flow)
  || opt_present (Flow.failure_count flow)
  || opt_present (Flow.consecutive_failures flow)
  || opt_present (Flow.last_success flow)
  || opt_present (Flow.last_failure flow)
  || opt_present (Flow.last_error flow)
  || opt_present (Flow.last_url flow).

(** The three variables that the first block of [run_checkout] sets. *)
Record saved_data : Type := {
  saved_form_sels : gmap string string;
  saved_payment_sels : gmap string string;
  saved_nav_steps : list Step.t;
}.

(** [run_checkout], the block "Load saved flow": the selectors of the
    request are laid over those of the record, and the navigation steps of
    the record are taken unless the health check asks for a re-learn. *)
Definition run_checkout_saved (product_url : string)
    (saved_form_selectors saved_payment_selectors : option (gmap string string))
  : io saved_data :=
  saved_flow ← load_flow product_url;
  let saved_form_sels := default ∅ saved_form_selectors in
  let saved_payment_sels := default ∅ saved_payment_selectors in
  let saved_nav_steps := [] in
  ret match saved_flow with
      | Some flow =>
          if flow_truthy flow then
            let health := check_flow_health flow in
            if Health.needs_relearn health then
              {| saved_form_sels :=
                   saved_form_sels ∪ default ∅ (Flow.form_selectors flow);
                 saved_payment_sels :=
                   saved_payment_sels ∪ default ∅ (Flow.payment_selectors flow);
                 saved_nav_steps := [] |}
            else
              {| saved_form_sels :=
                   saved_form_sels ∪ default ∅ (Flow.form_selectors flow);
                 saved_payment_sels :=
                   saved_payment_sels ∪ default ∅ (Flow.payment_selectors flow);
                 saved_nav_steps := default [] (Flow.navigation_steps flow) |}
          else
            {| saved_form_sels := saved_form_sels;
               saved_payment_sels := saved_payment_sels;
               saved_nav_steps := saved_nav_steps |}
      | None =>
          {| saved_form_sels := saved_form_sels;
             saved_payment_sels := saved_payment_sels;
             saved_nav_steps := saved_nav_steps |}
      end.

(** ** flow_store.py: listing the flows *)

(** [s.endswith(suffix)] *)
Definition str_endswith (suffix s : string) : bool :=
  String.eqb (str_drop (String.length s - String.length suffix) s) suffix.

(** [s.replace(sub, '')] for a non-empty [sub]: the occurrences are taken
    from left to right and do not overlap; [skip] counts the characters of
    the occurrence that is being dropped. *)
Fixpoint str_remove_sub_from (sub : string) (skip : nat) (s : string) : string :=
  match s with
  | EmptyString => EmptyString
  | String a s' =>
      match skip with
      | S k => str_remove_sub_from sub k s'
      | O =>
          if String.prefix sub s
          then str_remove_sub_from sub (String.length sub - 1) s'
          else String a (str_remove_sub_from sub 0 s')
      end
  end.

Definition str_remove_sub (sub s : string) : string :=
  str_remove_sub_from sub 0 s.

(** An entry of the list that [list_flows] returns. *)
Module Summary.
Record t : Type := mk {
  domain : string;
  platform : string;
  success_count : N;
  last_success : option string;
  nav_steps : nat;
  form_fields : nat;
  payment_fields : nat;
}.
End Summary.

(** The [dict] appended for the record [flow] read from [filename]. *)
Definition summary_of (filename : string) (flow : Flow.t) : Summary.t :=
  {| Summary.domain :=
       default (str_remove_sub ".json" filename) (Flow.domain flow);
     Summary.platform := default "unknown" (Flow.platform flow);
     Summary.success_count := default 0%N (Flow.success_count flow);
     Summary.last_success := Flow.last_success flow;
     Summary.nav_steps := length (default [] (Flow.navigation_steps flow));
     Summary.form_fields := size (default ∅ (Flow.form_selectors flow));
     Summary.payment_fields := size (default ∅ (Flow.payment_selectors flow)) |}.

(** [os.path.join(FLOWS_DIR, filename)] for a name of the directory *)
Definition path_in_flows (filename : string) : string :=
  FLOWS_DIR +:+ "/" +:+ filename.

(** The loop over [os.listdir(FLOWS_DIR)], with the list built so far. *)
Fixpoint list_flows_loop (names : list string) (flows : list Summary.t)
  : io (list Summary.t) :=
  match names with
  | [] => ret flows
  | filename :: names' =>
      if negb (str_endswith ".json" filename) then list_flows_loop names' flows
      else
        flows ← try_except
                  (loaded ← read_json (path_in_flows filename);
                   flow ← lift (get_receiver loaded);
                   ret (flows ++ [summary_of filename flow]))
                  [JSONDecodeError; IOError]
                  (ret flows);
        list_flows_loop names' flows
  end.

(** [listing] is what the operating system answers: [None] when the
    directory does not exist, else the names that [os.listdir] returns. *)
Definition list_flows (listing : option (list string)) : io (list Summary.t) :=
  match listing with
  | None => ret []
  | Some names => list_flows_loop names []
  end.

(** The entry that a name of the directory contributes to the list. *)
Definition listed (fs : files) (filename : string) : option Summary.t :=
  if str_endswith ".json" filename then
    match fs !! path_in_flows filename with
    | Some (Object flow) => Some (summary_of filename flow)
    | _ => None
    end
  else None.

(** A file that [list_flows] does not survive: JSON that is not an object,
    or bytes that are not text. *)
Definition is_foreign (c : option file_content) : bool :=
  match c with
  | Some (NonObject _) | Some BadEncoding => true
  | _ => false
  end.

(** The name of the file of the record with key [domain]. *)
Definition file_name_of (domain : string) : string :=
  str_replace ":" "_" (str_replace "/" "_" domain) +:+ ".json".

(** ** flow_store.py: navigation steps from the agent history *)

(** The characters at which [str.split()] splits, below 256. *)
Definition is_py_space (c : ascii) : bool :=
  let n := N_of_ascii c in
  ((9 <=? n) && (n <=? 13) || (28 <=? n) && (n <=? 32)
   || (n =? 133) || (n =? 160))%N.

(** [s.split()], with the word read so far. *)
Fixpoint str_split_from (word : string) (s : string) : list string :=
  match s with
  | EmptyString => if str_truthy word then [word] else []
  | String a s' =>
      if is_py_space a
      then (if str_truthy word then [word] else []) ++ str_split_from "" s'
      else str_split_from (word +:+ String a "") s'
  end.

Definition str_split (s : string) : list string := str_split_from "" s.

(** The double quote of the f-strings. *)
Definition dquote : string := String "034" "".

(** [attrs.get(k)], used as a truth value and as text: a missing key and
    an empty value both count as absent. *)
Definition attr (attrs : gmap string string) (k : string) : option string :=
  match attrs !! k with
  | Some v => if str_truthy v then Some v else None
  | None => None
  end.

(** [for data_attr in [...]: if attrs.get(data_attr): return ...] *)
Fixpoint first_data_attr (attrs : gmap string string) (names : list string)
  : option string :=
  match names with
  | [] => None
  | data_attr :: names' =>
      match attr attrs data_attr with
      | Some v => Some ("[" +:+ data_attr +:+ "=" +:+ dquote +:+ v +:+ dquote +:+ "]")
      | None => first_data_attr attrs names'
      end
  end.

Definition is_specific_class (c : string) : bool :=
  (3 <? String.length c)%nat && negb (String.prefix "_" c).

Definition _build_selector (tag : string) (attrs : gmap string string)
  : option string :=
  let tag := if str_truthy tag then str_lower tag else "" in
  match attr attrs "id" with
  | Some id => Some ("#" +:+ id)
  | None =>
  match attr attrs "name", str_truthy tag with
  | Some name, true =>
      Some (tag +:+ "[name=" +:+ dquote +:+ name +:+ dquote +:+ "]")
  | _, _ =>
  match first_data_attr attrs ["data-testid"; "data-test"; "data-cy"] with
  | Some selector => Some selector
  | None =>
  match attr attrs "aria-label" with
  | Some label => Some ("[aria-label=" +:+ dquote +:+ label +:+ dquote +:+ "]")
  | None =>
  match attr attrs "class", str_truthy tag with
  | Some class, true =>
      let classes := str_split class in
      let specific := List.filter is_specific_class classes in
      match specific with
      | c :: _ => Some (tag +:+ "." +:+ c)
      | [] => None
      end
  | _, _ => None
  end
  end
  end
  end
  end.

Definition any_in (words : list string) (text : string) : bool :=
  existsb (λ w, str_contains w text) words.

(** [attrs] and [url] are not used by the source either. *)
Definition _guess_purpose (text : string) (attrs : gmap string string)
    (url : option string) : string :=
  let text_lower := str_lower text in
  if any_in ["accept"; "accepteren"; "cookie"; "consent"; "agree"] text_lower
  then "cookie_consent"
  else if any_in ["add to cart"; "in winkelwagen"; "bestellen"; "buy";
                  "kopen"; "wil bestellen"] text_lower
  then "add_to_cart"
  else if any_in ["checkout"; "kassa"; "winkelwagen"; "cart";
                  "verder naar bestellen"; "ga bestellen"] text_lower
  then "go_to_checkout"
  else if any_in ["guest"; "zonder registratie"; "zonder account";
                  "continue without"] text_lower
  then "guest_checkout"
  else if any_in ["verder"; "continue"; "next"; "doorgaan"; "volgende"]
            text_lower
  then "continue"
  else if any_in ["bevestigen"; "confirm"; "accept"] text_lower
  then "confirm"
  else if any_in ["close"; "sluiten"; "dismiss"; String "215" ""] text_lower
  then "close_popup"
  else if any_in ["creditcard"; "credit card"; "betalen"; "pay"] text_lower
  then "select_payment"
  else "other".

(** A [DOMInteractedElement], as far as the extractor reads it. *)
Module Element.
Record t : Type := mk {
  attributes : option (gmap string string);
  ax_name : option string;
  node_name : option string;
}.
End Element.

Definition _build_step_from_element (action_type : string)
    (element : option Element.t) (url : option string) : option Step.t :=
  match element with
  | None => None
  | Some element =>
      let attrs := default ∅ (Element.attributes element) in
      let text := default "" (Element.ax_name element) in
      let tag := default "" (Element.node_name element) in
      let selector := _build_selector tag attrs in
      if negb (opt_truthy selector) && negb (str_truthy text) then None
      else Some {|
        Step.action := Some action_type;
        Step.text := Some (if str_truthy text then str_take 100 text else "");
        Step.selector := selector;
        Step.tag := Some (if str_truthy tag then str_lower tag else "");
        Step.url_at := url;
        Step.purpose := Some (_guess_purpose text attrs url);
        Step.aria_label := str_take 100 <$> attr attrs "aria-label";
        Step.role := attr attrs "role";
        Step.url := None;
        Step.seconds := None |}
  end.

(** The parameters of an action of the history: [None], a text, or a
    [dict] with its [url] and [seconds] entries; [more] tells that the
    [dict] has further keys. *)
Inductive payload : Type :=
  | PNone
  | PText (s : string)
  | PParams (url : option string) (seconds : option N) (more : bool).

Definition payload_truthy (p : payload) : bool :=
  match p with
  | PNone => false
  | PText s => str_truthy s
  | PParams url seconds more => opt_present url || opt_present seconds || more
  end.

(** [str(x)] for [None] and for a [str] *)
Definition py_str (x : option string) : string := default "None" x.

(** An entry of [history.model_actions()]: the parameters under the name
    of each action, and the element the action touched. *)
Module Action.
Record t : Type := mk {
  params : gmap string payload;
  interacted_element : option Element.t;
}.
End Action.

(** [k in action] *)
Definition has_key (action : Action.t) (k : string) : bool :=
  bool_decide (is_Some (Action.params action !! k)).

Definition is_custom_tool_call (action : Action.t) : bool :=
  existsb (has_key action) ["fill_shipping_form"; "fill_payment_form"; "done"].

(** [f"{selector}:{text[:20]}"] *)
Definition dedup_key (selector : option string) (text : string) : string :=
  py_str selector +:+ ":" +:+ str_take 20 text.

(** The state of the loop: the keys seen and the steps collected. *)
Definition extract_state : Type := gset string * list Step.t.

(** One turn of the loop over [enumerate(actions)]. *)
Definition extract_action (st : extract_state) (item : Action.t * option string)
  : extract_state :=
  let '(seen_selectors, steps) := st in
  let '(action, url) := item in
  if is_custom_tool_call action then st
  else
    let interacted := Action.interacted_element action in
    if has_key action "click" then
      match interacted with
      | None => st
      | Some _ =>
          match _build_step_from_element "click" interacted url with
          | None => st
          | Some step =>
              let purpose := default "other" (Step.purpose step) in
              let text := default "" (Step.text step) in
              let selector := Step.selector step in
              let tag := default "" (Step.tag step) in
              if negb (str_truthy text) && String.eqb purpose "other" then st
              else if String.eqb tag "span" && String.eqb purpose "other"
              then st
              else if existsb (String.eqb tag) ["input"; "textarea"; "select"]
              then st
              else
                let key := dedup_key selector text in
                if bool_decide (key ∈ seen_selectors) then st
                else ({[ key ]} ∪ seen_selectors, steps ++ [step])
          end
      end
    else if has_key action "go_to_url" || has_key action "navigate" then
      let navigate := default (PParams None None false)
                        (Action.params action !! "navigate") in
      let nav_data :=
        match Action.params action !! "go_to_url" with
        | Some p => if payload_truthy p then p else navigate
        | None => navigate
        end in
      let nav_url :=
        match nav_data with
        | PParams url _ _ => url
        | PText s => Some s
        | PNone => Some (py_str None)
        end in
      if opt_truthy nav_url then
        (seen_selectors,
         steps ++ [ {| Step.action := Some "navigate";
                       Step.text := None;
                       Step.selector := None;
                       Step.tag := None;
                       Step.url_at := None;
                       Step.purpose := Some "navigation";
                       Step.aria_label := None;
                       Step.role := None;
                       Step.url := nav_url;
                       Step.seconds := None |} ])
      else st
    else if has_key action "wait" then
      let wait_data := default (PParams None None false)
                         (Action.params action !! "wait") in
      let seconds :=
        match wait_data with
        | PParams _ seconds _ => default 2%N seconds
        | _ => 2%N
        end in
      (seen_selectors,
       steps ++ [ {| Step.action := Some "wait";
                     Step.text := None;
                     Step.selector := None;
                     Step.tag := None;
                     Step.url_at := None;
                     Step.purpose := Some "page_load";
                     Step.aria_label := None;
                     Step.role := None;
                     Step.url := None;
                     Step.seconds := Some (N.min seconds 2) |} ])
    else if has_key action "go_back" then
      (seen_selectors,
       steps ++ [ {| Step.action := Some "go_back";
                     Step.text := None;
                     Step.selector := None;
                     Step.tag := None;
                     Step.url_at := None;
                     Step.purpose := Some "navigation";
                     Step.aria_label := None;
                     Step.role := None;
                     Step.url := None;
                     Step.seconds := None |} ])
    else st.

(** [urls[i] if i < len(urls) else None], for each action *)
Definition with_urls (actions : list Action.t) (urls : list (option string))
  : list (Action.t * option string) :=
  imap (λ i action, (action, default None (urls !! i))) actions.

(** [history] is [None] when [model_actions()] or [urls()] raises. *)
Definition extract_navigation_steps
    (history : option (list Action.t * list (option string))) : list Step.t :=
  match history with
  | None => []
  | Some (actions, urls) =>
      (foldl extract_action (∅, []) (with_urls actions urls)).2
  end.

(** The key under which the extractor remembers a click step. *)
Definition step_key (step : Step.t) : string :=
  dedup_key (Step.selector step) (default "" (Step.text step)).

Definition is_click (step : Step.t) : bool :=
  String.eqb (default "" (Step.action step)) "click".

(** The keys of the click steps of a list of steps. *)
Definition click_keys (steps : list Step.t) : list string :=
  step_key <$> List.filter is_click steps.

(** What a recorded step looks like. *)
Definition is_recorded_step (step : Step.t) : Prop :=
  (Step.action step = Some "click"
   ∧ (default "" (Step.tag step) ∉ ["input"; "textarea"; "select"])
   ∧ String.length (default "" (Step.text step)) ≤ 100
   ∧ (default "" (Step.text step) = ""
      → default "other" (Step.purpose step) ≠ "other")
   ∧ (Step.selector step = None → default "" (Step.text step) ≠ ""))
  ∨ (Step.action step = Some "navigate"
     ∧ ∃ u, Step.url step = Some u ∧ u ≠ "")
  ∨ (Step.action step = Some "wait"
     ∧ ∃ n, Step.seconds step = Some n ∧ (n ≤ 2)%N)
  ∨ Step.action step = Some "go_back".

(** ** checkout_agent.py: the field lists of the form tools *)

(** An entry of the list handed to [FORM_FILL_JS]. The payment fields have
    no [isSelect] and no [selectCode] key; [selectCode] is also [None] for
    the value [None]. *)
Module Field.
Record t : Type := mk {
  name : string;
  value : string;
  selectors : list string;
  isSelect : option bool;
  selectCode : option string;
}.
End Field.

(** The local function [sels] of both builders: the saved selector of the
    field, if any, then the universal ones. *)
Definition sels (saved : gmap string string) (field_name : string)
    (universal : list string) : list string :=
  match saved !! field_name with
  | Some selector => [selector]
  | None => []
  end ++ universal.

(** [[attribute op "value"]], with an optional tag in front *)
Definition css (tag attribute op value : string) : string :=
  tag +:+ "[" +:+ attribute +:+ op +:+ dquote +:+ value +:+ dquote +:+ "]".

Definition build_field_list
    (email first_name last_name street city state zip_code country_code
     c_name phone : string)
    (saved_selectors : option (gmap string string)) : list Field.t :=
  let saved := default ∅ saved_selectors in
  [ Field.mk "email" email
      (sels saved "email"
         [css "" "autocomplete" "=" "email"; css "input" "name" "=" "email";
          css "input" "type" "=" "email"; "#email"; "#checkout_email";
          css "input" "id" "*=" "email"])
      (Some false) None;
    Field.mk "country" c_name
      (sels saved "country"
         [css "select" "autocomplete" "=" "country";
          css "select" "name" "*=" "country";
          css "select" "autocomplete" "=" "country-name"; "#country";
          css "select" "id" "*=" "country"])
      (Some true) (Some country_code);
    Field.mk "first_name" first_name
      (sels saved "first_name"
         [css "" "autocomplete" "=" "given-name";
          css "input" "name" "*=" "first"; css "input" "name" "*=" "First";
          "#firstName"; css "input" "id" "*=" "firstName"])
      (Some false) None;
    Field.mk "last_name" last_name
      (sels saved "last_name"
         [css "" "autocomplete" "=" "family-name";
          css "input" "name" "*=" "last"; css "input" "name" "*=" "Last";
          "#lastName"; css "input" "id" "*=" "lastName"])
      (Some false) None;
    Field.mk "address" street
      (sels saved "address"
         [css "" "autocomplete" "=" "address-line1";
          css "input" "name" "*=" "address1";
          css "input" "name" "*=" "street"; "#address1"])
      (Some false) None;
    Field.mk "city" city
      (sels saved "city"
         [css "" "autocomplete" "=" "address-level2";
          css "input" "name" "*=" "city"; "#city"])
      (Some false) None;
    Field.mk "state" state
      (sels saved "state"
         [css "" "autocomplete" "=" "address-level1";
          css "select" "name" "*=" "state"; css "select" "name" "*=" "zone";
          css "input" "name" "*=" "state"; "#province"])
      (Some false) None;
    Field.mk "zip_code" zip_code
      (sels saved "zip_code"
         [css "" "autocomplete" "=" "postal-code";
          css "input" "name" "*=" "zip"; css "input" "name" "*=" "postal";
          "#postalCode"])
      (Some false) None;
    Field.mk "phone" phone
      (sels saved "phone"
         [css "" "autocomplete" "=" "tel"; css "input" "name" "*=" "phone";
          css "input" "type" "=" "tel"; "#phone"])
      (Some false) None ].

Definition build_payment_field_list
    (card_number card_exp card_cvv card_name : string)
    (saved_selectors : option (gmap string string)) : list Field.t :=
  let saved := default ∅ saved_selectors in
  [ Field.mk "card_number" card_number
      (sels saved "card_number"
         [css "" "autocomplete" "=" "cc-number";
          css "input" "name" "*=" "card_number";
          css "input" "name" "*=" "cardNumber";
          css "input" "name" "*=" "number"])
      None None;
    Field.mk "expiry" card_exp
      (sels saved "card_expiry"
         [css "" "autocomplete" "=" "cc-exp"; css "input" "name" "*=" "expiry";
          css "input" "name" "*=" "exp"; css "input" "placeholder" "*=" "MM"])
      None None;
    Field.mk "cvv" card_cvv
      (sels saved "card_cvv"
         [css "" "autocomplete" "=" "cc-csc"; css "input" "name" "*=" "cvv";
          css "input" "name" "*=" "cvc";
          css "input" "name" "*=" "verification"])
      None None;
    Field.mk "cardholder" card_name
      (sels saved "card_name"
         [css "" "autocomplete" "=" "cc-name";
          css "input" "name" "*=" "cardholder";
          css "input" "name" "*=" "card_name";
          css "input" "name" "*=" "nameOnCard"])
      None None ].

(** ** FORM_FILL_JS: the loop over the fields *)

(** What the script returns. The object [usedSelectors] is a map from the
    names of the fields, none of which is a property of [Object.prototype],
    to selectors. *)
Module Fill.
Record t : Type := mk {
  filled : list string;
  missed : list string;
  verified : list string;
  retried : list string;
  total : nat;
  usedSelectors : gmap string string;
}.
End Fill.

(** How the attempt on one selector ends: without the element being set,
    by the choice of an option, by a write verified at once, or by a write
    verified after a retry. *)
Inductive outcome : Type :=
  | NotFound
  | FoundOption
  | FoundVerified
  | FoundRetried.

Section form_fill_js.

(** The document: its states, its elements, and what the script reads from
    it and does to it. A read or a write that throws is [None], or [false]
    beside the state it leaves. *)
Variable page : Type.
Variable elem : Type.
Variable querySelector : page → string → option (option elem).
Variable disabled : page → elem → bool.
Variable type_hidden : page → elem → bool.
Variable style_hidden : page → elem → option bool.
Variable tag_is_select : page → elem → bool.
Variable options : page → elem → option (list (jsstring * jsstring)).
Variable toLowerCase : jsstring → jsstring.
Variable choose : page → elem → jsstring → page * bool.
Variable setNativeValue : page → elem → jsstring → page * bool.
Variable set_value : page → elem → jsstring → page * bool.
Variable insertText : page → elem → jsstring → page * bool.
Variable value_of : page → elem → jsval.
Variable sleep : page → page.

(** The test of one [option] against one of the values to try. *)
Definition option_matches (v : jsstring) (opt : jsstring * jsstring) : bool :=
  let '(opt_value, textContent) := opt in
  js_eq opt_value v || js_eq (trim textContent) v
  || js_eq (toLowerCase opt_value) (toLowerCase v)
  || js_eq (toLowerCase (trim textContent)) (toLowerCase v).

(** [for (const v of tryValues) for (const opt of el.options) ...]: the
    option to choose. *)
Fixpoint option_to_choose (tryValues : list jsstring)
    (opts : list (jsstring * jsstring)) : option jsstring :=
  match tryValues with
  | [] => None
  | v :: tryValues' =>
      match List.find (option_matches v) opts with
      | Some opt => Some opt.1
      | None => option_to_choose tryValues' opts
      end
  end.

Definition verified_now (p : page) (el : elem) (value : string) : bool :=
  verifyField (value_of p el) (JsString (utf16 value)).

(** The last resort after the loop: [execCommand('insertText')], inside
    its own [try]. *)
Definition last_resort (p : page) (el : elem) (value : string)
  : page * outcome :=
  let '(p, done) := insertText p el (utf16 value) in
  if done && verified_now p el value then (p, FoundRetried) else (p, NotFound).

(** The loop [for (attempt = 0; attempt <= MAX_RETRIES; attempt++)]:
    [left] turns are left, the last of them without the second method. *)
Fixpoint fill_verify_retry (left attempt : nat) (p : page) (el : elem)
    (value : string) : page * outcome :=
  match left with
  | O => last_resort p el value
  | S left' =>
      let '(p, done) := setNativeValue p el (utf16 value) in
      if negb done then (p, NotFound)
      else if verified_now p el value
      then (p, if (0 <? attempt)%nat then FoundRetried else FoundVerified)
      else
        match left' with
        | O => last_resort p el value
        | S _ =>
            let '(p, done) := set_value p el (utf16 value) in
            if negb done then (p, NotFound)
            else if verified_now p el value then (p, FoundRetried)
            else fill_verify_retry left' (S attempt) p el value
        end
  end.

Definition MAX_RETRIES : nat := 2.

(** The body of [for (const sel of selectors)], inside its [try]. *)
Definition try_selector (field : Field.t) (sel : string) (p : page)
  : page * outcome :=
  match querySelector p sel with
  | None | Some None => (p, NotFound)
  | Some (Some el) =>
      if disabled p el || type_hidden p el then (p, NotFound)
      else if default false (style_hidden p el) then (p, NotFound)
      else if default false (Field.isSelect field) || tag_is_select p el then
        let value := utf16 (Field.value field) in
        let tryValues :=
          match Field.selectCode field with
          | Some code => if str_truthy code then [utf16 code; value] else [value]
          | None => [value]
          end in
        match options p el with
        | None => (p, NotFound)
        | Some opts =>
            match option_to_choose tryValues opts with
            | Some opt_value =>
                let '(p, done) := choose p el opt_value in
                (p, if done then FoundOption else NotFound)
            | None => (p, NotFound)
            end
        end
      else fill_verify_retry (S MAX_RETRIES) 0 p el (Field.value field)
  end.

(** [for (const sel of selectors)]: the selector that set the element. *)
Fixpoint try_selectors (field : Field.t) (selectors : list string) (p : page)
  : page * option (string * outcome) :=
  match selectors with
  | [] => (p, None)
  | sel :: selectors' =>
      match try_selector field sel p with
      | (p, NotFound) => try_selectors field selectors' p
      | (p, found) => (p, Some (sel, found))
      end
  end.

(** One turn of [for (const field of fields)]. *)
Definition fill_field (st : page * Fill.t) (field : Field.t) : page * Fill.t :=
  let '(p, r) := st in
  let name := Field.name field in
  if negb (str_truthy (Field.value field))
     && negb (opt_truthy (Field.selectCode field))
  then (p, Fill.mk (Fill.filled r) (Fill.missed r ++ [name +:+ " (no value)"])
                   (Fill.verified r) (Fill.retried r) (Fill.total r)
                   (Fill.usedSelectors r))
  else
    match try_selectors field (Field.selectors field) p with
    | (p, Some (sel, found)) =>
        (sleep p,
         Fill.mk (Fill.filled r ++ [name]) (Fill.missed r)
           (Fill.verified r ++
              match found with
              | FoundVerified | FoundRetried => [name]
              | _ => []
              end)
           (Fill.retried r ++
              match found with
              | FoundRetried => [name]
              | _ => []
              end)
           (Fill.total r)
           (<[name := sel]> (Fill.usedSelectors r)))
    | (p, None) =>
        (sleep p,
         Fill.mk (Fill.filled r) (Fill.missed r ++ [name]) (Fill.verified r)
           (Fill.retried r) (Fill.total r) (Fill.usedSelectors r))
    end.

Definition FORM_FILL_JS (fields : list Field.t) (p : page) : page * Fill.t :=
  foldl fill_field (p, Fill.mk [] [] [] [] (length fields) ∅) fields.

End form_fill_js.

(** A field that has something to fill in: a value or a select code. *)
Definition has_value (field : Field.t) : Prop :=
  Field.value field ≠ "" ∨ ∃ code, Field.selectCode field = Some code ∧ code ≠ "".

(** What the lists of a report say about the fields that were handled. *)
Definition is_fill_report (fields : list Field.t) (r : Fill.t) : Prop :=
  length (Fill.filled r) + length (Fill.missed r) = length fields
  ∧ Fill.retried r `sublist_of` Fill.verified r
  ∧ Fill.verified r `sublist_of` Fill.filled r
  ∧ (∀ name, name ∈ Fill.filled r ↔ is_Some (Fill.usedSelectors r !! name))
  ∧ (∀ name sel, Fill.usedSelectors r !! name = Some sel →
       ∃ field, field ∈ fields ∧ Field.name field = name
                ∧ sel ∈ Field.selectors field ∧ has_value field).

(** ** urllib.parse: the path of a URL *)

(** The scheme that [urlsplit] splits off, lower-cased, or [''] . *)
Definition scheme_of (url : string) : string :=
  let candidate := before_first ":" url in
  match url with
  | String a _ =>
      if str_has ":" url && negb (String.eqb candidate "")
         && is_ascii_alpha a && all_scheme_chars candidate
      then str_lower candidate
      else ""
  | EmptyString => ""
  end.

(** [uses_params] *)
Definition uses_params : list string :=
  [""; "ftp"; "hdl"; "prospero"; "http"; "imap"; "https"; "shttp"; "rtsp";
   "rtspu"; "sip"; "sips"; "mms"; "sftp"; "tel"].

(** [s[:s.rfind(c) + 1]], and [''] when [c] is not in [s] *)
Fixpoint through_last (c : ascii) (s : string) : string :=
  match s with
  | EmptyString => EmptyString
  | String a s' =>
      if str_has c s' || Ascii.eqb a c then String a (through_last c s')
      else EmptyString
  end.

(** [_splitparams(url)[0]] *)
Definition _splitparams (url : string) : string :=
  if str_has "/" url then
    through_last "/" url +:+ before_first ";" (after_last "/" url)
  else before_first ";" url.

(** [urlparse(url).path]: what follows the net location, up to the first
    [#] and the first [?], without the parameters that follow a [;] in the
    last segment. It raises when [urlsplit] does. *)
Definition urlparse_path (url : string) : result string :=
  netloc ← urlsplit_netloc url;
  let stripped := remove_unsafe (lstrip_c0 url) in
  let scheme := scheme_of stripped in
  let url := drop_scheme stripped in
  let url :=
    if String.prefix "//" url then str_drop (2 + String.length netloc) url
    else url in
  let url := before_first "?" (before_first "#" url) in
  Ok (if bool_decide (scheme ∈ uses_params) && str_has ";" url
      then _splitparams url else url).

(** ** checkout_agent.py: learning after a successful run *)

(** What the scan of the page gives: nothing, when there is no page or the
    scan raises, or the selectors it found, with the platform unless its
    detection raises. *)
Inductive scan : Type :=
  | ScanFailed
  | Scanned (form payment : gmap string string) (platform : option string).

(** [for pattern in [...]: if pattern in path: ...; break] *)
Definition first_pattern_in (path : string) : option string :=
  List.find (λ pattern, str_contains pattern path)
    ["/checkouts/"; "/checkout/"; "/cart/checkout"; "/order/"].

(** [fill_form] and [fill_payment] are [fill_results["form"]] and
    [fill_results["payment"]]; the result is the [dict] of the learned
    selectors. *)
Definition _discover_and_save (now : string) (w : write_outcome)
    (product_url : string) (final_url : option string)
    (fill_form fill_payment : gmap string string) (nav_steps : list Step.t)
    (scanned : scan)
  : io (gmap string string * gmap string string) :=
  let discovered_form := fill_form in
  let discovered_payment := fill_payment in
  let platform := "unknown" in
  let '(discovered_form, discovered_payment, platform) :=
    match scanned with
    | ScanFailed => (discovered_form, discovered_payment, platform)
    | Scanned form payment detected =>
        (discovered_form ∪ form, discovered_payment ∪ payment,
         default platform detected)
    end in
  checkout_url_pattern ←
    (if opt_truthy final_url then
       path ← lift (urlparse_path (default "" final_url));
       ret (first_pattern_in path)
     else ret None);
  _ ← (if negb (bool_decide (discovered_form = ∅))
          || negb (bool_decide (discovered_payment = ∅))
          || negb (bool_decide (nav_steps = []))
       then save_flow now w product_url discovered_form
              (Some discovered_payment) (Some nav_steps) checkout_url_pattern
              (Some platform) final_url
       else ret ());
  ret (discovered_form, discovered_payment).

(** [run_checkout], the block that injects the replay script:
    [injected] tells that building and injecting the script did not raise. *)
Definition run_checkout_replay_count (saved_nav_steps : list Step.t)
    (browser_started injected : bool) : nat :=
  let replay_count := 0 in
  let has_saved_nav := negb (bool_decide (saved_nav_steps = [])) in
  if has_saved_nav then
    let pre_form_steps := _filter_pre_form_steps saved_nav_steps in
    let replay_count := length (List.filter is_click pre_form_steps) in
    if (0 <? replay_count)%nat && browser_started then
      if injected then replay_count else 0
    else replay_count
  else replay_count.

(** [run_checkout], after a successful run: the steps that are saved. *)
Definition run_checkout_all_nav_steps (replay_count : nat)
    (saved_nav_steps nav_steps : list Step.t) : list Step.t :=
  if (0 <? replay_count)%nat && negb (bool_decide (saved_nav_steps = []))
  then take replay_count saved_nav_steps ++ nav_steps
  else nav_steps.

(** ** checkout_agent.py: the replay script *)

(** A click target of the replay script. *)
Module Target.
Record t : Type := mk {
  selector : option string;
  text : string;
  aria_label : string;
  purpose : string;
}.
End Target.

(** The [dict] appended for a click step. *)
Definition target_of (step : Step.t) : Target.t :=
  {| Target.selector := Step.selector step;
     Target.text := str_take 60 (default "" (Step.text step));
     Target.aria_label := str_take 60 (default "" (Step.aria_label step));
     Target.purpose := default "other" (Step.purpose step) |}.

(** [url_groups], a [dict] in the order in which its keys were added. *)
Definition url_groups : Type := list (string * list Target.t).

(** [if path not in url_groups: url_groups[path] = []] followed by
    [url_groups[path].append(target)] *)
Fixpoint group_append (path : string) (target : Target.t) (groups : url_groups)
  : url_groups :=
  match groups with
  | [] => [(path, [target])]
  | (p, targets) :: groups' =>
      if String.eqb p path then (p, targets ++ [target]) :: groups'
      else (p, targets) :: group_append path target groups'
  end.

(** [steps[p]] *)
Fixpoint group_of (p : string) (groups : url_groups) : option (list Target.t) :=
  match groups with
  | [] => None
  | (q, targets) :: groups' =>
      if String.eqb q p then Some targets else group_of p groups'
  end.

(** The path under which a click step is grouped:
    [urlparse(url_at).path or '/'] with [url_at] the address of the step,
    or the product address when the step has none. *)
Definition replay_path (product_url : string) (step : Step.t) : result string :=
  let url_at := default product_url (str_or (Step.url_at step) None) in
  path ← urlparse_path url_at;
  Ok (if str_truthy path then path else "/").

(** The loop of [_build_page_replay_script] over the steps, which ends in
    the [dict] that the script carries as [steps]. *)
Fixpoint group_steps (pre_form_steps : list Step.t) (product_url : string)
    (groups : url_groups) : result url_groups :=
  match pre_form_steps with
  | [] => Ok groups
  | step :: rest =>
      if negb (is_click step) then group_steps rest product_url groups
      else
        path ← replay_path product_url step;
        group_steps rest product_url (group_append path (target_of step) groups)
  end.

Definition _build_page_replay_script (pre_form_steps : list Step.t)
    (product_url : string) : result url_groups :=
  group_steps pre_form_steps product_url [].

(** The script on a page, whose path is [window.location.pathname] and
    begins with [/]: the loop [for (var p in steps)] that looks for the
    longest key that begins the path. *)
Definition longest_prefix (path : string) (keys : list string) : option string :=
  (foldl (λ (best : option string * nat) p,
            if String.prefix p path && (best.2 <? String.length p)%nat
            then (Some p, String.length p) else best)
         (None, 0) keys).1.

(** The targets that the script clicks on a page with the given path:
    those of the matched key, or none. *)
Definition replay_targets (groups : url_groups) (path : string)
  : list Target.t :=
  let matchedPath := longest_prefix path (groups.*1) in
  let matchedPath :=
    match matchedPath with
    | Some p => Some p
    | None => if opt_present (group_of path groups) then Some path else None
    end in
  match matchedPath with
  | Some p => if str_truthy p then default [] (group_of p groups) else []
  | None => []
  end.

(** The targets of the click steps that were recorded on the path [p]. *)
Definition clicks_at (product_url p : string) (steps : list Step.t)
  : list Target.t :=
  target_of <$>
    List.filter (λ step,
                   is_click step
                   && match replay_path product_url step with
                      | Ok q => String.eqb q p
                      | Raise _ => false
                      end) steps.

(** ** checkout_agent.py: the names on the form *)

(** [run_checkout], the two assignments of [first_name] and [last_name]:
    [None] when [full_name.split()[0]] raises [IndexError]. *)
Definition run_checkout_names (full_name : string) : option (string * string) :=
  first_name ←
    (if str_truthy full_name then head (str_split full_name) else Some "");
  let last_name :=
    if str_truthy full_name && (1 <? length (str_split full_name))%nat
    then String.concat " " (tail (str_split full_name))
    else first_name in
  Some (first_name, last_name).

(** A word: not empty and without a character at which [split] splits. *)
Definition is_word (w : string) : Prop :=
  w ≠ "" ∧ str_forall (λ c, negb (is_py_space c)) w = true.

(** * Properties *)

(** ** Fill verification *)








(** ** Health monitor *)

Lemma needs_relearn_unfold (flow : Flow.t) :
  Health.needs_relearn (check_flow_health flow)
  = failed_after_last_success flow
    || (2 <=? default 0 (Flow.consecutive_failures flow))%N.
Proof.
  unfold check_flow_health.
  destruct (2 <=? default 0 (Flow.consecutive_failures flow))%N; simpl.
  - by rewrite orb_true_r.
  - rewrite orb_false_r. by destruct (failed_after_last_success flow).
Qed.

(** C3. A record with two or more consecutive failures needs a re-learn and
    has the status [needs_relearn], whatever its counters, its success
    rate and its timestamps. *)
Theorem consecutive_failures_force_relearn (flow : Flow.t) (n : N) :
  Flow.consecutive_failures flow = Some n → (2 ≤ n)%N →
  Health.needs_relearn (check_flow_health flow) = true
  ∧ Health.status (check_flow_health flow) = "needs_relearn".
Proof.
  intros Hn Hge. unfold check_flow_health. rewrite Hn. simpl default.
  apply N.leb_le in Hge. rewrite Hge. done.
Qed.

Lemma consecutive_failures_force_relearn_witness :
  Health.needs_relearn (check_flow_health stale_twice) = true
  ∧ Health.status (check_flow_health stale_twice) = "needs_relearn".
Proof.
  apply (consecutive_failures_force_relearn stale_twice 2); [reflexivity | lia].
Defined.

(** One success and four failures: five runs, a success rate of exactly
    20.0, which is not below 20, so the status is [degraded] and not
    [broken]. *)
Lemma one_in_five_is_degraded :
  total_runs one_in_five = 5%N
  ∧ Health.success_rate (check_flow_health one_in_five) = float_of_int 20
  ∧ Health.status (check_flow_health one_in_five) = "degraded"
  ∧ Health.status (check_flow_health one_in_five) ≠ "broken".
Proof. vm_compute. repeat split; try reflexivity. discriminate. Qed.

(** No success and five failures: a rate of 0, and the status [broken]. *)
Lemma no_success_in_five_is_broken (flow : Flow.t) :
  Flow.success_count flow = Some 0%N →
  Flow.failure_count flow = Some 5%N →
  (default 0 (Flow.consecutive_failures flow) < 2)%N →
  Health.success_rate (check_flow_health flow) = S754_zero false
  ∧ Health.status (check_flow_health flow) = "broken".
Proof.
  intros Hs Hf Hc. apply N.leb_gt in Hc.
  unfold check_flow_health, success_rate, total_runs.
  rewrite Hs, Hf, Hc. vm_compute. done.
Qed.

(** C2, as amended. A record with one success and four failures and fewer
    than two consecutive failures has five runs, a success rate of 20.0 and
    the status [degraded]: [broken] needs a rate strictly below 20. *)
Theorem one_success_four_failures (flow : Flow.t) :
  Flow.success_count flow = Some 1%N →
  Flow.failure_count flow = Some 4%N →
  (default 0 (Flow.consecutive_failures flow) < 2)%N →
  total_runs flow = 5%N
  ∧ Health.success_rate (check_flow_health flow) = float_of_int 20
  ∧ Health.status (check_flow_health flow) = "degraded".
Proof.
  intros Hs Hf Hc. apply N.leb_gt in Hc.
  unfold check_flow_health, success_rate, total_runs.
  rewrite Hs, Hf, Hc. vm_compute. done.
Qed.

Lemma one_success_four_failures_witness :
  total_runs one_in_five = 5%N
  ∧ Health.success_rate (check_flow_health one_in_five) = float_of_int 20
  ∧ Health.status (check_flow_health one_in_five) = "degraded".
Proof.
  apply (one_success_four_failures one_in_five);
    [reflexivity | reflexivity | simpl; lia].
Defined.

(** ** Python strings *)

Lemma app_cons (a : ascii) (s t : string) : String a s +:+ t = String a (s +:+ t).
Proof. reflexivity. Qed.

Lemma app_empty (s : string) : s +:+ "" = s.
Proof. induction s as [|a s IH]; [done|]. by rewrite app_cons, IH. Qed.

Lemma prefix_app (p s : string) : String.prefix p (p +:+ s) = true.
Proof.
  induction p as [|a p IH]; [by destruct s|].
  rewrite app_cons. simpl. destruct (ascii_dec a a); [exact IH | done].
Qed.

Lemma str_drop_app (p s : string) : str_drop (String.length p) (p +:+ s) = s.
Proof. induction p as [|a p IH]; [by destruct s | exact IH]. Qed.

Lemma str_forall_has (p : ascii → bool) (c : ascii) (s : string) :
  str_forall p s = true → p c = false → str_has c s = false.
Proof.
  intros Hs Hc. induction s as [|a s IH]; [done|].
  simpl in *. apply andb_true_iff in Hs as [Ha Hs].
  rewrite (IH Hs), orb_false_r. apply Ascii.eqb_neq. congruence.
Qed.

Lemma str_remove_absent (c : ascii) (s : string) :
  str_has c s = false → str_remove c s = s.
Proof.
  induction s as [|a s IH]; [done|]. simpl.
  intros [Ha Hs]%orb_false_iff. by rewrite Ha, IH.
Qed.

Lemma str_remove_app (c : ascii) (a b : string) :
  str_remove c (a +:+ b) = str_remove c a +:+ str_remove c b.
Proof.
  induction a as [|x a IH]; [done|]. rewrite app_cons. simpl.
  destruct (Ascii.eqb x c); [done|]. by rewrite app_cons, IH.
Qed.

Lemma before_first_absent (c : ascii) (s : string) :
  str_has c s = false → before_first c s = s.
Proof.
  induction s as [|a s IH]; [done|]. simpl.
  intros [Ha Hs]%orb_false_iff. by rewrite Ha, IH.
Qed.

Lemma before_first_app (c : ascii) (a t : string) :
  str_has c a = false → before_first c (a +:+ String c t) = a.
Proof.
  induction a as [|x a IH].
  - intros _. change ("" +:+ ?u) with u. simpl. by rewrite Ascii.eqb_refl.
  - rewrite app_cons. simpl. intros [Hx Ha]%orb_false_iff. by rewrite Hx, IH.
Qed.

Lemma str_has_app (c : ascii) (a b : string) :
  str_has c (a +:+ b) = str_has c a || str_has c b.
Proof.
  induction a as [|x a IH]; [done|]. rewrite app_cons. simpl.
  by rewrite IH, orb_assoc.
Qed.

Lemma from_first_absent (c : ascii) (s : string) :
  str_has c s = false → from_first c s = "".
Proof.
  induction s as [|a s IH]; [done|]. simpl.
  intros [Ha Hs]%orb_false_iff. by rewrite Ha, IH.
Qed.

Lemma after_last_absent (c : ascii) (s : string) :
  str_has c s = false → after_last c s = s.
Proof.
  destruct s as [|a s]; [done|]. simpl.
  intros [Ha Hs]%orb_false_iff. by rewrite Hs, Ha.
Qed.

Lemma up_to_delimiter_app (netloc tail : string) :
  str_forall is_netloc_char netloc = true → is_url_tail tail = true →
  up_to_delimiter (netloc +:+ tail) = netloc.
Proof.
  intros Hnetloc Htail. induction netloc as [|a netloc IH].
  - change ("" +:+ ?u) with u. destruct tail as [|c tail]; [done|].
    simpl in *. by rewrite Htail.
  - rewrite app_cons. simpl in *.
    apply andb_true_iff in Hnetloc as [Ha Hnetloc].
    rewrite (IH Hnetloc). unfold is_netloc_char in Ha.
    by destruct (is_delimiter a).
Qed.

Lemma str_app_assoc (a b c : string) : (a +:+ b) +:+ c = a +:+ (b +:+ c).
Proof. induction a as [|x a IH]; [done|]. rewrite !app_cons. by rewrite IH. Qed.

Lemma str_forall_impl (p q : ascii → bool) (s : string) :
  (∀ c, p c = true → q c = true) →
  str_forall p s = true → str_forall q s = true.
Proof.
  intros Hpq. induction s as [|a s IH]; [done|]. simpl.
  intros [Ha Hs]%andb_true_iff. by rewrite (Hpq a Ha), IH.
Qed.

Lemma str_forall_app (p : ascii → bool) (a b : string) :
  str_forall p (a +:+ b) = str_forall p a && str_forall p b.
Proof.
  induction a as [|x a IH]; [done|]. rewrite app_cons. simpl.
  by rewrite IH, andb_assoc.
Qed.

Lemma after_last_app (c : ascii) (a b : string) :
  str_has c b = false → after_last c (a +:+ String c b) = b.
Proof.
  intros Hb. induction a as [|x a IH].
  - change ("" +:+ ?u) with u. simpl. by rewrite Hb, Ascii.eqb_refl.
  - rewrite app_cons. cbn [after_last]. rewrite str_has_app. cbn [str_has].
    by rewrite Ascii.eqb_refl, orb_true_r.
Qed.

Lemma str_contains_char (c : ascii) (s : string) :
  str_contains (String c "") s = str_has c s.
Proof.
  induction s as [|a s IH]; [done|].
  cbn [str_contains str_has]. rewrite IH. f_equal.
  simpl. destruct (ascii_dec c a) as [->|Hne].
  - rewrite Ascii.eqb_refl. by destruct s.
  - symmetry. apply Ascii.eqb_neq. congruence.
Qed.

Lemma str_replace_absent (c r : ascii) (s : string) :
  str_has c s = false → str_replace c r s = s.
Proof.
  induction s as [|a s IH]; [done|]. simpl.
  intros [Ha Hs]%orb_false_iff. by rewrite Ha, IH.
Qed.

Lemma list_ascii_of_string_app (s t : string) :
  list_ascii_of_string (s +:+ t)
  = list_ascii_of_string s ++ list_ascii_of_string t.
Proof. induction s as [|a s IH]; [done|]. rewrite app_cons. simpl. by rewrite IH. Qed.

Lemma str_app_inv_tail (s t u : string) : s +:+ u = t +:+ u → s = t.
Proof.
  intros H. apply (f_equal list_ascii_of_string) in H.
  rewrite !list_ascii_of_string_app in H. apply app_inv_tail in H.
  apply (f_equal string_of_list_ascii) in H.
  by rewrite !string_of_list_ascii_of_string in H.
Qed.

Lemma str_app_inv_head (u s t : string) : u +:+ s = u +:+ t → s = t.
Proof. induction u as [|a u IH]; [done|]. rewrite !app_cons. intros [= H]. auto. Qed.

Lemma all_scheme_chars_forall (s : string) :
  all_scheme_chars s = str_forall is_scheme_char s.
Proof. induction s as [|a s IH]; [done|]. simpl. by rewrite IH. Qed.

Lemma alpha_not_stripped (a : ascii) :
  is_ascii_alpha a = true → is_c0_control_or_space a = false.
Proof. destruct a as [[] [] [] [] [] [] [] []]; done. Qed.

Lemma str_drop_app_cons (p t : string) (c : ascii) :
  str_drop (S (String.length p)) (p +:+ String c t) = t.
Proof. induction p as [|a p IH]; [done | exact IH]. Qed.

Lemma drop_scheme_app (scheme t : string) :
  is_scheme scheme = true → drop_scheme (scheme +:+ String ":" t) = t.
Proof.
  destruct scheme as [|a scheme]; [done|]. unfold is_scheme.
  intros [Ha Hall]%andb_true_iff.
  assert (str_has ":" (String a scheme) = false) as Hcolon.
  { rewrite all_scheme_chars_forall in Hall.
    by apply (str_forall_has is_scheme_char). }
  unfold drop_scheme.
  rewrite (before_first_app _ _ _ Hcolon), str_has_app.
  cbn [str_has]. rewrite Ascii.eqb_refl, orb_true_r.
  rewrite app_cons. rewrite Ha, Hall. cbn [String.eqb negb andb].
  rewrite <- app_cons. apply str_drop_app_cons.
Qed.

Lemma remove_unsafe_app (a b : string) :
  remove_unsafe (a +:+ b) = remove_unsafe a +:+ remove_unsafe b.
Proof. unfold remove_unsafe. by rewrite !str_remove_app. Qed.

Lemma remove_unsafe_id (p : ascii → bool) (s : string) :
  str_forall p s = true →
  p "009"%char = false → p "010"%char = false → p "013"%char = false →
  remove_unsafe s = s.
Proof.
  intros Hs H9 H10 H13. unfold remove_unsafe.
  rewrite (str_remove_absent "009" s), (str_remove_absent "013" s),
    (str_remove_absent "010" s); eauto using str_forall_has.
Qed.

Lemma remove_unsafe_tail (tail : string) :
  is_url_tail tail = true → is_url_tail (remove_unsafe tail) = true.
Proof.
  destruct tail as [|c tail]; [done|]. simpl. intros Hc.
  unfold remove_unsafe. simpl.
  destruct c as [[] [] [] [] [] [] [] []]; done.
Qed.

(** ** Replay boundary *)

Lemma prefix_split (p s : string) :
  String.prefix p s = true → s = p +:+ str_drop (String.length p) s.
Proof.
  revert s. induction p as [|a p IH]; intros s; [done|].
  destruct s as [|b s]; [done|]. simpl.
  destruct (ascii_dec a b) as [->|]; [|done].
  intros Hp. unfold String.app. simpl. f_equal. by apply IH.
Qed.

Lemma search_checkout_subpage_spec (s : string) :
  search_checkout_subpage s = true ↔ checkout_subpage s.
Proof.
  unfold checkout_subpage. split.
  - induction s as [|x s IH].
    + simpl. discriminate.
    + cbn [search_checkout_subpage]. intros [H|H]%orb_true_iff.
      * apply andb_true_iff in H as [Hp Hc].
        apply prefix_split in Hp. change (String.length "/checkout/") with 10 in Hp.
        destruct (str_drop 10 (String x s)) as [|c b]; [done|].
        exists "", c, b. split; [exact Hp|].
        intros ->. discriminate.
      * destruct (IH H) as (a & c & b & -> & Hc).
        by exists (String x a), c, b.
  - intros (a & c & b & -> & Hc). induction a as [|x a IH].
    + change ("" +:+ ?t) with t.
      assert (Ascii.eqb c "010" = false) as Hc' by by apply Ascii.eqb_neq.
      destruct c as [[] [] [] [] [] [] [] []]; try done.
    + change (String x a +:+ ?t) with (String x (a +:+ t)).
      cbn [search_checkout_subpage]. rewrite IH. apply orb_true_r.
Qed.

Lemma eqb_default (o : option string) (dflt lit : string) :
  dflt ≠ lit → String.eqb (default dflt o) lit = true ↔ o = Some lit.
Proof.
  intros Hne. rewrite String.eqb_eq. destruct o as [s|]; simpl.
  - split; congruence.
  - split; [done | discriminate].
Qed.

Lemma url_at_or_empty (o : option string) :
  search_checkout_subpage (default "" (str_or o (Some ""))) = true ↔
    ∃ u, o = Some u ∧ checkout_subpage u.
Proof.
  destruct o as [u|]; simpl.
  - assert (default "" (if str_truthy u then Some u else Some "") = u) as ->.
    { unfold str_truthy. destruct (String.eqb_spec u ""); by subst. }
    rewrite search_checkout_subpage_spec. split; [eauto|].
    by intros (u' & [= <-] & H).
  - split; [done|]. by intros (u & ? & _).
Qed.

Lemma is_post_form_step_spec (step : Step.t) :
  is_post_form_step step = true ↔ boundary step.
Proof.
  unfold is_post_form_step, boundary.
  rewrite !andb_true_iff, orb_true_iff, !eqb_default, url_at_or_empty by done.
  tauto.
Qed.

Lemma is_wait_spec (step : Step.t) :
  String.eqb (default "" (Step.action step)) "wait" = is_wait step.
Proof.
  unfold is_wait. destruct (Step.action step) as [s|]; simpl.
  - destruct (String.eqb_spec s "wait") as [->|H]; symmetry.
    + by apply bool_decide_eq_true.
    + apply bool_decide_eq_false. congruence.
  - reflexivity.
Qed.

Lemma wait_is_not_boundary (step : Step.t) : is_wait step = true → ¬ boundary step.
Proof.
  unfold is_wait, boundary. intros H%bool_decide_eq_true [Hc _]. congruence.
Qed.

(** C5, as amended. The result is made of the steps that come before the
    first [continue] or [confirm] click on a checkout sub-page, in their
    original order and without the [wait] steps; the boundary step and what
    follows it are left out, and without a boundary every step that is not
    a [wait] is returned. *)
Theorem pre_form_steps_boundary (steps : list Step.t) :
  ∃ pre post,
    steps = pre ++ post
    ∧ Forall (λ step, ¬ boundary step) pre
    ∧ (post = [] ∨ ∃ step rest, post = step :: rest ∧ boundary step)
    ∧ _filter_pre_form_steps steps
      = List.filter (λ step, negb (is_wait step)) pre.
Proof.
  induction steps as [|step steps (pre & post & Hsplit & Hpre & Hpost & Hres)].
  - exists [], []. repeat split; auto.
  - cbn [_filter_pre_form_steps]. rewrite is_wait_spec.
    destruct (is_wait step) eqn:Hwait.
    + exists (step :: pre), post. split; [by rewrite Hsplit|].
      split; [constructor; [by apply wait_is_not_boundary | done]|].
      split; [done|]. simpl. by rewrite Hwait.
    + destruct (is_post_form_step step) eqn:Hstop.
      * exists [], (step :: steps). split; [done|]. split; [constructor|].
        split; [|done]. right. exists step, steps. split; [done|].
        by apply is_post_form_step_spec.
      * exists (step :: pre), post. split; [by rewrite Hsplit|].
        split.
        { constructor; [|done]. rewrite <- is_post_form_step_spec. congruence. }
        split; [done|]. simpl. by rewrite Hwait, Hres.
Qed.

(** Without a boundary, every step that is not a [wait] is returned. *)
Lemma pre_form_steps_without_boundary (steps : list Step.t) :
  Forall (λ step, ¬ boundary step) steps →
  _filter_pre_form_steps steps = List.filter (λ step, negb (is_wait step)) steps.
Proof.
  induction 1 as [|step steps Hstep _ IH]; [done|].
  cbn [_filter_pre_form_steps List.filter]. rewrite is_wait_spec, IH.
  destruct (is_wait step); [done|]. simpl.
  destruct (is_post_form_step step) eqn:Hstop; [|done].
  by apply is_post_form_step_spec in Hstop.
Qed.

(** The replay boundary example of the specification. *)
Lemma replay_boundary_example :
  _filter_pre_form_steps
    [click "add_to_cart" "/products/x" "Add to cart";
     click "continue" "/checkout/address" "Continue"]
  = [click "add_to_cart" "/products/x" "Add to cart"].
Proof. reflexivity. Qed.

(** A [wait] step before any boundary is not returned. *)
Lemma wait_step_is_dropped :
  let steps := [wait 2; click "add_to_cart" "/products/x" "Add to cart"] in
  Forall (λ step, ¬ boundary step) steps
  ∧ _filter_pre_form_steps steps
    = [click "add_to_cart" "/products/x" "Add to cart"]
  ∧ _filter_pre_form_steps steps ≠ steps.
Proof.
  intros steps. split; [|split; [reflexivity | discriminate]].
  repeat constructor; rewrite <- is_post_form_step_spec; discriminate.
Qed.

(** ** Flow store *)

Ltac io_unfold :=
  unfold ret, lift, path_exists, read_json, write_json, try_except;
  unfold mbind, mret, io_bind, io_ret, result_bind, result_ret;
  cbv beta zeta.

Lemma load_flow_unfold (x d : string) (fs : files) :
  domain_of x = Ok d →
  load_flow x fs =
    (fs, match fs !! _flow_path d with
         | None | Some Unreadable | Some NotJson => Ok None
         | Some BadEncoding => Raise UnicodeDecodeError
         | Some (NonObject _) => Raise AttributeError
         | Some (Object flow) => Ok (Some flow)
         end).
Proof.
  intros Hd. unfold load_flow. io_unfold. rewrite Hd. cbv beta iota zeta.
  destruct (fs !! _flow_path d) as [[| | |k|flow]|] eqn:Hp;
    simpl; rewrite ?Hp; done.
Qed.

Lemma load_flow_bad_domain (x : string) (e : exn) (fs : files) :
  domain_of x = Raise e → load_flow x fs = (fs, Raise e).
Proof. intros Hd. unfold load_flow. io_unfold. by rewrite Hd. Qed.

(** C6. A flow file that holds the JSON array [[]] makes [load_flow] raise
    [AttributeError] instead of answering [None]. *)
Theorem load_flow_raises_on_json_array :
  let fs : files := {[ _flow_path "shop.example" := NonObject JArray ]} in
  load_flow "shop.example" fs = (fs, Raise AttributeError).
Proof.
  intros fs. rewrite (load_flow_unfold _ "shop.example"); [|reflexivity].
  unfold fs. by rewrite lookup_singleton_eq.
Qed.

(** Bytes that do not decode as text and a URL with an unbalanced bracket
    also reach the caller as exceptions. *)
Lemma load_flow_raises_on_bad_encoding :
  let fs : files := {[ _flow_path "shop.example" := BadEncoding ]} in
  load_flow "shop.example" fs = (fs, Raise UnicodeDecodeError).
Proof.
  intros fs. rewrite (load_flow_unfold _ "shop.example"); [|reflexivity].
  unfold fs. by rewrite lookup_singleton_eq.
Qed.

Lemma load_flow_raises_on_bad_url (fs : files) :
  load_flow "http://[broken/x" fs = (fs, Raise ValueError).
Proof. by apply load_flow_bad_domain. Qed.

(** A missing file, an unreadable file and a file that is not JSON are all
    answered with [None]. *)
Lemma load_flow_fails_closed (x d : string) (fs : files) :
  domain_of x = Ok d →
  fs !! _flow_path d = None
  ∨ fs !! _flow_path d = Some Unreadable
  ∨ fs !! _flow_path d = Some NotJson →
  load_flow x fs = (fs, Ok None).
Proof.
  intros Hd H. rewrite (load_flow_unfold x d fs Hd).
  by destruct H as [->|[->| ->]].
Qed.

Lemma save_flow_written now x d form pay nav pat plat url (fs : files) existing :
  domain_of x = Ok d →
  existing_record (fs !! _flow_path d) = Some existing →
  save_flow now Written x form pay nav pat plat url fs =
    (<[_flow_path d := Object {|
        Flow.domain := Some d;
        Flow.platform :=
          str_or plat (Some (default "unknown" (Flow.platform existing)));
        Flow.checkout_url_pattern :=
          str_or pat (Flow.checkout_url_pattern existing);
        Flow.navigation_steps :=
          Some (default (default [] (Flow.navigation_steps existing)) nav);
        Flow.form_selectors :=
          Some (form ∪ default ∅ (Flow.form_selectors existing));
        Flow.payment_selectors :=
          Some (default ∅ pay ∪ default ∅ (Flow.payment_selectors existing));
        Flow.success_count :=
          Some (default 0 (Flow.success_count existing) + 1)%N;
        Flow.failure_count := Some (default 0%N (Flow.failure_count existing));
        Flow.consecutive_failures := Some 0%N;
        Flow.last_success := Some now;
        Flow.last_failure := None;
        Flow.last_error := None;
        Flow.last_url := str_or url (Flow.last_url existing) |}]> fs,
     Ok ()).
Proof.
  intros Hd He. unfold save_flow. io_unfold. rewrite Hd. cbv beta iota zeta.
  destruct (fs !! _flow_path d) as [[| | |k|flow]|] eqn:Hp;
    simpl in He; simplify_eq; simpl; rewrite ?Hp; simpl; by destruct nav.
Qed.

Lemma save_flow_raises now w x d form pay nav pat plat url (fs : files) :
  domain_of x = Ok d →
  existing_record (fs !! _flow_path d) = None →
  ∃ e, save_flow now w x form pay nav pat plat url fs = (fs, Raise e).
Proof.
  intros Hd He. unfold save_flow. io_unfold. rewrite Hd. cbv beta iota zeta.
  destruct (fs !! _flow_path d) as [[| | |k|flow]|] eqn:Hp;
    simpl in He; simplify_eq; simpl; rewrite ?Hp; simpl; eauto.
Qed.

Lemma save_flow_not_written now w x d form pay nav pat plat url (fs : files) existing :
  domain_of x = Ok d →
  existing_record (fs !! _flow_path d) = Some existing →
  w ≠ Written →
  ∃ fs', save_flow now w x form pay nav pat plat url fs = (fs', Ok ())
         ∧ (fs' = fs ∨ fs' = <[_flow_path d := NotJson]> fs).
Proof.
  intros Hd He Hw. unfold save_flow. io_unfold. rewrite Hd. cbv beta iota zeta.
  destruct (fs !! _flow_path d) as [[| | |k|flow]|] eqn:Hp;
    simpl in He; simplify_eq; simpl; rewrite ?Hp; simpl;
    destruct w; simpl; try done; eauto.
Qed.

Lemma record_failure_absent now w x d error (fs : files) :
  domain_of x = Ok d →
  fs !! _flow_path d = None →
  record_failure now w x error fs = (fs, Ok ()).
Proof.
  intros Hd Hp. unfold record_failure. io_unfold. rewrite Hd.
  cbv beta iota zeta. by rewrite Hp.
Qed.

Lemma record_failure_corrupt now w x d error (fs : files) :
  domain_of x = Ok d →
  fs !! _flow_path d = Some Unreadable ∨ fs !! _flow_path d = Some NotJson →
  record_failure now w x error fs = (fs, Ok ()).
Proof.
  intros Hd Hp. unfold record_failure. io_unfold. rewrite Hd.
  cbv beta iota zeta. by destruct Hp as [Hp|Hp]; rewrite Hp; simpl; rewrite Hp.
Qed.

Lemma record_failure_written now x d error (fs : files) flow :
  domain_of x = Ok d →
  fs !! _flow_path d = Some (Object flow) →
  record_failure now Written x error fs =
    (<[_flow_path d := Object {|
        Flow.domain := Flow.domain flow;
        Flow.platform := Flow.platform flow;
        Flow.checkout_url_pattern := Flow.checkout_url_pattern flow;
        Flow.navigation_steps := Flow.navigation_steps flow;
        Flow.form_selectors := Flow.form_selectors flow;
        Flow.payment_selectors := Flow.payment_selectors flow;
        Flow.success_count := Flow.success_count flow;
        Flow.failure_count := Some (default 0 (Flow.failure_count flow) + 1)%N;
        Flow.consecutive_failures :=
          Some (default 0 (Flow.consecutive_failures flow) + 1)%N;
        Flow.last_success := Flow.last_success flow;
        Flow.last_failure := Some now;
        Flow.last_error :=
          if opt_truthy error then str_take 200 <$> error
          else Flow.last_error flow;
        Flow.last_url := Flow.last_url flow |}]> fs,
     Ok ()).
Proof.
  intros Hd Hp. unfold record_failure. io_unfold. rewrite Hd.
  cbv beta iota zeta. rewrite Hp. simpl. rewrite Hp. simpl.
  destruct error as [e|]; simpl; [|done]. by destruct (str_truthy e).
Qed.

Lemma run_app (a b : list call) (fs : files) :
  run (a ++ b) fs =
    match run a fs with
    | (fs', Ok _) => run b fs'
    | (fs', Raise e) => (fs', Raise e)
    end.
Proof.
  revert fs. induction a as [|c a IH]; intros fs; [done|].
  simpl. io_unfold. destruct (run_call c fs) as [fs1 [[]|e]]; [apply IH | done].
Qed.

Lemma run_snoc (a : list call) (c : call) (fs fs' : files) :
  run a fs = (fs', Ok ()) → run (a ++ [c]) fs = run_call c fs'.
Proof.
  intros Ha. rewrite run_app, Ha. simpl. io_unfold.
  by destruct (run_call c fs') as [fs1 [[]|e]].
Qed.

Lemma latest_snoc {A B} (f : A → option B) (l : list A) (x : A) :
  latest f (l ++ [x]) =
    match f x with
    | Some b => Some b
    | None => latest f l
    end.
Proof.
  induction l as [|a l IH]; simpl.
  - by destruct (f x).
  - rewrite IH. destruct (f x); [done|]. by destruct (latest f l).
Qed.

Lemma latest_fmap {A B C} (f : B → option C) (g : A → B) (l : list A) :
  latest f (g <$> l) = latest (λ x, f (g x)) l.
Proof.
  induction l as [|x l IH]; [done|].
  rewrite fmap_cons. cbn [latest]. by rewrite IH.
Qed.

Lemma union_later_wins_lookup (ms : list (gmap string string)) (k : string) :
  union_later_wins ms !! k = latest (λ m, m !! k) ms.
Proof.
  unfold union_later_wins.
  induction ms as [|m ms IH] using rev_ind; [apply lookup_empty|].
  rewrite foldl_app, latest_snoc. simpl. rewrite lookup_union, IH.
  destruct (m !! k); [|apply (left_id None _)].
  by destruct (latest (λ m0 : gmap string string, m0 !! k) ms).
Qed.

Lemma existing_record_object (fs : files) (p : string) (flow : Flow.t) :
  existing_record (<[p := Object flow]> fs !! p) = Some flow.
Proof. by rewrite lookup_insert_eq. Qed.

(** Saves addressed to one domain [d]. *)
Section saves_for_one_domain.
Variable d : string.

Lemma run_saves_merge (rs : list save_request) (fs : files) (e0 : Flow.t) :
  Forall (λ r, served d (Save r)) rs →
  existing_record (fs !! _flow_path d) = Some e0 →
  ∃ fs' e,
    run (Save <$> rs) fs = (fs', Ok ())
    ∧ existing_record (fs' !! _flow_path d) = Some e
    ∧ (rs ≠ [] →
       fs' !! _flow_path d = Some (Object e)
       ∧ is_Some (Flow.form_selectors e)
       ∧ is_Some (Flow.payment_selectors e)
       ∧ is_Some (Flow.navigation_steps e))
    ∧ (∀ k, default ∅ (Flow.form_selectors e) !! k =
            match latest (λ r, sr_form r !! k) rs with
            | Some v => Some v
            | None => default ∅ (Flow.form_selectors e0) !! k
            end)
    ∧ (∀ k, default ∅ (Flow.payment_selectors e) !! k =
            match latest (λ r, default ∅ (sr_payment r) !! k) rs with
            | Some v => Some v
            | None => default ∅ (Flow.payment_selectors e0) !! k
            end)
    ∧ default [] (Flow.navigation_steps e) =
        default (default [] (Flow.navigation_steps e0)) (latest sr_nav rs).
Proof.
  induction rs as [|r rs IH] using rev_ind; intros Hall He0.
  - exists fs, e0. split; [reflexivity|]. split; [exact He0|].
    split; [intros []; reflexivity|]. simpl. auto.
  - apply Forall_app in Hall as [Hrs Hr].
    apply Forall_singleton in Hr as [Hd Hw].
    destruct (IH Hrs He0) as (fs1 & e1 & Hrun & He1 & _ & Hform & Hpay & Hnav).
    rewrite fmap_app. simpl.
    rewrite (run_snoc _ _ _ _ Hrun). simpl. rewrite Hw.
    rewrite (save_flow_written _ _ d _ _ _ _ _ _ _ e1 Hd He1).
    eexists _, _. split; [reflexivity|].
    split; [apply existing_record_object|].
    split; [intros _; rewrite lookup_insert_eq; simpl; eauto|].
    simpl. split; [|split].
    + intros k. rewrite latest_snoc, lookup_union.
      destruct (sr_form r !! k) as [v|]; simpl.
      * by destruct (default ∅ (Flow.form_selectors e1) !! k).
      * rewrite (left_id None _). apply Hform.
    + intros k. rewrite latest_snoc, lookup_union.
      destruct (default ∅ (sr_payment r) !! k) as [v|]; simpl.
      * by destruct (default ∅ (Flow.payment_selectors e1) !! k).
      * rewrite (left_id None _). apply Hpay.
    + rewrite latest_snoc. destruct (sr_nav r); [done|]. simpl. apply Hnav.
Qed.

(** C1. After a sequence of saves for one domain that starts without a
    record, [form_selectors] and [payment_selectors] are the unions of the
    maps supplied, a later map overriding the earlier ones: a key has the
    value given by the latest save that supplied that key. And
    [navigation_steps] is the sequence given by the latest save that
    supplied one. *)
Theorem save_flow_merge (rs : list save_request) (fs : files) :
  rs ≠ [] →
  Forall (λ r, served d (Save r)) rs →
  fs !! _flow_path d = None →
  ∃ fs' flow form payment,
    run (Save <$> rs) fs = (fs', Ok ())
    ∧ fs' !! _flow_path d = Some (Object flow)
    ∧ Flow.form_selectors flow = Some form
    ∧ Flow.payment_selectors flow = Some payment
    ∧ form = union_later_wins (sr_form <$> rs)
    ∧ payment = union_later_wins ((λ r, default ∅ (sr_payment r)) <$> rs)
    ∧ (∀ k, form !! k = latest (λ r, sr_form r !! k) rs)
    ∧ (∀ k, payment !! k = latest (λ r, default ∅ (sr_payment r) !! k) rs)
    ∧ Flow.navigation_steps flow = Some (default [] (latest sr_nav rs)).
Proof.
  intros Hne Hall Hp.
  destruct (run_saves_merge rs fs Flow.empty Hall) as
    (fs' & e & Hrun & _ & Hlast & Hform & Hpay & Hnav); [by rewrite Hp|].
  destruct (Hlast Hne) as (Hfile & [form Hf] & [payment Hy] & [steps Hs]).
  exists fs', e, form, payment. rewrite Hf in Hform. rewrite Hy in Hpay.
  rewrite Hs in Hnav. simpl in *.
  assert (∀ k, form !! k = latest (λ r, sr_form r !! k) rs) as Hform'.
  { intros k. rewrite Hform. by destruct (latest (λ r, sr_form r !! k) rs). }
  assert (∀ k, payment !! k = latest (λ r, default ∅ (sr_payment r) !! k) rs)
    as Hpay'.
  { intros k. rewrite Hpay.
    by destruct (latest (λ r, default ∅ (sr_payment r) !! k) rs). }
  repeat split; try done.
  - apply map_eq. intros k.
    by rewrite Hform', union_later_wins_lookup, latest_fmap.
  - apply map_eq. intros k.
    by rewrite Hpay', union_later_wins_lookup, latest_fmap.
  - by rewrite Hs, Hnav.
Qed.

End saves_for_one_domain.

Lemma save_flow_merge_witness :
  ∃ fs' flow form payment,
    run (Save <$> [first_visit; second_visit]) ∅ = (fs', Ok ())
    ∧ fs' !! _flow_path "shop.example" = Some (Object flow)
    ∧ Flow.form_selectors flow = Some form
    ∧ Flow.payment_selectors flow = Some payment
    ∧ form = union_later_wins (sr_form <$> [first_visit; second_visit])
    ∧ payment = union_later_wins ((λ r, default ∅ (sr_payment r))
                                    <$> [first_visit; second_visit])
    ∧ (∀ k, form !! k = latest (λ r, sr_form r !! k) [first_visit; second_visit])
    ∧ (∀ k, payment !! k =
            latest (λ r, default ∅ (sr_payment r) !! k)
                   [first_visit; second_visit])
    ∧ Flow.navigation_steps flow
      = Some (default [] (latest sr_nav [first_visit; second_visit])).
Proof.
  apply (save_flow_merge "shop.example" [first_visit; second_visit] ∅).
  - discriminate.
  - repeat constructor.
  - reflexivity.
Defined.

Lemma count_snoc (p : call → bool) (cs : list call) (c : call) :
  count p (cs ++ [c]) = (count p cs + if p c then 1 else 0)%N.
Proof.
  unfold count. rewrite List.filter_app, length_app. simpl.
  destruct (p c); simpl; lia.
Qed.

Lemma forallb_snoc (p : call → bool) (cs : list call) (c : call) :
  forallb p (cs ++ [c]) = forallb p cs && p c.
Proof. rewrite forallb_app. simpl. by rewrite andb_true_r. Qed.

Lemma count_none (p : call → bool) (cs : list call) :
  existsb p cs = false → count p cs = 0%N.
Proof.
  unfold count. induction cs as [|c cs IH]; [done|]. simpl.
  destruct (p c); [done|]. exact IH.
Qed.

Lemma trailing_failures_snoc (cs : list call) (c : call) :
  trailing_failures (cs ++ [c]) =
    if is_failure c then (trailing_failures cs + 1)%N else 0%N.
Proof.
  induction cs as [|c0 cs IH].
  - simpl. by destruct (is_failure c).
  - change ((c0 :: cs) ++ [c]) with (c0 :: (cs ++ [c])).
    cbn [trailing_failures]. rewrite IH.
    change (c0 :: cs ++ [c]) with ((c0 :: cs) ++ [c]).
    rewrite forallb_snoc.
    destruct (forallb is_failure (c0 :: cs)) eqn:Hall; simpl.
    + destruct (is_failure c); [|done]. rewrite length_app. simpl. lia.
    + done.
Qed.

Lemma failures_after_first_save_snoc (cs : list call) (c : call) :
  failures_after_first_save (cs ++ [c]) =
    if existsb is_save cs
    then (failures_after_first_save cs + if is_failure c then 1 else 0)%N
    else 0%N.
Proof.
  induction cs as [|c0 cs IH]; simpl.
  - by destruct c.
  - destruct c0 as [r|t w target error]; simpl; [apply count_snoc | apply IH].
Qed.

Lemma existsb_snoc (p : call → bool) (cs : list call) (c : call) :
  existsb p (cs ++ [c]) = existsb p cs || p c.
Proof. rewrite existsb_app. simpl. by rewrite orb_false_r. Qed.

(** Saves and failures addressed to one domain [d], from a state without a
    record for it. *)
Section history_of_one_domain.
Variable d : string.
Variable fs : files.
Hypothesis no_record : fs !! _flow_path d = None.

(** The counters after a history of calls for one domain that starts with
    no record: before the first save there is still no record, afterwards
    the record counts the saves, the failures since the first save and the
    failures since the last save. *)
Lemma run_counters (cs : list call) :
  Forall (served d) cs →
  ∃ fs',
    run cs fs = (fs', Ok ())
    ∧ if existsb is_save cs
      then ∃ flow,
        fs' !! _flow_path d = Some (Object flow)
        ∧ Flow.success_count flow = Some (count is_save cs)
        ∧ Flow.failure_count flow = Some (failures_after_first_save cs)
        ∧ Flow.consecutive_failures flow = Some (trailing_failures cs)
      else fs' !! _flow_path d = None.
Proof.
  intros Hall. induction cs as [|c cs IH] using rev_ind.
  - by exists fs.
  - apply Forall_app in Hall as [Hcs Hc]. rewrite Forall_singleton in Hc.
    destruct (IH Hcs) as (fs1 & Hrun & Hstate).
    rewrite (run_snoc _ _ _ _ Hrun), existsb_snoc, count_snoc,
      trailing_failures_snoc, failures_after_first_save_snoc.
    destruct c as [r|t w target error]; simpl in Hc; destruct Hc as [Hd Hw];
      simpl; rewrite Hw.
    + rewrite orb_true_r.
      destruct (existsb is_save cs) eqn:Hsaved.
      * destruct Hstate as (flow & Hfile & Hs & Hf & Hcf).
        rewrite (save_flow_written _ _ d _ _ _ _ _ _ _ flow Hd);
          [|by rewrite Hfile].
        eexists. split; [reflexivity|]. eexists.
        rewrite lookup_insert_eq. split; [reflexivity|]. simpl.
        rewrite Hs, Hf. simpl. by rewrite N.add_0_r.
      * rewrite (save_flow_written _ _ d _ _ _ _ _ _ _ Flow.empty Hd);
          [|by rewrite Hstate].
        eexists. split; [reflexivity|]. eexists.
        rewrite lookup_insert_eq. split; [reflexivity|]. simpl.
        by rewrite (count_none _ _ Hsaved).
    + rewrite orb_false_r.
      destruct (existsb is_save cs).
      * destruct Hstate as (flow & Hfile & Hs & Hf & Hcf).
        rewrite (record_failure_written _ _ d _ _ flow Hd Hfile).
        eexists. split; [reflexivity|]. eexists.
        rewrite lookup_insert_eq. split; [reflexivity|]. simpl.
        rewrite Hs, Hf, Hcf. simpl. by rewrite N.add_0_r.
      * rewrite (record_failure_absent _ _ _ d _ _ Hd Hstate). eauto.
Qed.

(** C4, as amended. After a history of saves and recorded failures for
    one domain that starts without a record and holds at least one save,
    [success_count] is the number of saves, [failure_count] is the number
    of failures recorded after the first save, and [consecutive_failures]
    is the length of the run of failures that ends the history. *)
Theorem counters_after_history (cs : list call) :
  Forall (served d) cs →
  existsb is_save cs = true →
  ∃ fs' flow,
    run cs fs = (fs', Ok ())
    ∧ fs' !! _flow_path d = Some (Object flow)
    ∧ Flow.success_count flow = Some (count is_save cs)
    ∧ Flow.failure_count flow = Some (failures_after_first_save cs)
    ∧ Flow.consecutive_failures flow = Some (trailing_failures cs).
Proof.
  intros Hall Hsaved.
  destruct (run_counters cs Hall) as (fs' & Hrun & Hstate).
  rewrite Hsaved in Hstate. destruct Hstate as (flow & Hflow).
  by exists fs', flow.
Qed.

End history_of_one_domain.

Lemma counters_after_history_witness :
  ∃ fs' flow,
    run [failed_visit; Save first_visit; failed_visit; failed_visit] ∅ = (fs', Ok ())
    ∧ fs' !! _flow_path "shop.example" = Some (Object flow)
    ∧ Flow.success_count flow = Some 1%N
    ∧ Flow.failure_count flow = Some 2%N
    ∧ Flow.consecutive_failures flow = Some 2%N.
Proof.
  apply (counters_after_history "shop.example" ∅).
  - reflexivity.
  - repeat constructor.
  - reflexivity.
Defined.

(** In a history that starts with a save every failure is counted. *)
Lemma failures_after_first_save_head (r : save_request) (cs : list call) :
  failures_after_first_save (Save r :: cs) = count is_failure (Save r :: cs).
Proof. reflexivity. Qed.

(** A failure recorded before the first save is not counted. *)
Lemma failure_before_first_save_is_lost :
  ∃ fs' flow,
    run [failed_visit; Save first_visit] ∅ = (fs', Ok ())
    ∧ fs' !! _flow_path "shop.example" = Some (Object flow)
    ∧ count is_failure [failed_visit; Save first_visit] = 1%N
    ∧ Flow.failure_count flow = Some 0%N
    ∧ Flow.failure_count flow
      ≠ Some (count is_failure [failed_visit; Save first_visit]).
Proof.
  destruct (run_counters "shop.example" ∅ (lookup_empty _)
              [failed_visit; Save first_visit])
    as (fs' & Hrun & flow & Hfile & _ & Hf & _); [repeat constructor|].
  exists fs', flow. rewrite Hf. repeat split; try done.
Qed.

Lemma str_take_length (n : nat) (s : string) : String.length (str_take n s) ≤ n.
Proof.
  revert s. induction n as [|n IH]; intros [|a s]; simpl; try lia.
  specialize (IH s). lia.
Qed.

(** C7, as amended. Without a record [record_failure] changes nothing.
    With a record it adds one to [failure_count] and to
    [consecutive_failures] and stamps [last_failure]; a non-empty error is
    stored as [last_error] cut to 200 characters, and with an empty error
    or none [last_error] keeps its value. *)
Theorem record_failure_effect :
  (∀ now w x d error (fs : files),
      domain_of x = Ok d →
      fs !! _flow_path d = None →
      record_failure now w x error fs = (fs, Ok ()))
  ∧ (∀ now x d error (fs : files) flow,
      domain_of x = Ok d →
      fs !! _flow_path d = Some (Object flow) →
      ∃ flow',
        record_failure now Written x error fs
          = (<[_flow_path d := Object flow']> fs, Ok ())
        ∧ Flow.failure_count flow'
          = Some (default 0 (Flow.failure_count flow) + 1)%N
        ∧ Flow.consecutive_failures flow'
          = Some (default 0 (Flow.consecutive_failures flow) + 1)%N
        ∧ Flow.last_failure flow' = Some now
        ∧ match error with
          | Some e =>
              if str_truthy e
              then Flow.last_error flow' = Some (str_take 200 e)
                   ∧ String.length (str_take 200 e) ≤ 200
              else Flow.last_error flow' = Flow.last_error flow
          | None => Flow.last_error flow' = Flow.last_error flow
          end).
Proof.
  split.
  - intros. by apply (record_failure_absent _ _ _ d).
  - intros now x d error fs flow Hd Hfile.
    eexists. split; [by apply record_failure_written|].
    cbn [Flow.failure_count Flow.consecutive_failures Flow.last_failure
         Flow.last_error].
    repeat split.
    destruct error as [e|]; cbn [opt_truthy fmap option_fmap option_map];
      [|done].
    destruct (str_truthy e); [|done]. split; [done | apply str_take_length].
Qed.

Lemma record_failure_effect_witness :
  record_failure "2026-02-19T10:00:00+00:00" Written
      "https://www.shop.example/products/sneakers" (Some "timeout") ∅
    = (∅, Ok ())
  ∧ ∃ flow',
      record_failure "2026-02-19T10:00:00+00:00" Written
          "https://www.shop.example/products/sneakers" (Some "timeout")
          {[ _flow_path "shop.example" := Object stale_error ]}
        = (<[_flow_path "shop.example" := Object flow']>
             {[ _flow_path "shop.example" := Object stale_error ]}, Ok ())
      ∧ Flow.failure_count flow' = Some 2%N
      ∧ Flow.consecutive_failures flow' = Some 2%N
      ∧ Flow.last_failure flow' = Some "2026-02-19T10:00:00+00:00"
      ∧ Flow.last_error flow' = Some "timeout"
      ∧ String.length "timeout" ≤ 200.
Proof.
  split.
  - apply (proj1 record_failure_effect _ _ _ "shop.example");
      reflexivity.
  - destruct (proj2 record_failure_effect "2026-02-19T10:00:00+00:00"
                "https://www.shop.example/products/sneakers" "shop.example"
                (Some "timeout")
                {[ _flow_path "shop.example" := Object stale_error ]}
                stale_error)
      as (flow' & H1 & H2 & H3 & H4 & H5 & H6);
      [reflexivity | reflexivity |].
    exists flow'. repeat split; assumption.
Defined.

(** An empty error message is not stored: the previous [last_error]
    stays. *)
Lemma empty_error_keeps_last_error :
  ∃ flow',
    record_failure "2026-02-19T10:00:00+00:00" Written "shop.example" (Some "")
        {[ _flow_path "shop.example" := Object stale_error ]}
      = (<[_flow_path "shop.example" := Object flow']>
           {[ _flow_path "shop.example" := Object stale_error ]}, Ok ())
    ∧ Flow.last_error flow' = Some "Agent did not complete checkout"
    ∧ Flow.last_error flow' ≠ Some (str_take 200 "").
Proof.
  eexists. split; [by apply (record_failure_written _ _ "shop.example")|].
  simpl. split; [reflexivity | discriminate].
Qed.

Lemma save_flow_ok_inv now w x form pay nav pat plat url (fs fs' : files) :
  save_flow now w x form pay nav pat plat url fs = (fs', Ok ()) →
  ∃ d existing,
    domain_of x = Ok d ∧ existing_record (fs !! _flow_path d) = Some existing.
Proof.
  intros Hsave. destruct (domain_of x) as [d|e] eqn:Hd.
  - exists d. destruct (existing_record (fs !! _flow_path d)) as [existing|] eqn:He;
      [by exists existing|].
    destruct (save_flow_raises now w x d form pay nav pat plat url fs Hd He)
      as [e Hraise].
    congruence.
  - unfold save_flow in Hsave. unfold lift, mbind, io_bind in Hsave.
    rewrite Hd in Hsave. discriminate.
Qed.

(** C10. A save whose write succeeds leaves a record without
    [last_failure] and [last_error], so the recency check of the health
    monitor is false for it, and so is [needs_relearn]. *)
Theorem save_flow_clears_failure now x form pay nav pat plat url
    (fs fs' : files) :
  save_flow now Written x form pay nav pat plat url fs = (fs', Ok ()) →
  ∃ d flow,
    domain_of x = Ok d
    ∧ fs' !! _flow_path d = Some (Object flow)
    ∧ Flow.last_failure flow = None
    ∧ Flow.last_error flow = None
    ∧ Flow.consecutive_failures flow = Some 0%N
    ∧ failed_after_last_success flow = false
    ∧ Health.needs_relearn (check_flow_health flow) = false.
Proof.
  intros Hsave.
  destruct (save_flow_ok_inv _ _ _ _ _ _ _ _ _ _ _ Hsave)
    as (d & existing & Hd & He).
  rewrite (save_flow_written _ _ d _ _ _ _ _ _ _ existing Hd He) in Hsave.
  injection Hsave as <-. exists d. eexists.
  split; [done|]. split; [apply lookup_insert_eq|].
  rewrite needs_relearn_unfold. done.
Qed.

Lemma save_flow_clears_failure_witness :
  let fs : files := {[ _flow_path "shop.example" := Object stale_error ]} in
  ∃ d flow,
    domain_of "https://www.shop.example/products/sneakers" = Ok d
    ∧ (retry_visit fs).1 !! _flow_path d = Some (Object flow)
    ∧ Flow.last_failure flow = None
    ∧ Flow.last_error flow = None
    ∧ Flow.consecutive_failures flow = Some 0%N
    ∧ failed_after_last_success flow = false
    ∧ Health.needs_relearn (check_flow_health flow) = false.
Proof.
  intros fs.
  apply (save_flow_clears_failure "2026-02-19T10:00:00+00:00"
           "https://www.shop.example/products/sneakers"
           {[ "email" := "#email" ]} None None None None None
           fs (retry_visit fs).1).
  reflexivity.
Defined.

(** ** The domain key *)

Lemma urlsplit_netloc_url (scheme netloc tail : string) :
  is_scheme scheme = true →
  str_forall is_netloc_char netloc = true →
  is_url_tail tail = true →
  urlsplit_netloc (scheme +:+ "://" +:+ netloc +:+ tail) = Ok netloc.
Proof.
  intros Hscheme Hnetloc Htail. unfold urlsplit_netloc.
  assert (lstrip_c0 (scheme +:+ "://" +:+ netloc +:+ tail)
          = scheme +:+ "://" +:+ netloc +:+ tail) as ->.
  { destruct scheme as [|a scheme]; [done|]. rewrite app_cons. simpl.
    apply andb_true_iff in Hscheme as [Ha _].
    by rewrite (alpha_not_stripped a Ha). }
  fold (remove_unsafe (scheme +:+ "://" +:+ netloc +:+ tail)).
  rewrite !remove_unsafe_app.
  assert (str_forall is_scheme_char scheme = true) as Hchars.
  { destruct scheme as [|a scheme]; [done|].
    apply andb_true_iff in Hscheme as [_ Hall].
    by rewrite <- all_scheme_chars_forall. }
  rewrite (remove_unsafe_id is_scheme_char scheme) by done.
  rewrite (remove_unsafe_id is_netloc_char netloc) by done.
  change (remove_unsafe "://") with "://".
  change ("://" +:+ ?u) with (String ":" ("//" +:+ u)).
  rewrite (drop_scheme_app _ _ Hscheme), prefix_app.
  change 2 with (String.length "//"). rewrite str_drop_app.
  rewrite (up_to_delimiter_app _ _ Hnetloc (remove_unsafe_tail _ Htail)).
  by rewrite !(str_forall_has is_netloc_char _ netloc Hnetloc).
Qed.

Lemma netloc_of_chars (userinfo : option string) (host : string)
    (port : option string) :
  is_userinfo userinfo = true →
  is_plain_host host = true →
  is_port port = true →
  str_forall is_netloc_char (netloc_of userinfo host port) = true.
Proof.
  intros Hu [_ Hhost]%andb_true_iff Hp. unfold netloc_of.
  rewrite !str_forall_app. repeat (apply andb_true_iff; split).
  - destruct userinfo as [u|]; [|done]. simpl in Hu.
    by rewrite str_forall_app, Hu.
  - apply (str_forall_impl is_host_char); [|done].
    by intros [[] [] [] [] [] [] [] []].
  - destruct port as [p|]; [|done]. simpl in Hp. simpl.
    apply (str_forall_impl _ is_netloc_char) in Hp; [done|].
    by intros c [? _]%andb_true_iff.
Qed.

(** The host of [userinfo@host:port] is what stands between the last [@]
    and the first [:] after it. *)
Lemma _hostinfo_hostname_netloc_of (userinfo : option string) (host : string)
    (port : option string) :
  is_plain_host host = true →
  is_port port = true →
  _hostinfo_hostname (netloc_of userinfo host port) = host.
Proof.
  intros [_ Hhost]%andb_true_iff Hp. unfold _hostinfo_hostname, netloc_of.
  set (hostinfo := host +:+ match port with Some p => String ":" p | None => "" end).
  assert (∀ c, is_host_char c = false →
               is_netloc_char c && negb (Ascii.eqb c "@") = false →
               c ≠ ":"%char →
               str_has c hostinfo = false) as Hnot.
  { intros c Hc Hc' Hcolon. unfold hostinfo. rewrite str_has_app.
    rewrite (str_forall_has _ _ _ Hhost Hc). destruct port as [p|]; [|done].
    simpl in Hp. cbn [str_has orb].
    rewrite (str_forall_has _ _ _ Hp Hc'), orb_false_r.
    apply Ascii.eqb_neq. congruence. }
  assert (after_last "@"
            (match userinfo with Some u => u +:+ "@" | None => "" end
             +:+ hostinfo) = hostinfo) as ->.
  { destruct userinfo as [u|].
    - rewrite str_app_assoc. change ("@" +:+ ?t) with (String "@" t).
      apply after_last_app. by apply Hnot.
    - change ("" +:+ ?t) with t. apply after_last_absent. by apply Hnot. }
  rewrite (Hnot "["%char) by done. unfold hostinfo.
  destruct port as [p|].
  - apply before_first_app. by apply (str_forall_has is_host_char).
  - rewrite app_empty. apply before_first_absent.
    by apply (str_forall_has is_host_char).
Qed.

Lemma urlparse_hostname_url (scheme : string) (userinfo : option string)
    (host : string) (port : option string) (tail : string) :
  is_scheme scheme = true →
  is_userinfo userinfo = true →
  is_plain_host host = true →
  is_port port = true →
  is_url_tail tail = true →
  urlparse_hostname (url_of scheme userinfo host port tail)
  = Ok (Some (str_lower host)).
Proof.
  intros Hscheme Hu Hplain Hp Htail. unfold urlparse_hostname, url_of.
  rewrite (urlsplit_netloc_url _ _ _ Hscheme
             (netloc_of_chars _ _ _ Hu Hplain Hp) Htail).
  cbn [mbind result_bind].
  rewrite (_hostinfo_hostname_netloc_of _ _ _ Hplain Hp).
  apply andb_true_iff in Hplain as [Hne Hhost].
  rewrite !before_first_absent, from_first_absent, Hne, app_empty;
    try done; by apply (str_forall_has is_host_char).
Qed.

Lemma domain_of_bare (x : string) :
  str_contains "/" x = false → domain_of x = Ok x.
Proof. intros H. unfold domain_of. by rewrite H. Qed.

Lemma str_contains_app_r (sub a b : string) :
  str_contains sub b = true → str_contains sub (a +:+ b) = true.
Proof.
  intros Hb. induction a as [|x a IH]; [done|].
  rewrite app_cons. cbn [str_contains]. rewrite IH. apply orb_true_r.
Qed.

Lemma domain_of_url (scheme : string) (userinfo : option string)
    (host : string) (port : option string) (tail : string) :
  is_scheme scheme = true →
  is_userinfo userinfo = true →
  is_plain_host host = true →
  is_port port = true →
  is_url_tail tail = true →
  domain_of (url_of scheme userinfo host port tail)
  = Ok (without_www (str_lower host)).
Proof.
  intros Hscheme Hu Hplain Hp Htail. unfold domain_of.
  assert (str_contains "/" (url_of scheme userinfo host port tail) = true)
    as ->.
  { unfold url_of. by apply (str_contains_app_r "/" scheme). }
  unfold _domain_from_url.
  by rewrite (urlparse_hostname_url _ _ _ _ _ Hscheme Hu Hplain Hp Htail).
Qed.

(** The path of a record determines the key up to the replacement of [/]
    and [:] by [_]. *)
Lemma _flow_path_inv (d1 d2 : string) :
  _flow_path d1 = _flow_path d2 →
  str_replace ":" "_" (str_replace "/" "_" d1)
  = str_replace ":" "_" (str_replace "/" "_" d2).
Proof.
  unfold _flow_path. cbv zeta. intros H.
  apply str_app_inv_head, str_app_inv_head in H.
  by apply str_app_inv_tail in H.
Qed.

(** Keys without [/] and [:] have a file each. *)
Lemma _flow_path_plain_inj (d1 d2 : string) :
  str_has "/" d1 = false → str_has ":" d1 = false →
  str_has "/" d2 = false → str_has ":" d2 = false →
  _flow_path d1 = _flow_path d2 → d1 = d2.
Proof.
  intros Hs1 Hc1 Hs2 Hc2 Hp. apply _flow_path_inv in Hp.
  by rewrite (str_replace_absent "/" _ d1), (str_replace_absent "/" _ d2),
    !str_replace_absent in Hp.
Qed.

(** C8, as amended. For a URL [scheme://userinfo@host:port], with or
    without user information and port, followed by nothing or by a path, a
    query or a fragment, the domain key is the lower-cased host without one
    leading [www.]. An input without [/] is the key as it stands, neither
    lower-cased nor stripped. A save persists the key as [domain] in the
    file of the key; afterwards every input whose key has that file finds
    the record, and an input whose key has another file reads what it read
    before. Two keys have the same file exactly when they are equal once
    [/] and [:] are replaced by [_]; keys without [/] and [:] that differ
    have different files. *)
Theorem domain_key_normalization :
  (∀ scheme userinfo host port tail,
      is_scheme scheme = true →
      is_userinfo userinfo = true →
      is_plain_host host = true →
      is_port port = true →
      is_url_tail tail = true →
      domain_of (url_of scheme userinfo host port tail)
      = Ok (without_www (str_lower host)))
  ∧ (∀ x, str_contains "/" x = false → domain_of x = Ok x)
  ∧ (∀ now x d form pay nav pat plat url (fs fs' : files),
      domain_of x = Ok d →
      save_flow now Written x form pay nav pat plat url fs = (fs', Ok ()) →
      ∃ flow,
        fs' !! _flow_path d = Some (Object flow)
        ∧ Flow.domain flow = Some d
        ∧ (∀ y d', domain_of y = Ok d' → _flow_path d' = _flow_path d →
                   load_flow y fs' = (fs', Ok (Some flow)))
        ∧ (∀ y d', domain_of y = Ok d' → _flow_path d' ≠ _flow_path d →
                   load_flow y fs' = (fs', (load_flow y fs).2)))
  ∧ (∀ d d',
      _flow_path d = _flow_path d'
      ↔ str_replace ":" "_" (str_replace "/" "_" d)
        = str_replace ":" "_" (str_replace "/" "_" d'))
  ∧ (∀ d d',
      str_contains "/" d = false → str_contains ":" d = false →
      str_contains "/" d' = false → str_contains ":" d' = false →
      d ≠ d' → _flow_path d ≠ _flow_path d').
Proof.
  split; [exact domain_of_url|]. split; [exact domain_of_bare|].
  split; [|split].
  - intros now x d form pay nav pat plat url fs fs' Hd Hsave.
    destruct (save_flow_ok_inv _ _ _ _ _ _ _ _ _ _ _ Hsave)
      as (d' & existing & Hd' & He).
    assert (d' = d) as -> by congruence.
    rewrite (save_flow_written _ _ d _ _ _ _ _ _ _ existing Hd He) in Hsave.
    injection Hsave as <-. eexists.
    split; [apply lookup_insert_eq|]. split; [done|]. split.
    + intros y d' Hy Hp. rewrite (load_flow_unfold y d' _ Hy), Hp.
      by rewrite lookup_insert_eq.
    + intros y d' Hy Hp.
      rewrite (load_flow_unfold y d' _ Hy), (load_flow_unfold y d' fs Hy).
      by rewrite lookup_insert_ne.
  - intros d d'. split; [apply _flow_path_inv|].
    unfold _flow_path. cbv zeta. by intros ->.
  - intros d d'. rewrite !str_contains_char. intros Hs Hc Hs' Hc' Hne Hp.
    by apply Hne, _flow_path_plain_inj.
Qed.

Lemma domain_key_normalization_witness :
  domain_of (url_of "HTTPS" (Some "ada:secret") "WWW.Shop.Example"
               (Some "8443") "/products/sneakers?ref=1")
  = Ok "shop.example"
  ∧ domain_of "shop.example" = Ok "shop.example"
  ∧ (∃ flow,
      (retry_visit ∅).1 !! _flow_path "shop.example" = Some (Object flow)
      ∧ Flow.domain flow = Some "shop.example"
      ∧ (∀ y d', domain_of y = Ok d' →
                 _flow_path d' = _flow_path "shop.example" →
                 load_flow y (retry_visit ∅).1
                 = ((retry_visit ∅).1, Ok (Some flow)))
      ∧ (∀ y d', domain_of y = Ok d' →
                 _flow_path d' ≠ _flow_path "shop.example" →
                 load_flow y (retry_visit ∅).1
                 = ((retry_visit ∅).1, (load_flow y ∅).2)))
  ∧ _flow_path "my:shop.example" = _flow_path "my_shop.example"
  ∧ _flow_path "WWW.Shop.Example" ≠ _flow_path "shop.example".
Proof.
  split; [|split; [|split; [|split]]].
  - apply (proj1 domain_key_normalization "HTTPS" (Some "ada:secret")
             "WWW.Shop.Example" (Some "8443") "/products/sneakers?ref=1");
      reflexivity.
  - apply (proj1 (proj2 domain_key_normalization)). reflexivity.
  - apply (proj1 (proj2 (proj2 domain_key_normalization))
             "2026-02-19T10:00:00+00:00"
             "https://www.shop.example/products/sneakers" "shop.example"
             {[ "email" := "#email" ]} None None None None None
             ∅ (retry_visit ∅).1); reflexivity.
  - apply (proj1 (proj2 (proj2 (proj2 domain_key_normalization)))
             "my:shop.example" "my_shop.example"). reflexivity.
  - apply (proj2 (proj2 (proj2 (proj2 domain_key_normalization)))
             "WWW.Shop.Example" "shop.example");
      first [reflexivity | discriminate].
Defined.

(** A bare domain in upper case with [www.] is its own key and does not
    find the record saved through the URL of the same site. *)
Lemma bare_domain_is_not_normalized :
  domain_of "https://www.shop.example/products/sneakers" = Ok "shop.example"
  ∧ domain_of "WWW.Shop.Example" = Ok "WWW.Shop.Example"
  ∧ _flow_path "WWW.Shop.Example" ≠ _flow_path "shop.example"
  ∧ load_flow "WWW.Shop.Example"
      {[ _flow_path "shop.example" := Object one_in_five ]}
    = ({[ _flow_path "shop.example" := Object one_in_five ]}, Ok None)
  ∧ load_flow "https://www.shop.example/products/sneakers"
      {[ _flow_path "shop.example" := Object one_in_five ]}
    = ({[ _flow_path "shop.example" := Object one_in_five ]},
       Ok (Some one_in_five)).
Proof.
  split; [reflexivity|]. split; [reflexivity|]. split; [discriminate|].
  split.
  2:{ rewrite (load_flow_unfold _ "shop.example") by reflexivity.
      by rewrite lookup_singleton_eq. }
  rewrite (load_flow_unfold _ "WWW.Shop.Example") by reflexivity.
  by rewrite lookup_singleton_ne.
Qed.
(** * Further properties *)

(** ** Deleting, and what the store leaves alone *)

Lemma delete_flow_unfold (removed : bool) (x d : string) (fs : files) :
  domain_of x = Ok d →
  delete_flow removed x fs =
    match fs !! _flow_path d with
    | None => (fs, Ok false)
    | Some _ =>
        if removed then (delete (_flow_path d) fs, Ok true)
        else (fs, Raise IOError)
    end.
Proof.
  intros Hd. unfold delete_flow, os_remove. io_unfold. rewrite Hd.
  cbv beta iota zeta.
  destruct (fs !! _flow_path d) eqn:Hp; simpl; [|done]. by destruct removed.
Qed.

(** X1. After a save whose write succeeded, deleting the flow through any
    input with the same key answers [True] and removes the record:
    [load_flow] then answers [None], and deleting again answers [False]
    and changes nothing. *)
Theorem delete_after_save now x y d form pay nav pat plat url
    (fs fs1 : files) :
  domain_of x = Ok d →
  domain_of y = Ok d →
  save_flow now Written x form pay nav pat plat url fs = (fs1, Ok ()) →
  ∃ fs2,
    delete_flow true y fs1 = (fs2, Ok true)
    ∧ fs2 !! _flow_path d = None
    ∧ load_flow y fs2 = (fs2, Ok None)
    ∧ ∀ removed, delete_flow removed y fs2 = (fs2, Ok false).
Proof.
  intros Hx Hy Hsave.
  destruct (save_flow_ok_inv _ _ _ _ _ _ _ _ _ _ _ Hsave)
    as (d' & existing & Hd' & He).
  assert (d' = d) as -> by congruence.
  rewrite (save_flow_written _ _ d _ _ _ _ _ _ _ existing Hx He) in Hsave.
  injection Hsave as <-.
  eexists. rewrite (delete_flow_unfold _ _ _ _ Hy), lookup_insert_eq.
  split; [reflexivity|]. split; [apply lookup_delete_eq|].
  split.
  - rewrite (load_flow_unfold _ _ _ Hy). by rewrite lookup_delete_eq.
  - intros removed. rewrite (delete_flow_unfold _ _ _ _ Hy).
    by rewrite lookup_delete_eq.
Qed.

Lemma delete_after_save_witness :
  ∃ fs2,
    delete_flow true "shop.example" (retry_visit ∅).1 = (fs2, Ok true)
    ∧ fs2 !! _flow_path "shop.example" = None
    ∧ load_flow "shop.example" fs2 = (fs2, Ok None)
    ∧ ∀ removed, delete_flow removed "shop.example" fs2 = (fs2, Ok false).
Proof.
  apply (delete_after_save "2026-02-19T10:00:00+00:00"
           "https://www.shop.example/products/sneakers" "shop.example"
           "shop.example" {[ "email" := "#email" ]} None None None None None
           ∅ (retry_visit ∅).1); reflexivity.
Defined.

Lemma save_flow_frame now w x d form pay nav pat plat url (fs : files)
    (p : string) :
  domain_of x = Ok d → p ≠ _flow_path d →
  (save_flow now w x form pay nav pat plat url fs).1 !! p = fs !! p.
Proof.
  intros Hd Hp. unfold save_flow. io_unfold. rewrite Hd. cbv beta iota zeta.
  destruct (fs !! _flow_path d) as [[| | |k|flow]|] eqn:Hf;
    simpl; rewrite ?Hf; simpl; destruct w; simpl;
    by rewrite ?lookup_insert_ne.
Qed.

Lemma record_failure_frame now w x d error (fs : files) (p : string) :
  domain_of x = Ok d → p ≠ _flow_path d →
  (record_failure now w x error fs).1 !! p = fs !! p.
Proof.
  intros Hd Hp. unfold record_failure. io_unfold. rewrite Hd.
  cbv beta iota zeta.
  destruct (fs !! _flow_path d) as [[| | |k|flow]|] eqn:Hf;
    simpl; rewrite ?Hf; simpl; destruct w; simpl;
    by rewrite ?lookup_insert_ne.
Qed.

Lemma bad_target_frame (o : store_op) (e : exn) (fs : files) :
  domain_of (op_target o) = Raise e → run_op o fs = fs.
Proof.
  intros Hd. destruct o as [[r|now w target error]|removed target];
    simpl in *.
  - unfold save_flow. io_unfold. by rewrite Hd.
  - unfold record_failure. io_unfold. by rewrite Hd.
  - unfold delete_flow. io_unfold. by rewrite Hd.
Qed.

(** X2. Whatever its arguments, the outcome of its write and its result,
    an operation of the store ([save_flow], [record_failure],
    [delete_flow]) changes no file but the one of the domain it is
    addressed to; with a target that has no domain key it changes
    nothing. *)
Theorem store_op_frame (o : store_op) (fs : files) (p : string) :
  (∀ d, domain_of (op_target o) = Ok d → p ≠ _flow_path d) →
  run_op o fs !! p = fs !! p.
Proof.
  intros Hp. destruct (domain_of (op_target o)) as [d|e] eqn:Hd.
  - specialize (Hp d eq_refl).
    destruct o as [[r|now w target error]|removed target]; simpl in *.
    + by apply (save_flow_frame _ _ _ d).
    + by apply (record_failure_frame _ _ _ d).
    + rewrite (delete_flow_unfold _ _ _ _ Hd).
      destruct (fs !! _flow_path d); [|done].
      destruct removed; simpl; [by rewrite lookup_delete_ne | done].
  - by rewrite (bad_target_frame o e fs Hd).
Qed.

Lemma store_op_frame_witness :
  run_op (OpCall (Save first_visit))
    {[ _flow_path "other.example" := Object one_in_five ]}
    !! _flow_path "other.example"
  = ({[ _flow_path "other.example" := Object one_in_five ]} : files)
    !! _flow_path "other.example".
Proof.
  apply store_op_frame. intros d Hd.
  assert (d = "shop.example") as -> by (vm_compute in Hd; congruence).
  discriminate.
Defined.
(** ** Failed writes *)

(** X3. A save whose write fails never raises. When [open] fails the
    directory is unchanged. When the write stops after [open] truncated
    the file, the previous record is lost: [load_flow] answers [None], and
    the next successful save starts again from an empty record, with a
    success count of 1, no failure and only the selectors it is given. *)
Theorem failed_write_of_save now x d form pay nav pat plat url
    (fs : files) (existing : Flow.t) :
  domain_of x = Ok d →
  existing_record (fs !! _flow_path d) = Some existing →
  save_flow now OpenFailed x form pay nav pat plat url fs = (fs, Ok ())
  ∧ ∃ fs1,
      save_flow now Interrupted x form pay nav pat plat url fs = (fs1, Ok ())
      ∧ load_flow x fs1 = (fs1, Ok None)
      ∧ ∀ now' form' pay' nav' pat' plat' url', ∃ fs2 flow,
          save_flow now' Written x form' pay' nav' pat' plat' url' fs1
            = (fs2, Ok ())
          ∧ fs2 !! _flow_path d = Some (Object flow)
          ∧ Flow.success_count flow = Some 1%N
          ∧ Flow.failure_count flow = Some 0%N
          ∧ Flow.form_selectors flow = Some form'
          ∧ Flow.navigation_steps flow = Some (default [] nav').
Proof.
  intros Hd He. split.
  - unfold save_flow. io_unfold. rewrite Hd. cbv beta iota zeta.
    destruct (fs !! _flow_path d) as [[| | |k|flow]|] eqn:Hf;
      simpl in He; simplify_eq; simpl; rewrite ?Hf; done.
  - exists (<[_flow_path d := NotJson]> fs). split; [|split].
    + unfold save_flow. io_unfold. rewrite Hd. cbv beta iota zeta.
      destruct (fs !! _flow_path d) as [[| | |k|flow]|] eqn:Hf;
        simpl in He; simplify_eq; simpl; rewrite ?Hf; done.
    + rewrite (load_flow_unfold _ _ _ Hd). by rewrite lookup_insert_eq.
    + intros now' form' pay' nav' pat' plat' url'.
      eexists _, _. split.
      { apply (save_flow_written _ _ d _ _ _ _ _ _ _ Flow.empty Hd).
        by rewrite lookup_insert_eq. }
      rewrite lookup_insert_eq. split; [reflexivity|]. simpl.
      by rewrite (right_id ∅ _).
Qed.

Lemma failed_write_of_save_witness :
  let fs : files := {[ _flow_path "shop.example" := Object stale_error ]} in
  save_flow "2026-02-19T10:00:00+00:00" OpenFailed "shop.example"
    ∅ None None None None None fs = (fs, Ok ())
  ∧ ∃ fs1,
      save_flow "2026-02-19T10:00:00+00:00" Interrupted "shop.example"
        ∅ None None None None None fs = (fs1, Ok ())
      ∧ load_flow "shop.example" fs1 = (fs1, Ok None)
      ∧ ∀ now' form' pay' nav' pat' plat' url', ∃ fs2 flow,
          save_flow now' Written "shop.example" form' pay' nav' pat' plat'
            url' fs1 = (fs2, Ok ())
          ∧ fs2 !! _flow_path "shop.example" = Some (Object flow)
          ∧ Flow.success_count flow = Some 1%N
          ∧ Flow.failure_count flow = Some 0%N
          ∧ Flow.form_selectors flow = Some form'
          ∧ Flow.navigation_steps flow = Some (default [] nav').
Proof.
  intros fs.
  apply (failed_write_of_save _ _ "shop.example" _ _ _ _ _ _ fs stale_error);
    reflexivity.
Defined.

(** ** The domain key, again *)

Lemma str_has_before_first (c c' : ascii) (s : string) :
  str_has c s = false → str_has c (before_first c' s) = false.
Proof.
  induction s as [|a s IH]; [done|]. simpl.
  intros [Ha Hs]%orb_false_iff. destruct (Ascii.eqb a c'); [done|].
  simpl. by rewrite Ha, IH.
Qed.

Lemma str_has_before_first_self (c : ascii) (s : string) :
  str_has c (before_first c s) = false.
Proof.
  induction s as [|a s IH]; [done|]. simpl.
  destruct (Ascii.eqb a c) eqn:Ha; [done|]. simpl. by rewrite Ha, IH.
Qed.

Lemma str_has_from_first (c c' : ascii) (s : string) :
  str_has c s = false → str_has c (from_first c' s) = false.
Proof.
  induction s as [|a s IH]; [done|]. intros Hs. simpl.
  destruct (Ascii.eqb a c'); [exact Hs|].
  simpl in Hs. apply orb_false_iff in Hs as [_ Hs]. by apply IH.
Qed.

Lemma str_has_after_last (c c' : ascii) (s : string) :
  str_has c s = false → str_has c (after_last c' s) = false.
Proof.
  induction s as [|a s IH]; [done|]. intros Hs. simpl.
  pose proof Hs as Hs'. simpl in Hs'. apply orb_false_iff in Hs' as [_ Hs'].
  destruct (str_has c' s); [by apply IH|].
  by destruct (Ascii.eqb a c').
Qed.

Lemma str_has_drop (c : ascii) (n : nat) (s : string) :
  str_has c s = false → str_has c (str_drop n s) = false.
Proof.
  revert s. induction n as [|n IH]; intros [|a s]; simpl; try done.
  intros [_ Hs]%orb_false_iff. by apply IH.
Qed.

Lemma str_has_up_to_delimiter (c : ascii) (s : string) :
  is_delimiter c = true → str_has c (up_to_delimiter s) = false.
Proof.
  intros Hc. induction s as [|a s IH]; [done|]. simpl.
  destruct (is_delimiter a) eqn:Ha; [done|]. simpl. rewrite IH, orb_false_r.
  apply Ascii.eqb_neq. intros ->. congruence.
Qed.

Lemma chr_lower_slash (a : ascii) : chr_lower a = "/"%char → a = "/"%char.
Proof.
  destruct a as [[] [] [] [] [] [] [] []]; vm_compute; intros H;
    first [discriminate H | reflexivity].
Qed.

Lemma chr_lower_colon (a : ascii) : chr_lower a = ":"%char → a = ":"%char.
Proof.
  destruct a as [[] [] [] [] [] [] [] []]; vm_compute; intros H;
    first [discriminate H | reflexivity].
Qed.

Lemma str_has_lower (c : ascii) (s : string) :
  (∀ a, chr_lower a = c → a = c) →
  str_has c s = false → str_has c (str_lower s) = false.
Proof.
  intros Hc. induction s as [|a s IH]; [done|]. simpl.
  intros [Ha Hs]%orb_false_iff. rewrite (IH Hs), orb_false_r.
  apply Ascii.eqb_neq. intros Hl. apply Hc in Hl.
  apply Ascii.eqb_neq in Ha. congruence.
Qed.

Lemma str_has_app_false (c : ascii) (s t : string) :
  str_has c s = false → str_has c t = false → str_has c (s +:+ t) = false.
Proof.
  intros Hs Ht. induction s as [|a s IH]; [done|].
  rewrite app_cons. simpl in *. apply orb_false_iff in Hs as [Ha Hs].
  by rewrite Ha, IH.
Qed.

Lemma str_has_after_first (c c' : ascii) (s : string) :
  str_has c s = false → str_has c (after_first c' s) = false.
Proof.
  induction s as [|a s IH]; [done|]. simpl.
  intros [Ha Hs]%orb_false_iff. destruct (Ascii.eqb a c'); auto.
Qed.

Lemma str_has_lstrip_c0 (c : ascii) (s : string) :
  str_has c s = false → str_has c (lstrip_c0 s) = false.
Proof.
  induction s as [|a s IH]; [done|]. intros Hs. simpl.
  destruct (is_c0_control_or_space a); [|exact Hs].
  simpl in Hs. apply orb_false_iff in Hs as [_ Hs]. by apply IH.
Qed.

Lemma str_has_remove (c c' : ascii) (s : string) :
  str_has c s = false → str_has c (str_remove c' s) = false.
Proof.
  induction s as [|a s IH]; [done|]. simpl.
  intros [Ha Hs]%orb_false_iff. destruct (Ascii.eqb a c'); [auto|].
  simpl. by rewrite Ha, IH.
Qed.

Lemma str_has_drop_scheme (c : ascii) (s : string) :
  str_has c s = false → str_has c (drop_scheme s) = false.
Proof.
  intros Hs. unfold drop_scheme. destruct s as [|a s]; [done|].
  destruct (_ && _); [|exact Hs]. by apply str_has_drop.
Qed.

Lemma str_has_up_to_delimiter_absent (c : ascii) (s : string) :
  str_has c s = false → str_has c (up_to_delimiter s) = false.
Proof.
  induction s as [|a s IH]; [done|]. simpl.
  intros [Ha Hs]%orb_false_iff. destruct (is_delimiter a); [done|].
  simpl. by rewrite Ha, IH.
Qed.

(** The net location holds no delimiter, and no character that the URL
    does not hold. *)
Lemma urlsplit_netloc_chars (url netloc : string) (c : ascii) :
  urlsplit_netloc url = Ok netloc →
  is_delimiter c = true ∨ str_has c url = false →
  str_has c netloc = false.
Proof.
  unfold urlsplit_netloc. cbv zeta. intros Hn Hc.
  set (rest := str_drop 2 _) in Hn.
  assert (str_has c (up_to_delimiter rest) = false) as Hup.
  { destruct Hc as [Hc|Hc]; [by apply str_has_up_to_delimiter|].
    apply str_has_up_to_delimiter_absent, str_has_drop, str_has_drop_scheme.
    unfold remove_unsafe. by do 3 apply str_has_remove; apply str_has_lstrip_c0. }
  destruct (String.prefix "//" _); [|by injection Hn as <-].
  destruct (_ || _); [done|].
  destruct (_ && _).
  - destruct (_check_bracketed_netloc _); [|done].
    cbn [mbind result_bind] in Hn. by injection Hn as <-.
  - by injection Hn as <-.
Qed.

(** The host is a part of the net location. *)
Lemma _hostinfo_hostname_chars (netloc : string) (c : ascii) :
  str_has c netloc = false → str_has c (_hostinfo_hostname netloc) = false.
Proof.
  intros Hc. unfold _hostinfo_hostname. cbv zeta.
  apply (str_has_after_last c "@") in Hc.
  destruct (str_has "[" _).
  - by apply str_has_before_first, str_has_after_first.
  - by apply str_has_before_first.
Qed.

(** The host of a net location without an opening bracket holds no [:]. *)
Lemma _hostinfo_hostname_no_colon (netloc : string) :
  str_has "[" netloc = false → str_has ":" (_hostinfo_hostname netloc) = false.
Proof.
  intros Hb. unfold _hostinfo_hostname. cbv zeta.
  rewrite (str_has_after_last "[" "@" _ Hb). apply str_has_before_first_self.
Qed.

(** The host name that [urlparse] returns holds no [/]; it holds no [:]
    either when the URL holds no [[]. *)
Lemma urlparse_hostname_clean (url h : string) :
  urlparse_hostname url = Ok (Some h) →
  str_has "/" h = false ∧ (str_has "[" url = false → str_has ":" h = false).
Proof.
  unfold urlparse_hostname.
  destruct (urlsplit_netloc url) as [netloc|e] eqn:Hn; [|done].
  cbn [mbind result_bind]. cbv zeta.
  destruct (str_truthy _); [|done]. intros [= <-].
  split; [|intros Hb]; apply str_has_app_false.
  - apply str_has_lower; [exact chr_lower_slash|].
    apply str_has_before_first, _hostinfo_hostname_chars.
    apply (urlsplit_netloc_chars url); [done|by left].
  - apply str_has_from_first, _hostinfo_hostname_chars.
    apply (urlsplit_netloc_chars url); [done|by left].
  - apply str_has_lower; [exact chr_lower_colon|].
    apply str_has_before_first, _hostinfo_hostname_no_colon.
    apply (urlsplit_netloc_chars url); [done|by right].
  - apply str_has_from_first, _hostinfo_hostname_no_colon.
    apply (urlsplit_netloc_chars url); [done|by right].
Qed.

Lemma _domain_from_url_clean (url d : string) :
  _domain_from_url url = Ok d →
  str_has "/" d = false ∧ (str_has "[" url = false → str_has ":" d = false).
Proof.
  unfold _domain_from_url.
  destruct (urlparse_hostname url) as [[h|]|e] eqn:Hh; cbn [mbind result_bind];
    [| |done].
  - apply urlparse_hostname_clean in Hh as [H1 H2]. cbn [default].
    intros [= <-]. destruct (String.prefix "www." h); [|done].
    split; [|intros Hb]; apply (str_has_drop _ 4 h); auto.
  - by intros [= <-].
Qed.

Lemma domain_of_idempotent (x d : string) :
  domain_of x = Ok d → domain_of d = Ok d.
Proof.
  unfold domain_of at 1.
  destruct (str_contains "/" x) eqn:Hx.
  - intros H. apply _domain_from_url_clean in H as [Hs _].
    apply domain_of_bare.
    by rewrite str_contains_char.
  - intros [= <-]. by apply domain_of_bare.
Qed.

(** X4. The key under which a record is stored is a fixed point of the
    normalisation: every operation of the store, called with the [domain]
    that a saved record carries, reads and writes the record of the address
    it was saved for. *)
Theorem stored_domain_addresses_record (x d : string) (fs : files) :
  domain_of x = Ok d →
  domain_of d = Ok d
  ∧ load_flow d fs = load_flow x fs
  ∧ (∀ removed, delete_flow removed d fs = delete_flow removed x fs)
  ∧ (∀ t w error, record_failure t w d error fs = record_failure t w x error fs)
  ∧ (∀ t w form pay nav pat plat url,
       save_flow t w d form pay nav pat plat url fs
       = save_flow t w x form pay nav pat plat url fs).
Proof.
  intros Hx. pose proof (domain_of_idempotent _ _ Hx) as Hd.
  split; [exact Hd|]. repeat split; intros.
  - by rewrite (load_flow_unfold _ _ _ Hx), (load_flow_unfold _ _ _ Hd).
  - unfold delete_flow. by rewrite Hx, Hd.
  - unfold record_failure. by rewrite Hx, Hd.
  - unfold save_flow. by rewrite Hx, Hd.
Qed.

Lemma stored_domain_addresses_record_witness :
  let x := "https://www.Shop.Example/products/sneakers" in
  let fs : files := {[ _flow_path "shop.example" := Object one_in_five ]} in
  domain_of "shop.example" = Ok "shop.example"
  ∧ load_flow "shop.example" fs = load_flow x fs
  ∧ (∀ removed,
       delete_flow removed "shop.example" fs = delete_flow removed x fs)
  ∧ (∀ t w error,
       record_failure t w "shop.example" error fs
       = record_failure t w x error fs)
  ∧ (∀ t w form pay nav pat plat url,
       save_flow t w "shop.example" form pay nav pat plat url fs
       = save_flow t w x form pay nav pat plat url fs).
Proof.
  intros x fs. apply (stored_domain_addresses_record x "shop.example" fs).
  reflexivity.
Defined.

(** ** Record files *)

(** X5. Two URLs without [[], that is without an IP literal in brackets,
    that have different domain keys are kept in different record files:
    their keys hold neither [/] nor [:], so the file name determines the
    key. The keys of any two URLs have the same file exactly when they are
    equal once [:] is replaced by [_]: the keys [::1] of
    [http://[::1]:8080/x] and [__1] of [http://__1/x] have the file
    [flows/__1.json]. *)
Theorem url_keys_have_own_files :
  (∀ x y d1 d2 : string,
      str_contains "/" x = true → str_contains "/" y = true →
      str_contains "[" x = false → str_contains "[" y = false →
      domain_of x = Ok d1 → domain_of y = Ok d2 →
      d1 ≠ d2 →
      _flow_path d1 ≠ _flow_path d2)
  ∧ (∀ x y d1 d2 : string,
      str_contains "/" x = true → str_contains "/" y = true →
      domain_of x = Ok d1 → domain_of y = Ok d2 →
      (_flow_path d1 = _flow_path d2
       ↔ str_replace ":" "_" d1 = str_replace ":" "_" d2))
  ∧ domain_of "http://[::1]:8080/x" = Ok "::1"
  ∧ domain_of "http://__1/x" = Ok "__1"
  ∧ _flow_path "::1" = "flows/__1.json"
  ∧ _flow_path "__1" = "flows/__1.json".
Proof.
  split; [|split; [|by repeat split]].
  - unfold domain_of. intros x y d1 d2 -> ->.
    rewrite !str_contains_char. intros Hx Hy H1 H2 Hne Hp. apply Hne.
    apply _domain_from_url_clean in H1 as [Hs1 Hc1].
    apply _domain_from_url_clean in H2 as [Hs2 Hc2].
    apply _flow_path_plain_inj; auto.
  - unfold domain_of. intros x y d1 d2 -> -> H1 H2.
    apply _domain_from_url_clean in H1 as [Hs1 _].
    apply _domain_from_url_clean in H2 as [Hs2 _].
    rewrite <-(str_replace_absent "/" "_" d1 Hs1) at 2.
    rewrite <-(str_replace_absent "/" "_" d2 Hs2) at 2.
    split; [apply _flow_path_inv|].
    unfold _flow_path. cbv zeta. by intros ->.
Qed.

Lemma url_keys_have_own_files_witness :
  _flow_path "shop.example" ≠ _flow_path "shop_example".
Proof.
  apply (proj1 url_keys_have_own_files "https://www.shop.example/cart"
           "http://SHOP_example:8080/p?id=1");
    first [reflexivity | discriminate].
Defined.

(** Membership and non-membership in a list of literals. *)
Ltac in_literals :=
  solve [repeat first [apply list_elem_of_here | apply list_elem_of_further]].

Ltac not_in_literals :=
  let H := fresh "H" in
  intros H;
  repeat (apply elem_of_cons in H as [H|H]; [discriminate H|]);
  by apply elem_of_nil in H.

Ltac eqb_cases :=
  repeat match goal with
         | |- context [Ascii.eqb ?x ?y] =>
             is_var x; is_var y; destruct (Ascii.eqb_spec x y)
         end;
  congruence.

Lemma str_replace_idem (c r : ascii) (s : string) :
  c ≠ r → str_replace c r (str_replace c r s) = str_replace c r s.
Proof.
  intros Hne. induction s as [|a s IH]; [done|]. simpl. rewrite IH. f_equal.
  eqb_cases.
Qed.

Lemma str_replace_comm (c1 c2 r : ascii) (s : string) :
  c1 ≠ r → c2 ≠ r →
  str_replace c1 r (str_replace c2 r s) = str_replace c2 r (str_replace c1 r s).
Proof.
  intros H1 H2. induction s as [|a s IH]; [done|]. simpl. rewrite IH. f_equal.
  eqb_cases.
Qed.

Lemma str_has_replace (c c' r : ascii) (s : string) :
  c ≠ r → str_has c s = false → str_has c (str_replace c' r s) = false.
Proof.
  intros Hne. induction s as [|a s IH]; [done|]. simpl.
  intros [Ha Hs]%orb_false_iff. rewrite (IH Hs), orb_false_r.
  destruct (Ascii.eqb a c'); [|done]. apply Ascii.eqb_neq. congruence.
Qed.

(** X6. A key given without [/] is used as it is, and its [:] are written
    as [_] in the file name: the key with a port, [host:port], and the key
    [host_port] address the same record. *)
Theorem colon_key_shares_record (d : string) (fs : files) :
  str_contains "/" d = false →
  _flow_path (str_replace ":" "_" d) = _flow_path d
  ∧ load_flow (str_replace ":" "_" d) fs = load_flow d fs.
Proof.
  intros Hd.
  assert (_flow_path (str_replace ":" "_" d) = _flow_path d) as Hp.
  { unfold _flow_path. cbv zeta.
    by rewrite (str_replace_comm "/" ":"), str_replace_idem. }
  split; [exact Hp|].
  rewrite (load_flow_unfold d d), (load_flow_unfold _ (str_replace ":" "_" d)).
  - by rewrite Hp.
  - apply domain_of_bare. rewrite str_contains_char.
    apply str_has_replace; [done|]. by rewrite <-str_contains_char.
  - by apply domain_of_bare.
Qed.

Lemma colon_key_shares_record_witness :
  _flow_path "shop.example_8443" = _flow_path "shop.example:8443"
  ∧ load_flow "shop.example_8443"
      {[ _flow_path "shop.example:8443" := Object one_in_five ]}
    = load_flow "shop.example:8443"
        {[ _flow_path "shop.example:8443" := Object one_in_five ]}.
Proof.
  apply (colon_key_shares_record "shop.example:8443"). reflexivity.
Defined.

(** ** What a run takes from the saved flow *)

Lemma run_checkout_saved_unfold (x d : string) rf rp (fs : files) (flow : Flow.t) :
  domain_of x = Ok d →
  fs !! _flow_path d = Some (Object flow) →
  flow_truthy flow = true →
  run_checkout_saved x rf rp fs =
    (fs, Ok {|
       saved_form_sels := default ∅ rf ∪ default ∅ (Flow.form_selectors flow);
       saved_payment_sels :=
         default ∅ rp ∪ default ∅ (Flow.payment_selectors flow);
       saved_nav_steps :=
         if Health.needs_relearn (check_flow_health flow) then []
         else default [] (Flow.navigation_steps flow) |}).
Proof.
  intros Hd Hf Ht. unfold run_checkout_saved, mbind, io_bind.
  rewrite (load_flow_unfold _ _ _ Hd), Hf. unfold ret, mret, io_ret.
  cbv beta iota zeta. rewrite Ht.
  by destruct (Health.needs_relearn (check_flow_health flow)).
Qed.

(** A run of failures leaves the record in place, with the success stamp,
    the steps and the selectors it had. *)
Lemma run_failures_keep (d : string) (cs : list call) (fs : files) (flow : Flow.t) :
  Forall (served d) cs →
  forallb is_failure cs = true →
  fs !! _flow_path d = Some (Object flow) →
  ∃ fs' flow',
    run cs fs = (fs', Ok ())
    ∧ fs' !! _flow_path d = Some (Object flow')
    ∧ Flow.domain flow' = Flow.domain flow
    ∧ Flow.last_success flow' = Flow.last_success flow
    ∧ Flow.navigation_steps flow' = Flow.navigation_steps flow
    ∧ Flow.form_selectors flow' = Flow.form_selectors flow
    ∧ Flow.payment_selectors flow' = Flow.payment_selectors flow.
Proof.
  revert fs flow. induction cs as [|c cs IH]; intros fs flow Hall Hfail Hf.
  - by exists fs, flow.
  - apply Forall_cons in Hall as [Hc Hall]. simpl in Hfail.
    apply andb_true_iff in Hfail as [Hc' Hfail].
    destruct c as [r|t w target error]; [done|]. destruct Hc as [Hd ->].
    pose proof (record_failure_written t _ _ error _ _ Hd Hf) as Hrf.
    match type of Hrf with
    | _ = (<[_ := Object ?f1]> _, _) =>
        destruct (IH (<[_flow_path d := Object f1]> fs) f1 Hall Hfail)
          as (fs' & flow' & Hrun & Hf' & Heqs); [apply lookup_insert_eq|]
    end.
    exists fs', flow'. split; [|split; [exact Hf'|exact Heqs]].
    cbn [run]. unfold mbind, io_bind. cbn [run_call].
    rewrite Hrf. exact Hrun.
Qed.

Lemma ltb_truthy (s t : string) : String.ltb s t = true → str_truthy t = true.
Proof. by destruct t; [destruct s|]. Qed.

Lemma saved_record_truthy (flow : Flow.t) :
  is_Some (Flow.domain flow) → flow_truthy flow = true.
Proof. intros [d Hd]. unfold flow_truthy. by rewrite Hd. Qed.

(** The record after a history for one domain that ends in a save. *)
Lemma run_then_save (d : string) (fs : files) (pre : list call) (r : save_request) :
  fs !! _flow_path d = None →
  Forall (served d) pre →
  served d (Save r) →
  ∃ fs0 existing,
    run pre fs = (fs0, Ok ())
    ∧ existing_record (fs0 !! _flow_path d) = Some existing
    ∧ run (pre ++ [Save r]) fs =
        save_flow (sr_now r) Written (sr_target r) (sr_form r) (sr_payment r)
          (sr_nav r) (sr_pattern r) (sr_platform r) (sr_final_url r) fs0.
Proof.
  intros Hfs Hpre [Hd Hw].
  destruct (run_counters d fs Hfs pre Hpre) as (fs0 & Hrun & Hstate).
  assert (∃ existing, existing_record (fs0 !! _flow_path d) = Some existing)
    as [existing He].
  { destruct (existsb is_save pre).
    - destruct Hstate as (flow & -> & _). by exists flow.
    - rewrite Hstate. by exists Flow.empty. }
  exists fs0, existing. split; [exact Hrun|split; [exact He|]].
  rewrite (run_snoc _ _ _ _ Hrun). cbn [run_call]. by rewrite Hw.
Qed.

(** X7. One failure suffices for a re-learn. After a history of saves and
    failures for one domain that ends with a save followed by failures, the
    last of them stamped later than the save, the health check asks for a
    re-learn, however many runs succeeded before: the next run takes no
    navigation step from the record, and still takes its selectors. *)
Theorem failure_after_save_drops_steps (d : string) (fs : files)
    (pre mid : list call) (r : save_request) (t target : string)
    (error : option string) (x : string) rf rp :
  fs !! _flow_path d = None →
  Forall (served d) pre →
  served d (Save r) →
  Forall (served d) mid →
  forallb is_failure mid = true →
  domain_of target = Ok d →
  domain_of x = Ok d →
  str_truthy (sr_now r) = true →
  String.ltb (sr_now r) t = true →
  ∃ fs' flow,
    run (pre ++ [Save r] ++ mid ++ [Failure t Written target error]) fs
      = (fs', Ok ())
    ∧ load_flow x fs' = (fs', Ok (Some flow))
    ∧ Health.needs_relearn (check_flow_health flow) = true
    ∧ run_checkout_saved x rf rp fs' =
        (fs', Ok {|
           saved_form_sels :=
             default ∅ rf ∪ default ∅ (Flow.form_selectors flow);
           saved_payment_sels :=
             default ∅ rp ∪ default ∅ (Flow.payment_selectors flow);
           saved_nav_steps := [] |}).
Proof.
  intros Hfs Hpre Hr Hmid Hfail Htarget Hx Hnow Hlt.
  destruct (run_then_save d fs pre r Hfs Hpre Hr)
    as (fs0 & existing & Hrun0 & He & Hrun1).
  destruct Hr as [Hd Hw].
  rewrite (save_flow_written _ _ d _ _ _ _ _ _ _ existing Hd He) in Hrun1.
  match type of Hrun1 with
  | _ = (<[_ := Object ?f1]> _, _) =>
      destruct (run_failures_keep d mid (<[_flow_path d := Object f1]> fs0) f1
                  Hmid Hfail)
        as (fs2 & flow2 & Hrun2 & Hf2 & Hdom & Hls & _);
        [apply lookup_insert_eq|]
  end.
  cbn [Flow.last_success Flow.domain] in Hls, Hdom.
  eexists _, _.
  assert (run (pre ++ [Save r] ++ mid ++ [Failure t Written target error]) fs
          = record_failure t Written target error fs2) as Hrun.
  { rewrite (assoc_L (++)), (assoc_L (++)).
    change (record_failure t Written target error fs2)
      with (run_call (Failure t Written target error) fs2).
    apply run_snoc. rewrite run_app, Hrun1. exact Hrun2. }
  rewrite Hrun, (record_failure_written _ _ _ _ _ _ Htarget Hf2).
  split; [reflexivity|].
  assert (∀ flow3, failed_after_last_success flow3 = true →
            Health.needs_relearn (check_flow_health flow3) = true) as Hneeds.
  { intros flow3 H3. by rewrite needs_relearn_unfold, H3. }
  match goal with
  | |- context [<[_ := Object ?f]> fs2] => set (flow3 := f)
  end.
  assert (failed_after_last_success flow3 = true) as Hafter.
  { unfold failed_after_last_success, flow3.
    cbn [Flow.last_failure Flow.last_success]. rewrite Hls.
    by rewrite (ltb_truthy _ _ Hlt), Hnow, Hlt. }
  split; [|split].
  - rewrite (load_flow_unfold _ _ _ Hx), lookup_insert_eq. reflexivity.
  - by apply Hneeds.
  - rewrite (run_checkout_saved_unfold x d rf rp _ flow3 Hx);
      [|apply lookup_insert_eq|].
    + by rewrite (Hneeds _ Hafter).
    + apply saved_record_truthy. unfold flow3. cbn [Flow.domain].
      by rewrite Hdom.
Qed.

Lemma failure_after_save_drops_steps_witness :
  ∃ fs' flow,
    run ([] ++ [Save first_visit] ++ []
         ++ [Failure "2026-02-17T12:00:01+00:00" Written "shop.example" None])
        ∅
      = (fs', Ok ())
    ∧ load_flow "shop.example" fs' = (fs', Ok (Some flow))
    ∧ Health.needs_relearn (check_flow_health flow) = true
    ∧ run_checkout_saved "shop.example" None None fs' =
        (fs', Ok {|
           saved_form_sels := default ∅ None ∪ default ∅ (Flow.form_selectors flow);
           saved_payment_sels :=
             default ∅ None ∪ default ∅ (Flow.payment_selectors flow);
           saved_nav_steps := [] |}).
Proof.
  apply (failure_after_save_drops_steps "shop.example" ∅ [] [] first_visit
           "2026-02-17T12:00:01+00:00" "shop.example" None "shop.example"
           None None);
    first [ exact (lookup_empty _) | by constructor | by split | reflexivity ].
Defined.

(** X8. A save is followed by a replay. After a history of saves and
    failures for one domain that ends with a save that supplies navigation
    steps, the next run takes exactly these steps from the record, whatever
    the counters and the status of the health check are, and it takes the
    selectors of that save wherever the request does not give its own. *)
Theorem save_is_followed_by_replay (d : string) (fs : files)
    (pre : list call) (r : save_request) (steps : list Step.t)
    (x : string) rf rp :
  fs !! _flow_path d = None →
  Forall (served d) pre →
  served d (Save r) →
  sr_nav r = Some steps →
  domain_of x = Ok d →
  ∃ fs' plan,
    run (pre ++ [Save r]) fs = (fs', Ok ())
    ∧ run_checkout_saved x rf rp fs' = (fs', Ok plan)
    ∧ saved_nav_steps plan = steps
    ∧ ∀ k v, sr_form r !! k = Some v → default ∅ rf !! k = None →
             saved_form_sels plan !! k = Some v.
Proof.
  intros Hfs Hpre Hr Hnav Hx.
  destruct (run_then_save d fs pre r Hfs Hpre Hr)
    as (fs0 & existing & Hrun0 & He & Hrun1).
  destruct Hr as [Hd Hw].
  rewrite (save_flow_written _ _ d _ _ _ _ _ _ _ existing Hd He) in Hrun1.
  eexists _, _. split; [exact Hrun1|].
  match goal with
  | |- context [<[_ := Object ?f]> fs0] => set (flow := f)
  end.
  rewrite (run_checkout_saved_unfold x d rf rp _ flow Hx);
    [|apply lookup_insert_eq|by apply saved_record_truthy].
  assert (Health.needs_relearn (check_flow_health flow) = false) as ->.
  { rewrite needs_relearn_unfold. reflexivity. }
  split; [reflexivity|]. cbn [saved_nav_steps saved_form_sels].
  split.
  - unfold flow. cbn [Flow.navigation_steps]. by rewrite Hnav.
  - intros k v Hk Hrf. unfold flow. cbn [Flow.form_selectors default].
    apply lookup_union_Some_raw. right. split; [exact Hrf|].
    apply lookup_union_Some_raw. by left.
Qed.

Lemma save_is_followed_by_replay_witness :
  let steps := [click "add_to_cart" "https://shop.example/p/1" "Add to cart"] in
  let r := {| sr_now := "2026-02-19T08:00:00+00:00";
              sr_write := Written;
              sr_target := "https://www.shop.example/p/1";
              sr_form := {[ "email" := "#mail" ]};
              sr_payment := None;
              sr_nav := Some steps;
              sr_pattern := None;
              sr_platform := None;
              sr_final_url := None |} in
  let rf : option (gmap string string) := Some {[ "city" := "#town" ]} in
  ∃ fs' plan,
    run ([failed_visit; Save second_visit; failed_visit; failed_visit]
         ++ [Save r]) ∅ = (fs', Ok ())
    ∧ run_checkout_saved "https://shop.example/cart" rf None fs'
      = (fs', Ok plan)
    ∧ saved_nav_steps plan = steps
    ∧ ∀ k v, sr_form r !! k = Some v → default ∅ rf !! k = None →
             saved_form_sels plan !! k = Some v.
Proof.
  intros steps r rf.
  apply (save_is_followed_by_replay "shop.example" ∅ _ r steps _ rf None);
    first [ exact (lookup_empty _) | reflexivity
          | by repeat constructor ].
Defined.

(** ** Listing the flows *)

Lemma list_flows_step (filename : string) (names : list string)
    (flows : list Summary.t) (fs : files) :
  list_flows_loop (filename :: names) flows fs =
    if str_endswith ".json" filename then
      match fs !! path_in_flows filename with
      | Some (Object flow) =>
          list_flows_loop names (flows ++ [summary_of filename flow]) fs
      | Some (NonObject _) => (fs, Raise AttributeError)
      | Some BadEncoding => (fs, Raise UnicodeDecodeError)
      | _ => list_flows_loop names flows fs
      end
    else list_flows_loop names flows fs.
Proof.
  cbn [list_flows_loop]. destruct (str_endswith ".json" filename); [|done].
  cbn [negb]. unfold try_except, read_json, lift, ret, mbind, io_bind, mret,
    io_ret.
  by destruct (fs !! path_in_flows filename) as [[| | |k|flow]|].
Qed.

Lemma list_flows_loop_ok (names : list string) (flows : list Summary.t)
    (fs : files) :
  Forall (λ name, str_endswith ".json" name = true →
                  is_foreign (fs !! path_in_flows name) = false) names →
  list_flows_loop names flows fs = (fs, Ok (flows ++ omap (listed fs) names)).
Proof.
  revert flows. induction names as [|name names IH]; intros flows Hall.
  - simpl. by rewrite (right_id_L [] (++)).
  - apply Forall_cons in Hall as [Hname Hall].
    rewrite list_flows_step. cbn [omap list_omap]. unfold listed at 1.
    destruct (str_endswith ".json" name); [|by apply IH].
    specialize (Hname eq_refl).
    destruct (fs !! path_in_flows name) as [[| | |k|flow]|];
      try done; try by apply IH.
    rewrite (IH _ Hall). by rewrite <-(assoc_L (++)).
Qed.

(** X9. Listing skips what it cannot use and changes nothing. When no listed
    [.json] file holds JSON other than an object or undecodable bytes, the
    list has one entry for each listed [.json] file that holds a record, in
    the order of the directory listing; other names, files that vanished,
    unreadable files and files that are not JSON are passed over. *)
Theorem list_flows_entries (names : list string) (fs : files) :
  Forall (λ name, str_endswith ".json" name = true →
                  is_foreign (fs !! path_in_flows name) = false) names →
  list_flows (Some names) fs = (fs, Ok (omap (listed fs) names))
  ∧ list_flows None fs = (fs, Ok []).
Proof.
  intros Hall. split; [|done]. unfold list_flows.
  by rewrite (list_flows_loop_ok _ _ _ Hall).
Qed.

Lemma list_flows_entries_witness :
  let fs : files :=
    {[ path_in_flows "shop.example.json" := Object one_in_five;
       path_in_flows "broken.json" := NotJson;
       path_in_flows "notes.txt" := NonObject JArray ]} in
  let names := ["broken.json"; "notes.txt"; "gone.json"; "shop.example.json"] in
  list_flows (Some names) fs = (fs, Ok (omap (listed fs) names))
  ∧ list_flows None fs = (fs, Ok []).
Proof.
  intros fs names. apply (list_flows_entries names fs).
  repeat constructor; vm_compute; congruence.
Defined.

(** X10. One foreign file breaks the listing. When a listed [.json] file
    holds JSON that is not an object (a list, a string, a number, [true],
    [null]) or bytes that do not decode, [list_flows] raises instead of
    passing the file over: its [except] clause names only
    [JSONDecodeError] and [IOError]. *)
Theorem list_flows_raises_on_foreign_file (names : list string)
    (name : string) (fs : files) :
  name ∈ names →
  str_endswith ".json" name = true →
  is_foreign (fs !! path_in_flows name) = true →
  ∃ e, list_flows (Some names) fs = (fs, Raise e)
       ∧ (e = AttributeError ∨ e = UnicodeDecodeError).
Proof.
  intros Hin Hjson Hforeign. unfold list_flows. generalize (@nil Summary.t).
  induction names as [|n names IH]; intros flows; [by apply elem_of_nil in Hin|].
  rewrite list_flows_step.
  destruct (decide (name = n)) as [<-|Hne].
  - rewrite Hjson.
    destruct (fs !! path_in_flows name) as [[| | |k|flow]|]; try done;
      eexists; split; eauto.
  - apply elem_of_cons in Hin as [?|Hin]; [done|].
    destruct (str_endswith ".json" n); [|by apply IH].
    destruct (fs !! path_in_flows n) as [[| | |k|flow]|];
      try (by apply IH); eexists; split; eauto.
Qed.

Lemma list_flows_raises_on_foreign_file_witness :
  ∃ e, list_flows (Some ["shop.example.json"; "queue.json"; "later.json"])
         {[ path_in_flows "shop.example.json" := Object one_in_five;
            path_in_flows "queue.json" := NonObject JArray ]}
       = ({[ path_in_flows "shop.example.json" := Object one_in_five;
             path_in_flows "queue.json" := NonObject JArray ]}, Raise e)
       ∧ (e = AttributeError ∨ e = UnicodeDecodeError).
Proof.
  apply (list_flows_raises_on_foreign_file _ "queue.json").
  - in_literals.
  - reflexivity.
  - reflexivity.
Defined.

Lemma str_length_app (s t : string) :
  String.length (s +:+ t) = String.length s + String.length t.
Proof. induction s as [|a s IH]; [done|]. rewrite app_cons. simpl. by rewrite IH. Qed.

Lemma str_endswith_app (s suffix : string) :
  str_endswith suffix (s +:+ suffix) = true.
Proof.
  unfold str_endswith. rewrite str_length_app.
  replace (String.length s + String.length suffix - String.length suffix)
    with (String.length s) by lia.
  rewrite str_drop_app. apply String.eqb_refl.
Qed.

Lemma path_in_flows_file_name (d : string) :
  path_in_flows (file_name_of d) = _flow_path d.
Proof. reflexivity. Qed.

(** X11. A saved flow is listed under its key. After a successful save, a
    listing of the directory that names the file of the record, and no
    foreign file, has an entry whose [domain] is the key of the save, with
    the counters and sizes of the record; [load_flow] called with that
    [domain], as the [/flows] endpoint does, returns the record. *)
Theorem saved_flow_is_listed now x d form pay nav pat plat url
    (fs fs1 : files) (names : list string) :
  domain_of x = Ok d →
  save_flow now Written x form pay nav pat plat url fs = (fs1, Ok ()) →
  file_name_of d ∈ names →
  Forall (λ name, str_endswith ".json" name = true →
                  is_foreign (fs1 !! path_in_flows name) = false) names →
  ∃ flows entry flow,
    list_flows (Some names) fs1 = (fs1, Ok flows)
    ∧ entry ∈ flows
    ∧ load_flow (Summary.domain entry) fs1 = (fs1, Ok (Some flow))
    ∧ Summary.domain entry = d
    ∧ (1 ≤ Summary.success_count entry)%N
    ∧ Some (Summary.success_count entry) = Flow.success_count flow
    ∧ Summary.last_success entry = Some now
    ∧ Summary.nav_steps entry = length (default [] (Flow.navigation_steps flow))
    ∧ Summary.form_fields entry = size (default ∅ (Flow.form_selectors flow))
    ∧ (∀ k, is_Some (form !! k) →
            is_Some (default ∅ (Flow.form_selectors flow) !! k)).
Proof.
  intros Hd Hsave Hin Hall.
  destruct (save_flow_ok_inv _ _ _ _ _ _ _ _ _ _ _ Hsave)
    as (d' & existing & Hd' & He).
  assert (d' = d) as -> by congruence.
  rewrite (save_flow_written _ _ d _ _ _ _ _ _ _ existing Hd He) in Hsave.
  injection Hsave as <-.
  match goal with
  | |- context [<[_ := Object ?f]> fs] => set (flow := f)
  end.
  exists (omap (listed (<[_flow_path d := Object flow]> fs)) names),
    (summary_of (file_name_of d) flow), flow.
  split; [unfold list_flows; by rewrite (list_flows_loop_ok _ _ _ Hall)|].
  split.
  { apply list_elem_of_omap. exists (file_name_of d). split; [exact Hin|].
    unfold listed. unfold file_name_of at 1. rewrite str_endswith_app.
    by rewrite path_in_flows_file_name, lookup_insert_eq. }
  assert (Summary.domain (summary_of (file_name_of d) flow) = d) as Hdom
    by reflexivity.
  split.
  { rewrite Hdom, (load_flow_unfold d d).
    - by rewrite lookup_insert_eq.
    - by apply (domain_of_idempotent x). }
  split; [exact Hdom|].
  split; [unfold flow; cbn; lia|].
  repeat split.
  intros k [v Hk]. unfold flow. cbn [Flow.form_selectors default from_option id].
  exists v. apply lookup_union_Some_raw. by left.
Qed.

Lemma saved_flow_is_listed_witness :
  let fs1 := (retry_visit ∅).1 in
  ∃ flows entry flow,
    list_flows (Some ["notes.txt"; "shop.example.json"]) fs1 = (fs1, Ok flows)
    ∧ entry ∈ flows
    ∧ load_flow (Summary.domain entry) fs1 = (fs1, Ok (Some flow))
    ∧ Summary.domain entry = "shop.example"
    ∧ (1 ≤ Summary.success_count entry)%N
    ∧ Some (Summary.success_count entry) = Flow.success_count flow
    ∧ Summary.last_success entry = Some "2026-02-19T10:00:00+00:00"
    ∧ Summary.nav_steps entry = length (default [] (Flow.navigation_steps flow))
    ∧ Summary.form_fields entry = size (default ∅ (Flow.form_selectors flow))
    ∧ (∀ k, is_Some (({[ "email" := "#email" ]} : gmap string string) !! k) →
            is_Some (default ∅ (Flow.form_selectors flow) !! k)).
Proof.
  intros fs1.
  apply (saved_flow_is_listed "2026-02-19T10:00:00+00:00"
           "https://www.shop.example/products/sneakers" "shop.example"
           {[ "email" := "#email" ]} None None None None None ∅ fs1).
  - reflexivity.
  - reflexivity.
  - in_literals.
  - repeat constructor; vm_compute; congruence.
Defined.

(** ** The step extractor *)

Lemma extract_action_cases (st : extract_state) (item : Action.t * option string) :
  extract_action st item = st
  ∨ (∃ step key,
       extract_action st item = ({[ key ]} ∪ st.1, st.2 ++ [step])
       ∧ is_click step = true
       ∧ step_key step = key
       ∧ (key ∉ fst st)
       ∧ _build_step_from_element "click" (Action.interacted_element item.1)
           item.2 = Some step
       ∧ ¬ (default "" (Step.tag step) ∈ ["input"; "textarea"; "select"])
       ∧ (default "" (Step.text step) = ""
          → default "other" (Step.purpose step) ≠ "other"))
  ∨ (∃ step,
       extract_action st item = (st.1, st.2 ++ [step])
       ∧ is_click step = false
       ∧ ((Step.action step = Some "navigate"
           ∧ opt_truthy (Step.url step) = true)
          ∨ (Step.action step = Some "wait"
             ∧ ∃ n, Step.seconds step = Some n ∧ (n ≤ 2)%N)
          ∨ Step.action step = Some "go_back")).
Proof.
  destruct st as [seen steps], item as [action url]. unfold extract_action.
  destruct (is_custom_tool_call action); [by left|].
  destruct (has_key action "click").
  - destruct (Action.interacted_element action) as [el|] eqn:Hel; [|by left].
    destruct (_build_step_from_element "click" (Some el) url) as [step|] eqn:Hb;
      [|by left].
    destruct (negb _ && _) eqn:Hempty; [by left|].
    destruct (String.eqb _ "span" && _); [by left|].
    destruct (existsb _ _) eqn:Hform; [by left|].
    destruct (bool_decide _) eqn:Hseen; [by left|].
    right; left. exists step, (step_key step).
    apply bool_decide_eq_false in Hseen.
    assert (is_click step = true) as Hclick.
    { unfold _build_step_from_element in Hb. destruct (negb _ && negb _); [done|].
      by injection Hb as <-. }
    repeat split; try done.
    + cbn [fst snd]. by rewrite Hel.
    + cbn [fst]. intros Hin. rewrite <-not_true_iff_false in Hform.
      apply Hform. apply existsb_exists.
      exists (default "" (Step.tag step)). split.
      * by apply list_elem_of_In.
      * apply String.eqb_refl.
    + intros Htext Hpurpose. rewrite Htext, Hpurpose in Hempty. done.
  - destruct (has_key action "go_to_url" || has_key action "navigate").
    + match goal with
      | |- context [opt_truthy ?u] => destruct (opt_truthy u) eqn:Hu
      end; [|by left].
      right; right. eexists. split; [reflexivity|]. split; [done|].
      left. by split.
    + destruct (has_key action "wait").
      * right; right. eexists. split; [reflexivity|]. split; [done|].
        right; left. split; [done|]. eexists. split; [reflexivity|]. lia.
      * destruct (has_key action "go_back"); [|by left].
        right; right. eexists. split; [reflexivity|]. split; [done|].
        by right; right.
Qed.

Lemma click_keys_snoc (steps : list Step.t) (step : Step.t) :
  click_keys (steps ++ [step])
  = click_keys steps ++ (if is_click step then [step_key step] else []).
Proof.
  unfold click_keys. rewrite List.filter_app, fmap_app. simpl.
  by destruct (is_click step).
Qed.

(** The keys of the recorded clicks are remembered and pairwise distinct. *)
Lemma extract_action_keys (st : extract_state) (item : Action.t * option string) :
  NoDup (click_keys st.2) →
  (∀ k, k ∈ click_keys st.2 → k ∈ st.1) →
  NoDup (click_keys (extract_action st item).2)
  ∧ (∀ k, k ∈ click_keys (extract_action st item).2
          → k ∈ (extract_action st item).1).
Proof.
  intros Hnd Hseen.
  destruct (extract_action_cases st item)
    as [->|[(step & key & -> & Hclick & Hkey & Hnew & _)
           |(step & -> & Hclick & _)]];
    [done| |]; cbn [fst snd]; rewrite click_keys_snoc, Hclick.
  - split.
    + apply NoDup_app. split; [done|]. split; [|apply NoDup_singleton].
      intros k Hk ->%list_elem_of_singleton. rewrite Hkey in Hk.
      by apply Hnew, Hseen.
    + intros k [Hk| ->%list_elem_of_singleton]%elem_of_app.
      * apply elem_of_union_r. by apply Hseen.
      * rewrite Hkey. apply elem_of_union_l. by apply elem_of_singleton.
  - rewrite (right_id_L [] (++)). done.
Qed.

Lemma extract_keys (items : list (Action.t * option string)) (st : extract_state) :
  NoDup (click_keys st.2) →
  (∀ k, k ∈ click_keys st.2 → k ∈ st.1) →
  NoDup (click_keys (foldl extract_action st items).2)
  ∧ (∀ k, k ∈ click_keys (foldl extract_action st items).2
          → k ∈ (foldl extract_action st items).1).
Proof.
  revert st. induction items as [|item items IH]; intros st Hnd Hseen; [done|].
  cbn [foldl]. destruct (extract_action_keys st item Hnd Hseen). by apply IH.
Qed.

(** X12. No click is recorded twice. The click steps that the extractor
    returns have pairwise distinct keys, a key being the selector of the
    step followed by the first 20 characters of its text: a click whose key
    was recorded before is dropped wherever it occurs in the history, not
    only when it directly follows the first one. *)
Theorem extracted_clicks_are_distinct
    (history : option (list Action.t * list (option string))) :
  NoDup (click_keys (extract_navigation_steps history)).
Proof.
  destruct history as [[actions urls]|]; [|constructor].
  unfold extract_navigation_steps.
  apply extract_keys; [constructor|]. intros k Hk. by apply elem_of_nil in Hk.
Qed.

Lemma extract_action_seen (st : extract_state) (item : Action.t * option string) :
  st.1 ⊆ (extract_action st item).1.
Proof.
  destruct (extract_action_cases st item)
    as [->|[(step & key & -> & _)|(step & -> & _)]]; [done| |done].
  cbn [fst]. apply union_subseteq_r.
Qed.

Lemma extract_seen (items : list (Action.t * option string)) (st : extract_state) :
  st.1 ⊆ (foldl extract_action st items).1.
Proof.
  revert st. induction items as [|item items IH]; intros st; [done|].
  cbn [foldl]. etrans; [apply extract_action_seen|apply IH].
Qed.

(** The step built from an element does not depend on the address, the
    field [url_at] apart. *)
Lemma _build_step_from_element_url (el : Element.t) (url url' : option string) :
  match _build_step_from_element "click" (Some el) url,
        _build_step_from_element "click" (Some el) url' with
  | Some step, Some step' =>
      Step.text step' = Step.text step
      ∧ Step.selector step' = Step.selector step
      ∧ Step.tag step' = Step.tag step
      ∧ Step.purpose step' = Step.purpose step
  | None, None => True
  | _, _ => False
  end.
Proof.
  unfold _build_step_from_element. by destruct (negb _ && negb _).
Qed.

Lemma repeated_click_adds_nothing (st st' : extract_state)
    (action action' : Action.t) (url url' : option string) (el : Element.t) :
  is_custom_tool_call action = false →
  has_key action "click" = true →
  Action.interacted_element action = Some el →
  has_key action' "click" = true →
  Action.interacted_element action' = Some el →
  (extract_action st (action, url)).1 ⊆ st'.1 →
  extract_action st' (action', url') = st'.
Proof.
  intros Hcustom Hclick Hel Hclick' Hel'.
  destruct st as [seen steps], st' as [seen' steps'].
  unfold extract_action. rewrite Hcustom, Hclick, Hel, Hclick', Hel'.
  destruct (is_custom_tool_call action'); [done|].
  pose proof (_build_step_from_element_url el url url') as Hb.
  destruct (_build_step_from_element "click" (Some el) url) as [step|],
    (_build_step_from_element "click" (Some el) url') as [step'|]; try done.
  destruct Hb as (-> & -> & -> & ->).
  destruct (negb _ && _); [done|].
  destruct (String.eqb _ "span" && _); [done|].
  destruct (existsb _ _); [done|].
  intros Hsub.
  rewrite (bool_decide_eq_true_2 (_ ∈ seen')); [done|].
  destruct (bool_decide _) eqn:Hseen; cbn [fst] in Hsub.
  - apply bool_decide_eq_true in Hseen. by apply Hsub.
  - apply Hsub, elem_of_union_l. by apply elem_of_singleton.
Qed.

Lemma second_click_fold (before between : list (Action.t * option string))
    (action action' : Action.t) (url url' : option string) (el : Element.t)
    (st : extract_state) :
  is_custom_tool_call action = false →
  has_key action "click" = true →
  Action.interacted_element action = Some el →
  has_key action' "click" = true →
  Action.interacted_element action' = Some el →
  foldl extract_action st
    ((before ++ (action, url) :: between) ++ [(action', url')])
  = foldl extract_action st (before ++ (action, url) :: between).
Proof.
  intros Hcustom Hclick Hel Hclick' Hel'.
  rewrite !foldl_app. cbn [foldl].
  eapply repeated_click_adds_nothing; try done. apply extract_seen.
Qed.

Lemma with_urls_snoc (actions : list Action.t) (action : Action.t)
    (urls : list (option string)) :
  with_urls (actions ++ [action]) urls
  = with_urls actions urls ++ [(action, default None (urls !! length actions))].
Proof.
  unfold with_urls. rewrite imap_app. simpl. by rewrite Nat.add_0_r.
Qed.

(** X13. A second click on an element leaves no step. When the history
    holds a click on an element, a later click on the same element adds
    nothing to the result, whatever lies between the two and whatever the
    addresses of the two pages are: the key of a click does not look at
    the address. *)
Theorem second_click_is_not_recorded (actions : list Action.t)
    (action action' : Action.t) (urls : list (option string))
    (el : Element.t) :
  action ∈ actions →
  is_custom_tool_call action = false →
  has_key action "click" = true →
  Action.interacted_element action = Some el →
  has_key action' "click" = true →
  Action.interacted_element action' = Some el →
  extract_navigation_steps (Some (actions ++ [action'], urls))
  = extract_navigation_steps (Some (actions, urls)).
Proof.
  intros Hin Hcustom Hclick Hel Hclick' Hel'.
  unfold extract_navigation_steps. rewrite with_urls_snoc.
  apply list_elem_of_lookup in Hin as [i Hi].
  assert ((action, default None (urls !! i)) ∈ with_urls actions urls) as Hitem.
  { apply list_elem_of_lookup. exists i. unfold with_urls.
    by rewrite list_lookup_imap, Hi. }
  apply list_elem_of_split in Hitem as (before & between & ->).
  by rewrite (second_click_fold _ _ _ _ _ _ el).
Qed.

Lemma second_click_is_not_recorded_witness :
  let continue :=
    {| Element.attributes := Some {[ "id" := "next" ]};
       Element.ax_name := Some "Continue";
       Element.node_name := Some "BUTTON" |} in
  let guest :=
    {| Element.attributes := None;
       Element.ax_name := Some "Guest checkout";
       Element.node_name := Some "A" |} in
  let click_on el :=
    {| Action.params := {[ "click" := PParams None None true ]};
       Action.interacted_element := Some el |} in
  let urls := [Some "https://shop.example/cart";
               Some "https://shop.example/login";
               Some "https://shop.example/checkout/address"] in
  extract_navigation_steps
    (Some ([click_on continue; click_on guest] ++ [click_on continue], urls))
  = extract_navigation_steps (Some ([click_on continue; click_on guest], urls)).
Proof.
  intros continue guest click_on urls.
  apply (second_click_is_not_recorded _ (click_on continue) _ _ continue);
    first [reflexivity | in_literals].
Defined.

Lemma first_data_attr_truthy (attrs : gmap string string) (names : list string)
    (s : string) :
  first_data_attr attrs names = Some s → s ≠ "".
Proof.
  induction names as [|n names IH]; [done|]. simpl.
  destruct (attr attrs n); [|done]. by intros [= <-].
Qed.

Lemma str_app_truthy (s t : string) : s ≠ "" → s +:+ t ≠ "".
Proof. by destruct s. Qed.

Lemma attr_truthy (attrs : gmap string string) (k v : string) :
  attr attrs k = Some v → v ≠ "".
Proof.
  unfold attr. destruct (attrs !! k) as [w|]; [|done].
  unfold str_truthy. destruct (String.eqb_spec w ""); [done|].
  simpl. congruence.
Qed.

Lemma str_truthy_spec (s : string) : str_truthy s = true ↔ s ≠ "".
Proof.
  unfold str_truthy. destruct (String.eqb_spec s ""); simpl; split; try done.
Qed.

(** A selector is never the empty text. *)
Lemma _build_selector_truthy (tag : string) (attrs : gmap string string)
    (s : string) :
  _build_selector tag attrs = Some s → s ≠ "".
Proof.
  unfold _build_selector. cbv zeta.
  set (tag' := if str_truthy tag then str_lower tag else "").
  destruct (attr attrs "id"); [by intros [= <-]|].
  assert (str_truthy tag' = true → tag' ≠ "") as Htag by apply str_truthy_spec.
  destruct (attr attrs "name"), (str_truthy tag') eqn:Ht;
    try (intros [= <-]; by apply str_app_truthy, Htag);
    (destruct (first_data_attr _ _) eqn:Hdata;
     [intros [= <-]; by apply (first_data_attr_truthy _ _ _ Hdata)|]);
    (destruct (attr attrs "aria-label"); [by intros [= <-]|]);
    destruct (attr attrs "class"); try done;
    destruct (List.filter _ _); try done;
    intros [= <-]; by apply str_app_truthy, Htag.
Qed.

Lemma built_step_shape (el : option Element.t) (url : option string)
    (step : Step.t) :
  _build_step_from_element "click" el url = Some step →
  Step.action step = Some "click"
  ∧ String.length (default "" (Step.text step)) ≤ 100
  ∧ (Step.selector step = None → default "" (Step.text step) ≠ "").
Proof.
  unfold _build_step_from_element. destruct el as [el|]; [|done].
  destruct (negb _ && negb _) eqn:Hnone; [done|]. intros [= <-].
  cbn [Step.action Step.text Step.selector default from_option id].
  split; [done|]. split.
  - destruct (str_truthy _);
      [exact (str_take_length 100 (default "" (Element.ax_name el)))
      |simpl; lia].
  - intros Hsel. rewrite Hsel in Hnone. cbn [opt_truthy negb andb] in Hnone.
    apply negb_false_iff in Hnone. rewrite Hnone.
    apply str_truthy_spec in Hnone. intros Htake. apply Hnone.
    destruct (default "" (Element.ax_name el)); [done|discriminate].
Qed.

Lemma extract_action_recorded (st : extract_state) (item : Action.t * option string) :
  Forall is_recorded_step st.2 →
  Forall is_recorded_step (extract_action st item).2.
Proof.
  intros Hall.
  destruct (extract_action_cases st item)
    as [->|[(step & key & -> & _ & _ & _ & Hb & Htag & Htext)
           |(step & -> & _ & Hkind)]];
    [done| |]; cbn [snd]; apply Forall_app; (split; [done|]);
    apply Forall_singleton.
  - apply built_step_shape in Hb as (Ha & Hlen & Hsel). by left.
  - right. destruct Hkind as [[Ha Hu]|[[Ha Hn]|Ha]].
    + left. split; [done|]. destruct (Step.url step) as [u|]; [|done].
      exists u. split; [done|]. by apply str_truthy_spec.
    + right; left. done.
    + right; right. done.
Qed.

(** X14. What is recorded. Every step that the extractor returns is a
    click, a navigation, a wait or a step back. A click is never one on an
    [input], [textarea] or [select] element, its text has at most 100
    characters, and it has a text or a purpose other than [other], and a
    text when it has no selector; a navigation has a non-empty address; a
    wait lasts at most 2 seconds. *)
Theorem extracted_steps_are_recorded_steps
    (history : option (list Action.t * list (option string))) :
  Forall is_recorded_step (extract_navigation_steps history).
Proof.
  destruct history as [[actions urls]|]; [|constructor].
  unfold extract_navigation_steps.
  assert (∀ items st, Forall is_recorded_step st.2 →
            Forall is_recorded_step (foldl extract_action st items).2) as Hfold.
  { induction items as [|item items IH]; intros st Hst; [done|].
    cbn [foldl]. by apply IH, extract_action_recorded. }
  apply Hfold. constructor.
Qed.

(** ** The purpose of a step *)

Lemma str_contains_prefix (sub s : string) :
  String.prefix sub s = true → str_contains sub s = true.
Proof. intros H. destruct s; simpl in *; by rewrite H. Qed.

Lemma str_contains_suffix_of_word (a b s : string) :
  str_contains (a +:+ b) s = true → str_contains b s = true.
Proof.
  induction s as [|x s IH].
  - by destruct a, b.
  - intros H. cbn [str_contains] in H. apply orb_true_iff in H as [H|H].
    + apply prefix_split in H. rewrite H, str_app_assoc.
      apply str_contains_app_r, str_contains_prefix, prefix_app.
    + cbn [str_contains]. rewrite (IH H). apply orb_true_r.
Qed.

(** X15. The word [bestellen] decides before the checkout keywords. A text
    that contains [bestellen] is classified as a cookie consent or as an
    add-to-cart step; so the keywords [verder naar bestellen] and
    [ga bestellen], listed for [go_to_checkout], never decide, and a button
    with such a text is never the [continue] or [confirm] click at which
    the replay stops. *)
Theorem bestellen_is_add_to_cart (text : string) (attrs : gmap string string)
    (url : option string) (before : string) :
  str_contains (before +:+ "bestellen") (str_lower text) = true →
  _guess_purpose text attrs url = "cookie_consent"
  ∨ _guess_purpose text attrs url = "add_to_cart".
Proof.
  intros H%str_contains_suffix_of_word.
  unfold _guess_purpose. cbv zeta.
  destruct (any_in _ (str_lower text)); [by left|]. right.
  unfold any_in at 1. cbn [existsb]. by rewrite H, !orb_true_r.
Qed.

Lemma bestellen_is_add_to_cart_witness :
  _guess_purpose "Verder naar bestellen" ∅ None = "cookie_consent"
  ∨ _guess_purpose "Verder naar bestellen" ∅ None = "add_to_cart".
Proof.
  apply (bestellen_is_add_to_cart _ _ _ "verder naar "). reflexivity.
Defined.

(** X16. The word [accept] decides before the confirmation keywords. A text
    that contains [accept] is classified as a cookie consent, whatever else
    it says: the keyword [accept] listed for [confirm] never decides, and a
    button that accepts and confirms an order is recorded as a cookie
    consent. *)
Theorem accept_is_cookie_consent (text : string) (attrs : gmap string string)
    (url : option string) :
  str_contains "accept" (str_lower text) = true →
  _guess_purpose text attrs url = "cookie_consent".
Proof.
  intros H. unfold _guess_purpose. cbv zeta.
  unfold any_in at 1. cbn [existsb]. by rewrite H.
Qed.

Lemma accept_is_cookie_consent_witness :
  _guess_purpose "Accept terms and confirm order" ∅
    (Some "https://shop.example/checkout/summary")
  = "cookie_consent".
Proof. apply accept_is_cookie_consent. reflexivity. Defined.

(** ** The form fill loop *)

Section form_fill_js_facts.

Variable page : Type.
Variable elem : Type.
Variable querySelector : page → string → option (option elem).
Variable disabled : page → elem → bool.
Variable type_hidden : page → elem → bool.
Variable style_hidden : page → elem → option bool.
Variable tag_is_select : page → elem → bool.
Variable options : page → elem → option (list (jsstring * jsstring)).
Variable toLowerCase : jsstring → jsstring.
Variable choose : page → elem → jsstring → page * bool.
Variable setNativeValue : page → elem → jsstring → page * bool.
Variable set_value : page → elem → jsstring → page * bool.
Variable insertText : page → elem → jsstring → page * bool.
Variable value_of : page → elem → jsval.
Variable sleep : page → page.

Abbreviation try_all :=
  (try_selectors page elem querySelector disabled type_hidden style_hidden
     tag_is_select options toLowerCase choose setNativeValue set_value
     insertText value_of).
Abbreviation fill_one :=
  (fill_field page elem querySelector disabled type_hidden style_hidden
     tag_is_select options toLowerCase choose setNativeValue set_value
     insertText value_of sleep).
Abbreviation fill_all :=
  (FORM_FILL_JS page elem querySelector disabled type_hidden style_hidden
     tag_is_select options toLowerCase choose setNativeValue set_value
     insertText value_of sleep).

Lemma try_selectors_found (field : Field.t) (selectors : list string)
    (p p' : page) (sel : string) (found : outcome) :
  try_all field selectors p = (p', Some (sel, found)) →
  sel ∈ selectors ∧ found ≠ NotFound.
Proof.
  revert p.
  induction selectors as [|s selectors IH]; intros p; [done|].
  cbn [try_selectors].
  destruct (try_selector _ _ _ _ _ _ _ _ _ _ _ _ _ _ field s p) as [p1 [| | |]];
    try (intros [= <- <- <-]; split; [apply list_elem_of_here|done]).
  intros H. destruct (IH _ H). split; [by apply list_elem_of_further|done].
Qed.

Lemma no_value_spec (field : Field.t) :
  negb (str_truthy (Field.value field))
  && negb (opt_truthy (Field.selectCode field)) = false → has_value field.
Proof.
  unfold has_value. intros [H|H]%andb_false_iff; apply negb_false_iff in H.
  - left. by apply str_truthy_spec.
  - right. destruct (Field.selectCode field) as [code|]; [|done].
    exists code. split; [done|]. by apply str_truthy_spec.
Qed.

Lemma fill_field_report (done : list Field.t) (field : Field.t) (p : page)
    (r : Fill.t) :
  is_fill_report done r →
  is_fill_report (done ++ [field]) (fill_one (p, r) field).2
  ∧ Fill.total (fill_one (p, r) field).2 = Fill.total r.
Proof.
  intros (Hlen & Hretried & Hverified & Hfilled & Hused).
  assert (∀ name sel, Fill.usedSelectors r !! name = Some sel →
            ∃ f, f ∈ done ++ [field] ∧ Field.name f = name
                 ∧ sel ∈ Field.selectors f ∧ has_value f) as Hused'.
  { intros name sel H. destruct (Hused name sel H) as (f & Hf & Hrest).
    exists f. split; [|done]. apply elem_of_app. by left. }
  unfold fill_field.
  destruct (negb _ && negb _) eqn:Hvalue.
  - split; [|done]. unfold is_fill_report.
    cbn [snd Fill.filled Fill.missed Fill.verified Fill.retried
         Fill.usedSelectors].
    rewrite !length_app. simpl. repeat split; try done; try lia.
    + by apply Hfilled.
    + by apply Hfilled.
  - apply no_value_spec in Hvalue.
    destruct (try_selectors _ _ _ _ _ _ _ _ _ _ _ _ _ _ field
                (Field.selectors field) p) as [p1 [[sel found]|]] eqn:Htry.
    + apply try_selectors_found in Htry as [Hsel Hfound].
      split; [|done]. unfold is_fill_report.
      cbn [snd Fill.filled Fill.missed Fill.verified Fill.retried
           Fill.usedSelectors].
      rewrite !length_app. simpl. split; [lia|].
      split; [destruct found; try done;
              first [ by apply sublist_app
                    | rewrite (right_id_L [] (++));
                      by apply sublist_inserts_r
                    | by rewrite !(right_id_L [] (++)) ]|].
      split; [destruct found; try done;
              first [ by apply sublist_app
                    | rewrite (right_id_L [] (++));
                      by apply sublist_inserts_r ]|].
      split.
      * intros name. rewrite elem_of_app, list_elem_of_singleton, Hfilled.
        destruct (decide (name = Field.name field)) as [->|Hne].
        -- rewrite lookup_insert_eq. split; [by eexists|by right].
        -- rewrite lookup_insert_ne by done. split; [|by left].
           by intros [?|?].
      * intros name s.
        destruct (decide (name = Field.name field)) as [->|Hne].
        -- rewrite lookup_insert_eq. intros [= <-]. exists field.
           split; [apply elem_of_app; right; by apply list_elem_of_singleton|].
           done.
        -- rewrite lookup_insert_ne by done. apply Hused'.
    + split; [|done]. unfold is_fill_report.
      cbn [snd Fill.filled Fill.missed Fill.verified Fill.retried
           Fill.usedSelectors].
      rewrite !length_app. simpl. repeat split; try done; try lia.
      * by apply Hfilled.
      * by apply Hfilled.
Qed.

Lemma fill_fields_report (fields done : list Field.t) (st : page * Fill.t) :
  is_fill_report done st.2 →
  is_fill_report (done ++ fields) (foldl fill_one st fields).2
  ∧ Fill.total (foldl fill_one st fields).2 = Fill.total st.2.
Proof.
  revert done st. induction fields as [|field fields IH]; intros done st Hst.
  - by rewrite (right_id_L [] (++)).
  - cbn [foldl]. destruct st as [p r].
    destruct (fill_field_report done field p r Hst) as [Hreport Htotal].
    destruct (IH _ _ Hreport) as [H1 H2].
    rewrite <-(assoc_L (++)) in H1. split; [done|]. by rewrite H2.
Qed.

Lemma fill_all_report (fields : list Field.t) (p : page) :
  Fill.total (fill_all fields p).2 = length fields
  ∧ is_fill_report fields (fill_all fields p).2.
Proof.
  unfold FORM_FILL_JS.
  destruct (fill_fields_report fields []
              (p, Fill.mk [] [] [] [] (length fields) ∅)) as [H1 H2].
  - unfold is_fill_report. simpl. repeat split; try done.
    + by intros ?%elem_of_nil.
    + intros [? H]. by rewrite lookup_empty in H.
  - done.
Qed.

(** X17. The report of the form fill script. Whatever the document does,
    the script counts every field once, as filled or as missed; the fields
    it calls verified are among the filled ones and those it calls retried
    among the verified ones; a field is filled exactly when a selector is
    reported for it, and that selector is one of the selectors of a field
    of that name which has a value or a select code. *)
Theorem form_fill_report (fields : list Field.t) (p : page) :
  Fill.total (fill_all fields p).2 = length fields
  ∧ is_fill_report fields (fill_all fields p).2.
Proof. apply fill_all_report. Qed.

Lemma form_field_names
    (email first_name last_name street city state zip_code country_code
     c_name phone : string) (saved : option (gmap string string))
    (field : Field.t) :
  field ∈ build_field_list email first_name last_name street city state
            zip_code country_code c_name phone saved →
  Field.name field ∈ ["email"; "country"; "first_name"; "last_name";
                      "address"; "city"; "state"; "zip_code"; "phone"].
Proof.
  unfold build_field_list. cbv zeta. intros H.
  repeat (apply elem_of_cons in H as [->|H]; [cbn [Field.name]; in_literals|]).
  by apply elem_of_nil in H.
Qed.

(** A saved selector is the first one of its field. *)
Lemma saved_selector_is_first
    (email first_name last_name street city state zip_code country_code
     c_name phone : string) (saved : gmap string string) (name sel : string) :
  name ∈ ["email"; "country"; "first_name"; "last_name"; "address"; "city";
          "state"; "zip_code"; "phone"] →
  saved !! name = Some sel →
  ∃ field,
    field ∈ build_field_list email first_name last_name street city state
              zip_code country_code c_name phone (Some saved)
    ∧ Field.name field = name
    ∧ head (Field.selectors field) = Some sel.
Proof.
  intros [i Hi]%list_elem_of_lookup Hsaved.
  assert (∃ field,
            build_field_list email first_name last_name street city state
              zip_code country_code c_name phone (Some saved) !! i
            = Some field
            ∧ Field.name field = name
            ∧ head (Field.selectors field) = Some sel)
    as (field & Hfield & Hname & Hhead).
  { do 9 (destruct i as [|i];
          [simpl in Hi; injection Hi as Hname;
           rewrite <-Hname in Hsaved |- *; eexists;
           split; [reflexivity|]; split; [reflexivity|];
           cbn [Field.selectors default from_option id]; unfold sels;
           by rewrite Hsaved|]).
    done. }
  exists field. split; [by apply (list_elem_of_lookup_2 _ i)|done].
Qed.

(** The selectors that the script reports for the shipping form carry the
    names of its fields. *)
Lemma used_form_names
    (email first_name last_name street city state zip_code country_code
     c_name phone : string) (saved : option (gmap string string)) (p : page)
    (name sel : string) :
  Fill.usedSelectors
    (fill_all (build_field_list email first_name last_name street city state
                 zip_code country_code c_name phone saved) p).2 !! name
    = Some sel →
  name ∈ ["email"; "country"; "first_name"; "last_name"; "address"; "city";
          "state"; "zip_code"; "phone"].
Proof.
  intros Hused.
  destruct (fill_all_report
              (build_field_list email first_name last_name street city state
                 zip_code country_code c_name phone saved) p)
    as (_ & _ & _ & _ & _ & Hfields).
  destruct (Hfields name sel Hused) as (f & Hf & <- & _).
  by apply form_field_names in Hf.
Qed.

Lemma payment_field_names (card_number card_exp card_cvv card_name : string)
    (saved : option (gmap string string)) (field : Field.t) :
  field ∈ build_payment_field_list card_number card_exp card_cvv card_name
            saved →
  Field.name field ∈ ["card_number"; "expiry"; "cvv"; "cardholder"].
Proof.
  unfold build_payment_field_list. cbv zeta. intros H.
  repeat (apply elem_of_cons in H as [->|H]; [cbn [Field.name]; in_literals|]).
  by apply elem_of_nil in H.
Qed.

(** X18. What the payment tool learns is not tried first, the card number
    apart. The script reports the selectors of the payment form under the
    names [card_number], [expiry], [cvv] and [cardholder], and the next
    field list looks the saved selectors up under [card_number],
    [card_expiry], [card_cvv] and [card_name]: of the selectors that the
    tool reports, only the one of the card number is ever used again. *)
Theorem learned_payment_selectors_are_not_reused
    (card_number card_exp card_cvv card_name : string)
    (saved : option (gmap string string)) (p : page)
    (card_number' card_exp' card_cvv' card_name' : string) :
  let used :=
    Fill.usedSelectors
      (fill_all (build_payment_field_list card_number card_exp card_cvv
                   card_name saved) p).2 in
  build_payment_field_list card_number' card_exp' card_cvv' card_name'
    (Some used)
  = build_payment_field_list card_number' card_exp' card_cvv' card_name'
      (Some (filter (λ kv, kv.1 = "card_number") used)).
Proof.
  intros used.
  assert (∀ k, k ∉ ["card_number"; "expiry"; "cvv"; "cardholder"] →
               used !! k = None) as Hkeys.
  { intros k Hk. destruct (used !! k) as [sel|] eqn:Hused; [|done].
    destruct (fill_all_report
                (build_payment_field_list card_number card_exp card_cvv
                   card_name saved) p) as (_ & _ & _ & _ & _ & Hfields).
    destruct (Hfields k sel Hused) as (f & Hf & <- & _).
    by apply payment_field_names in Hf. }
  unfold build_payment_field_list, sels. cbv zeta.
  cbn [default from_option id].
  rewrite (Hkeys "card_expiry"), (Hkeys "card_cvv"), (Hkeys "card_name")
    by not_in_literals.
  rewrite (map_lookup_filter_None_2 _ used "card_expiry"),
    (map_lookup_filter_None_2 _ used "card_cvv"),
    (map_lookup_filter_None_2 _ used "card_name")
    by (left; apply Hkeys; not_in_literals).
  destruct (used !! "card_number") as [sel|] eqn:Hnumber.
  - by rewrite (map_lookup_filter_Some_2 _ used "card_number" sel).
  - rewrite (map_lookup_filter_None_2 _ used "card_number"); [done|by left].
Qed.

End form_fill_js_facts.

(** ** What is kept of the replayed steps *)

Lemma is_click_not_wait (step : Step.t) :
  is_click step = true → String.eqb (default "" (Step.action step)) "wait" = false.
Proof.
  unfold is_click. intros H%String.eqb_eq. by rewrite H.
Qed.

Lemma wait_not_click (step : Step.t) :
  String.eqb (default "" (Step.action step)) "wait" = true → is_click step = false.
Proof.
  unfold is_click. intros H%String.eqb_eq. by rewrite H.
Qed.

Lemma post_form_is_click (step : Step.t) :
  is_post_form_step step = true → is_click step = true.
Proof.
  unfold is_post_form_step, is_click. cbv zeta.
  by intros [[H _]%andb_true_iff _]%andb_true_iff.
Qed.

(** The clicks among the first [k] saved steps are the first replayed
    clicks, as long as [k] does not exceed the number of replayed clicks. *)
Lemma kept_clicks_prefix (saved : list Step.t) (k : nat) :
  k ≤ length (List.filter is_click (_filter_pre_form_steps saved)) →
  List.filter is_click (take k saved)
    `prefix_of` List.filter is_click (_filter_pre_form_steps saved).
Proof.
  revert k. induction saved as [|s rest IH]; intros k Hk.
  - rewrite take_nil. by exists [].
  - destruct k as [|k]; [apply prefix_nil|].
    cbn [_filter_pre_form_steps take] in *.
    destruct (String.eqb (default "" (Step.action s)) "wait") eqn:Hwait.
    + cbn [List.filter]. rewrite (wait_not_click _ Hwait). apply IH. lia.
    + destruct (is_post_form_step s) eqn:Hpost; [simpl in Hk; lia|].
      cbn [List.filter] in *. destruct (is_click s).
      * apply prefix_cons, IH. simpl in Hk. lia.
      * apply IH. lia.
Qed.

Lemma kept_all_clicks (saved : list Step.t) (k : nat) :
  k ≤ length (List.filter is_click (_filter_pre_form_steps saved)) →
  Forall (λ s, is_click s = true) (take k saved) →
  take k saved = take k (List.filter is_click (_filter_pre_form_steps saved)).
Proof.
  revert k. induction saved as [|s rest IH]; intros k Hk Hall.
  - by destruct k.
  - destruct k as [|k]; [done|].
    cbn [_filter_pre_form_steps take] in *.
    apply Forall_cons in Hall as [Hs Hall].
    rewrite (is_click_not_wait _ Hs) in *.
    destruct (is_post_form_step s) eqn:Hpost; [simpl in Hk; lia|].
    cbn [List.filter] in *. rewrite Hs in *. cbn [take]. f_equal.
    apply IH; [simpl in Hk; lia|done].
Qed.

Lemma filter_is_click_all (steps : list Step.t) :
  Forall (λ s, is_click s = true) (List.filter is_click steps).
Proof.
  apply Forall_forall. intros s Hs%list_elem_of_In%List.filter_In. tauto.
Qed.

Lemma replay_count_cases (saved : list Step.t) (browser_started injected : bool) :
  let n := run_checkout_replay_count saved browser_started injected in
  (n = 0 ∨ n = length (List.filter is_click (_filter_pre_form_steps saved)))
  ∧ (0 < n → saved ≠ []).
Proof.
  unfold run_checkout_replay_count. cbv zeta.
  destruct (bool_decide_reflect (saved = [])) as [->|Hne]; simpl.
  - split; [by left|lia].
  - destruct (_ && _); [destruct injected|]; split; auto; lia.
Qed.

(** X19. The steps carried over after a replay. After a successful run the
    steps to save are the first [replay_count] saved steps followed by the
    steps of this run. The clicks among these first steps are replayed
    clicks, in their order; but the first [replay_count] saved steps are
    all the replayed clicks only when each of them is a click: when a wait
    or a navigation precedes one of the replayed clicks, the last replayed
    clicks are not carried over. *)
Theorem carried_over_steps (saved nav_steps : list Step.t)
    (browser_started injected : bool) :
  let replayed := List.filter is_click (_filter_pre_form_steps saved) in
  let n := run_checkout_replay_count saved browser_started injected in
  (n = 0 ∨ n = length replayed)
  ∧ run_checkout_all_nav_steps n saved nav_steps = take n saved ++ nav_steps
  ∧ List.filter is_click (take n saved) `prefix_of` replayed
  ∧ (take (length replayed) saved = replayed
     ↔ Forall (λ s, is_click s = true) (take (length replayed) saved)).
Proof.
  intros replayed n.
  destruct (replay_count_cases saved browser_started injected) as [Hn Hsaved].
  fold n in Hn, Hsaved. fold replayed in Hn.
  split; [exact Hn|]. split; [|split].
  - unfold run_checkout_all_nav_steps.
    destruct (0 <? n)%nat eqn:Hpos.
    + apply Nat.ltb_lt in Hpos.
      by rewrite (bool_decide_eq_false_2 _ (Hsaved Hpos)).
    + apply Nat.ltb_ge in Hpos. by replace n with 0 by lia.
  - apply kept_clicks_prefix. fold replayed. lia.
  - split.
    + intros ->. apply filter_is_click_all.
    + intros Hall. rewrite (kept_all_clicks saved (length replayed)); [|done..].
      fold replayed. by rewrite firstn_all.
Qed.

(** ** Learning after a successful run *)

Lemma gmap_subseteq_empty (m : gmap string string) : m ⊆ ∅ → m = ∅.
Proof.
  intros Hsub. apply map_empty. intros i.
  destruct (m !! i) as [v|] eqn:Hi; [|done].
  apply (lookup_weaken _ _ _ _ Hi) in Hsub. by rewrite lookup_empty in Hsub.
Qed.

(** A learning pass that has something to save and can write: the record
    it leaves. *)
Lemma _discover_and_save_written now x d final_url path
    (fill_form fill_payment : gmap string string) (nav_steps : list Step.t)
    (scanned : scan) (fs : files) (existing : Flow.t) :
  domain_of x = Ok d →
  existing_record (fs !! _flow_path d) = Some existing →
  urlparse_path (default "" final_url) = Ok path →
  fill_form ≠ ∅ ∨ fill_payment ≠ ∅ ∨ nav_steps ≠ [] →
  ∃ fs' flow learned,
    _discover_and_save now Written x final_url fill_form fill_payment
      nav_steps scanned fs = (fs', Ok learned)
    ∧ fs' !! _flow_path d = Some (Object flow)
    ∧ Flow.domain flow = Some d
    ∧ Flow.navigation_steps flow = Some nav_steps
    ∧ fill_form ⊆ default ∅ (Flow.form_selectors flow)
    ∧ fill_payment ⊆ default ∅ (Flow.payment_selectors flow)
    ∧ Flow.platform flow =
        Some match scanned with
             | Scanned _ _ (Some detected) =>
                 if str_truthy detected then detected
                 else default "unknown" (Flow.platform existing)
             | _ => "unknown"
             end.
Proof.
  intros Hd He Hpath Hsome. unfold _discover_and_save. cbv zeta.
  set (discovered :=
         match scanned with
         | ScanFailed => (fill_form, fill_payment, "unknown")
         | Scanned form payment detected =>
             (fill_form ∪ form, fill_payment ∪ payment,
              default "unknown" detected)
         end).
  destruct discovered as [[dform dpay] platform] eqn:Hdisc.
  assert (fill_form ⊆ dform ∧ fill_payment ⊆ dpay
          ∧ platform = match scanned with
                       | Scanned _ _ (Some detected) => detected
                       | _ => "unknown"
                       end) as (Hform & Hpay & Hplat).
  { unfold discovered in Hdisc. destruct scanned as [|form pay detected];
      injection Hdisc as <- <- <-.
    - done.
    - split; [apply map_union_subseteq_l|].
      split; [apply map_union_subseteq_l|]. by destruct detected. }
  assert (negb (bool_decide (dform = ∅)) || negb (bool_decide (dpay = ∅))
          || negb (bool_decide (nav_steps = [])) = true) as Hsave.
  { destruct Hsome as [H|[H|H]].
    - rewrite (bool_decide_eq_false_2 (dform = ∅)); [done|].
      intros ->. by apply H, gmap_subseteq_empty.
    - rewrite (bool_decide_eq_false_2 (dpay = ∅)); [by rewrite orb_true_r|].
      intros ->. by apply H, gmap_subseteq_empty.
    - rewrite (bool_decide_eq_false_2 (nav_steps = [])) by done.
      by rewrite !orb_true_r. }
  rewrite Hsave.
  assert (∃ pattern,
            (if opt_truthy final_url
             then path ← lift (urlparse_path (default "" final_url));
                  ret (first_pattern_in path)
             else ret None) fs = (fs, Ok pattern)) as [pattern Hpattern].
  { destruct (opt_truthy final_url); [|by eexists].
    unfold mbind, io_bind, lift. rewrite Hpath. by eexists. }
  unfold mbind at 1. unfold io_bind at 1. rewrite Hpattern.
  unfold mbind, io_bind.
  rewrite (save_flow_written _ _ d _ _ _ _ _ _ _ existing Hd He).
  unfold ret, mret, io_ret.
  eexists _, _, _. split; [reflexivity|].
  rewrite lookup_insert_eq. split; [reflexivity|].
  cbn [Flow.domain Flow.navigation_steps Flow.form_selectors
       Flow.payment_selectors Flow.platform default from_option id].
  split; [done|]. split; [done|].
  split; [etrans; [exact Hform|apply map_union_subseteq_l]|].
  split; [etrans; [exact Hpay|apply map_union_subseteq_l]|].
  rewrite Hplat. unfold str_or.
  destruct scanned as [|form pay [detected|]]; try done.
  by destruct (str_truthy detected).
Qed.

(** X20. A learning pass overwrites the steps and the platform. When the
    pass after a successful run has something to save, the record holds
    exactly the navigation steps it was given, also when these are none,
    and the platform that the scan detected; when the scan fails the
    platform becomes [unknown], whatever platform the record had: the
    platform of the record is kept only when the detection answers the
    empty text. *)
Theorem learning_pass_overwrites now x d final_url path
    (fill_form fill_payment : gmap string string) (nav_steps : list Step.t)
    (scanned : scan) (fs : files) (existing : Flow.t) :
  domain_of x = Ok d →
  existing_record (fs !! _flow_path d) = Some existing →
  urlparse_path (default "" final_url) = Ok path →
  fill_form ≠ ∅ ∨ fill_payment ≠ ∅ ∨ nav_steps ≠ [] →
  ∃ fs' flow learned,
    _discover_and_save now Written x final_url fill_form fill_payment
      nav_steps scanned fs = (fs', Ok learned)
    ∧ load_flow x fs' = (fs', Ok (Some flow))
    ∧ Flow.navigation_steps flow = Some nav_steps
    ∧ Flow.platform flow =
        Some match scanned with
             | Scanned _ _ (Some detected) =>
                 if str_truthy detected then detected
                 else default "unknown" (Flow.platform existing)
             | _ => "unknown"
             end.
Proof.
  intros Hd He Hpath Hsome.
  destruct (_discover_and_save_written now x d final_url path fill_form
              fill_payment nav_steps scanned fs existing Hd He Hpath Hsome)
    as (fs' & flow & learned & Hrun & Hfile & _ & Hnav & _ & _ & Hplatform).
  exists fs', flow, learned. split; [exact Hrun|].
  split; [|done]. by rewrite (load_flow_unfold _ _ _ Hd), Hfile.
Qed.

Lemma learning_pass_overwrites_witness :
  let shopify : Flow.t :=
    {| Flow.domain := Some "shop.example";
       Flow.platform := Some "shopify";
       Flow.checkout_url_pattern := Some "/checkouts/";
       Flow.navigation_steps :=
         Some [click "add_to_cart" "https://shop.example/p/1" "Add to cart"];
       Flow.form_selectors := Some {[ "email" := "#email" ]};
       Flow.payment_selectors := Some ∅;
       Flow.success_count := Some 3%N;
       Flow.failure_count := Some 0%N;
       Flow.consecutive_failures := Some 0%N;
       Flow.last_success := Some "2026-02-17T12:00:00+00:00";
       Flow.last_failure := None;
       Flow.last_error := None;
       Flow.last_url := None |} in
  let fs : files := {[ _flow_path "shop.example" := Object shopify ]} in
  ∃ fs' flow learned,
    _discover_and_save "2026-02-19T10:00:00+00:00" Written
      "https://www.shop.example/p/1"
      (Some "https://www.shop.example/checkouts/c/1;x?step=payment")
      {[ "email" := "#checkout_email" ]} ∅ [] ScanFailed fs
      = (fs', Ok learned)
    ∧ load_flow "https://www.shop.example/p/1" fs' = (fs', Ok (Some flow))
    ∧ Flow.navigation_steps flow = Some []
    ∧ Flow.platform flow = Some "unknown".
Proof.
  intros shopify fs.
  apply (learning_pass_overwrites _ _ "shop.example" _ "/checkouts/c/1"
           _ _ _ ScanFailed fs shopify).
  - reflexivity.
  - reflexivity.
  - reflexivity.
  - left. intros H. by apply (f_equal (lookup "email")) in H.
Defined.

Section learned_selectors.

Variable page : Type.
Variable elem : Type.
Variable querySelector : page → string → option (option elem).
Variable disabled : page → elem → bool.
Variable type_hidden : page → elem → bool.
Variable style_hidden : page → elem → option bool.
Variable tag_is_select : page → elem → bool.
Variable options : page → elem → option (list (jsstring * jsstring)).
Variable toLowerCase : jsstring → jsstring.
Variable choose : page → elem → jsstring → page * bool.
Variable setNativeValue : page → elem → jsstring → page * bool.
Variable set_value : page → elem → jsstring → page * bool.
Variable insertText : page → elem → jsstring → page * bool.
Variable value_of : page → elem → jsval.
Variable sleep : page → page.

(** X21. What the shipping tool learns is tried first on the next visit.
    When the script reports a selector for a field of the shipping form
    and the run ends with a learning pass that can write the record, the
    next run on the same domain, unless its request names a selector of
    its own for that field, builds a field list in which this selector is
    the first one of the field. *)
Theorem learned_form_selector_is_tried_first
    (email first_name last_name street city state zip_code country_code
     c_name phone : string) (saved : option (gmap string string)) (p : page)
    (name sel : string) now x y d final_url path
    (fill_payment : gmap string string) (nav_steps : list Step.t)
    (scanned : scan) (fs : files) (existing : Flow.t)
    (rf rp : option (gmap string string))
    (email' first_name' last_name' street' city' state' zip_code'
     country_code' c_name' phone' : string) :
  let used :=
    Fill.usedSelectors
      (FORM_FILL_JS page elem querySelector disabled type_hidden style_hidden
         tag_is_select options toLowerCase choose setNativeValue set_value
         insertText value_of sleep
         (build_field_list email first_name last_name street city state
            zip_code country_code c_name phone saved) p).2 in
  used !! name = Some sel →
  domain_of x = Ok d →
  domain_of y = Ok d →
  existing_record (fs !! _flow_path d) = Some existing →
  urlparse_path (default "" final_url) = Ok path →
  default ∅ rf !! name = None →
  ∃ fs' learned plan field,
    _discover_and_save now Written x final_url used fill_payment nav_steps
      scanned fs = (fs', Ok learned)
    ∧ run_checkout_saved y rf rp fs' = (fs', Ok plan)
    ∧ field ∈ build_field_list email' first_name' last_name' street' city'
                state' zip_code' country_code' c_name' phone'
                (Some (saved_form_sels plan))
    ∧ Field.name field = name
    ∧ head (Field.selectors field) = Some sel.
Proof.
  intros used Hused Hd Hy He Hpath Hrf.
  assert (used ≠ ∅) as Hne.
  { intros Hempty. by rewrite Hempty, lookup_empty in Hused. }
  destruct (_discover_and_save_written now x d final_url path used
              fill_payment nav_steps scanned fs existing Hd He Hpath
              (or_introl Hne))
    as (fs' & flow & learned & Hrun & Hfile & Hdom & _ & Hform & _).
  exists fs', learned. eexists.
  destruct (saved_selector_is_first email' first_name' last_name' street'
              city' state' zip_code' country_code' c_name' phone'
              (default ∅ rf ∪ default ∅ (Flow.form_selectors flow)) name sel)
    as (field & Hfield).
  { eapply used_form_names. exact Hused. }
  { apply lookup_union_Some_raw. right. split; [exact Hrf|].
    by apply (lookup_weaken _ _ _ _ Hused). }
  exists field. split; [exact Hrun|].
  split.
  - apply (run_checkout_saved_unfold y d rf rp fs' flow Hy Hfile).
    apply saved_record_truthy. by rewrite Hdom.
  - exact Hfield.
Qed.

End learned_selectors.

(** A document in which every selector finds a visible text field that
    takes and shows what is written into it. *)
Lemma learned_form_selector_is_tried_first_witness :
  ∃ fs' learned plan field,
    _discover_and_save "2026-02-19T10:00:00+00:00" Written
      "https://www.shop.example/p/1"
      (Some "https://www.shop.example/checkout/payment")
      (Fill.usedSelectors
         (FORM_FILL_JS unit unit
            (λ _ _, Some (Some ())) (λ _ _, false) (λ _ _, false)
            (λ _ _, Some false) (λ _ _, false) (λ _ _, None) id
            (λ p _ _, (p, true)) (λ p _ _, (p, true)) (λ p _ _, (p, true))
            (λ p _ _, (p, true)) (λ _ _, JsString (utf16 "jane@example.com"))
            id
            (build_field_list "jane@example.com" "Jane" "Doe" "1 Main Street"
               "Utrecht" "" "3511" "NL" "Netherlands" "+31 6 1234 5678" None)
            ()).2)
      ∅ [] ScanFailed ∅
    = (fs', Ok learned)
    ∧ run_checkout_saved "https://shop.example/p/2" None None fs'
      = (fs', Ok plan)
    ∧ field ∈ build_field_list "joe@example.com" "Joe" "Doe" "2 Side Street"
                "Leiden" "" "2311" "NL" "Netherlands" ""
                (Some (saved_form_sels plan))
    ∧ Field.name field = "email"
    ∧ head (Field.selectors field) = Some (css "" "autocomplete" "=" "email").
Proof.
  apply (learned_form_selector_is_tried_first unit unit
           (λ _ _, Some (Some ())) (λ _ _, false) (λ _ _, false)
           (λ _ _, Some false) (λ _ _, false) (λ _ _, None) id
           (λ p _ _, (p, true)) (λ p _ _, (p, true)) (λ p _ _, (p, true))
           (λ p _ _, (p, true)) (λ _ _, JsString (utf16 "jane@example.com"))
           id
           "jane@example.com" "Jane" "Doe" "1 Main Street" "Utrecht" "" "3511"
           "NL" "Netherlands" "+31 6 1234 5678" None () "email" _ _ _ _
           "shop.example" _ "/checkout/payment" ∅ [] ScanFailed ∅ Flow.empty
           None None);
    first [by vm_compute | exact (lookup_empty _)].
Defined.

(** ** The replay script *)

Lemma prefix_length (p s : string) :
  String.prefix p s = true → String.length p ≤ String.length s.
Proof.
  intros H%prefix_split. rewrite H, str_length_app. lia.
Qed.

Lemma prefix_same_length (p q s : string) :
  String.prefix p s = true → String.prefix q s = true →
  String.length p = String.length q → p = q.
Proof.
  revert q s. induction p as [|a p IH]; intros [|b q] [|c s]; simpl;
    try done.
  destruct (ascii_dec a c) as [->|]; [|done].
  destruct (ascii_dec b c) as [->|]; [|done].
  intros Hp Hq [= Hlen]. f_equal. by apply (IH q s).
Qed.

Lemma prefix_refl (s : string) : String.prefix s s = true.
Proof. rewrite <-(app_empty s) at 2. apply prefix_app. Qed.

(** The loop that looks for the longest key: its state after the keys
    [keys], started in a state that is right for the keys [seen]. *)
Lemma longest_prefix_loop (path : string) (keys seen : list string)
    (best : option string * nat) :
  match best.1 with
  | Some p =>
      p ∈ seen ∧ String.prefix p path = true ∧ best.2 = String.length p
      ∧ 0 < String.length p
      ∧ ∀ q, q ∈ seen → String.prefix q path = true →
             String.length q ≤ String.length p
  | None =>
      best.2 = 0 ∧ ∀ q, q ∈ seen → String.prefix q path = true → q = ""
  end →
  match (foldl (λ (best : option string * nat) p,
                  if String.prefix p path && (best.2 <? String.length p)%nat
                  then (Some p, String.length p) else best)
               best keys).1 with
  | Some p =>
      p ∈ seen ++ keys ∧ String.prefix p path = true
      ∧ 0 < String.length p
      ∧ ∀ q, q ∈ seen ++ keys → String.prefix q path = true →
             String.length q ≤ String.length p
  | None =>
      ∀ q, q ∈ seen ++ keys → String.prefix q path = true → q = ""
  end.
Proof.
  revert seen best. induction keys as [|k keys IH]; intros seen best Hbest.
  - rewrite (right_id_L [] (++)). cbn [foldl].
    destruct best as [[p|] n]; cbn [fst snd] in *; tauto.
  - cbn [foldl]. replace (seen ++ k :: keys) with ((seen ++ [k]) ++ keys)
      by by rewrite <-(assoc_L (++)).
    apply IH. destruct best as [[p|] n]; cbn [fst snd] in *.
    + destruct Hbest as (Hin & Hp & -> & Hpos & Hmax).
      destruct (String.prefix k path) eqn:Hk; cbn [andb].
      * destruct (Nat.ltb_spec (String.length p) (String.length k)) as [Hlt|Hge];
          cbn [fst snd].
        -- split; [apply elem_of_app; right; by apply list_elem_of_singleton|].
           split; [done|]. split; [done|]. split; [lia|].
           intros q [Hq| ->%list_elem_of_singleton]%elem_of_app Hpre; [|lia].
           specialize (Hmax q Hq Hpre). lia.
        -- split; [apply elem_of_app; by left|]. split; [done|].
           split; [done|]. split; [done|].
           intros q [Hq| ->%list_elem_of_singleton]%elem_of_app Hpre; [|lia].
           by apply Hmax.
      * cbn [fst snd]. split; [apply elem_of_app; by left|]. split; [done|].
        split; [done|]. split; [done|].
        intros q [Hq| ->%list_elem_of_singleton]%elem_of_app Hpre;
          [by apply Hmax|congruence].
    + destruct Hbest as (-> & Hnone).
      destruct (String.prefix k path) eqn:Hk; cbn [andb].
      * destruct (Nat.ltb_spec 0 (String.length k)) as [Hlt|Hge]; cbn [fst snd].
        -- split; [apply elem_of_app; right; by apply list_elem_of_singleton|].
           split; [done|]. split; [done|]. split; [done|].
           intros q [Hq| ->%list_elem_of_singleton]%elem_of_app Hpre; [|lia].
           rewrite (Hnone q Hq Hpre). simpl. lia.
        -- split; [done|].
           intros q [Hq| ->%list_elem_of_singleton]%elem_of_app Hpre;
             [by apply Hnone|].
           destruct k; [done|simpl in Hge; lia].
      * cbn [fst snd]. split; [done|].
        intros q [Hq| ->%list_elem_of_singleton]%elem_of_app Hpre;
          [by apply Hnone|congruence].
Qed.

Lemma longest_prefix_spec (path : string) (keys : list string) :
  match longest_prefix path keys with
  | Some p =>
      p ∈ keys ∧ String.prefix p path = true ∧ 0 < String.length p
      ∧ ∀ q, q ∈ keys → String.prefix q path = true →
             String.length q ≤ String.length p
  | None => ∀ q, q ∈ keys → String.prefix q path = true → q = ""
  end.
Proof.
  unfold longest_prefix.
  apply (longest_prefix_loop path keys [] (None, 0)). split; [done|].
  by intros q ?%elem_of_nil.
Qed.

Lemma group_of_keys (p : string) (groups : url_groups) :
  is_Some (group_of p groups) ↔ p ∈ groups.*1.
Proof.
  induction groups as [|[q targets] groups IH]; simpl.
  - split; [by intros [? ?]|by intros ?%elem_of_nil].
  - destruct (String.eqb_spec q p) as [->|Hne].
    + split; [intros _; apply list_elem_of_here|by eexists].
    + rewrite IH. split; [apply list_elem_of_further|].
      by intros [?|?]%elem_of_cons.
Qed.

(** X22. Which recorded clicks run on a page. On a page the replay script
    clicks the targets recorded under the longest recorded path with which
    the path of the page begins, and nothing when the path of the page
    begins with no recorded path; the clicks recorded on a path therefore
    also run on every page whose path begins with it and with no longer
    recorded path, and the second lookup of the script, by the whole path
    of the page, never finds anything that the first did not. *)
Theorem replay_targets_spec (groups : url_groups) (path : string) :
  (∃ p targets,
      replay_targets groups path = targets
      ∧ group_of p groups = Some targets
      ∧ String.prefix p path = true
      ∧ p ≠ ""
      ∧ ∀ q, q ∈ groups.*1 → String.prefix q path = true →
             String.length q ≤ String.length p)
  ∨ (replay_targets groups path = []
     ∧ ∀ q, q ∈ groups.*1 → String.prefix q path = true → q = "").
Proof.
  unfold replay_targets. cbv zeta.
  pose proof (longest_prefix_spec path (groups.*1)) as Hbest.
  destruct (longest_prefix path (groups.*1)) as [p|].
  - destruct Hbest as (Hin & Hpre & Hpos & Hmax). left.
    apply group_of_keys in Hin as [targets Htargets].
    exists p, targets. rewrite Htargets.
    assert (p ≠ "") as Hne by (intros ->; simpl in Hpos; lia).
    apply str_truthy_spec in Hne as Htruthy. by rewrite Htruthy.
  - right. split; [|done].
    destruct (group_of path groups) as [targets|] eqn:Hgroup; [|done].
    cbn [opt_present].
    assert (path = "") as ->.
    { apply Hbest; [|apply prefix_refl]. apply group_of_keys. by eexists. }
    done.
Qed.

Lemma group_of_append (p q : string) (target : Target.t) (groups : url_groups) :
  group_of q (group_append p target groups)
  = if String.eqb p q then Some (default [] (group_of q groups) ++ [target])
    else group_of q groups.
Proof.
  induction groups as [|[r targets] groups IH]; simpl.
  - by destruct (String.eqb_spec p q).
  - destruct (String.eqb_spec r p) as [->|Hrp]; simpl.
    + by destruct (String.eqb_spec p q).
    + destruct (String.eqb_spec r q) as [->|Hrq].
      * destruct (String.eqb_spec p q); [congruence|done].
      * exact IH.
Qed.

Lemma group_append_length (p : string) (target : Target.t) (groups : url_groups) :
  length (concat ((group_append p target groups).*2))
  = S (length (concat (groups.*2))).
Proof.
  induction groups as [|[r targets] groups IH]; [done|].
  cbn [group_append]. destruct (String.eqb r p).
  - rewrite !fmap_cons, !concat_cons, !length_app. cbn [snd].
    rewrite length_app. simpl. lia.
  - rewrite !fmap_cons, !concat_cons, !length_app, IH. cbn [snd]. lia.
Qed.

Lemma replay_path_truthy (product_url : string) (step : Step.t) (p : string) :
  replay_path product_url step = Ok p → p ≠ "".
Proof.
  unfold replay_path. destruct (urlparse_path _) as [path|]; [|done].
  cbn [mbind result_bind]. intros [= <-].
  destruct (str_truthy path) eqn:H; [by apply str_truthy_spec|done].
Qed.

Lemma clicks_at_cons (product_url p : string) (step : Step.t)
    (steps : list Step.t) :
  clicks_at product_url p (step :: steps)
  = (if is_click step
        && match replay_path product_url step with
           | Ok q => String.eqb q p
           | Raise _ => false
           end
     then [target_of step] else [])
    ++ clicks_at product_url p steps.
Proof. unfold clicks_at. simpl. by destruct (_ && _). Qed.

(** The groups after the loop: each path holds what it held, followed by
    the clicks that were recorded on it, and every click went into one
    group. *)
Lemma group_steps_spec (steps : list Step.t) (product_url : string)
    (groups0 groups : url_groups) :
  group_steps steps product_url groups0 = Ok groups →
  (∀ p, default [] (group_of p groups)
        = default [] (group_of p groups0) ++ clicks_at product_url p steps)
  ∧ (∀ p, clicks_at product_url p steps ≠ [] → is_Some (group_of p groups))
  ∧ (∀ p, is_Some (group_of p groups0) → is_Some (group_of p groups))
  ∧ length (concat (groups.*2))
    = length (concat (groups0.*2)) + length (List.filter is_click steps).
Proof.
  revert groups0. induction steps as [|step steps IH]; intros groups0.
  - intros [= <-]. split; [|split; [done|split; [done|simpl; lia]]].
    intros p. unfold clicks_at. simpl. by rewrite (right_id_L [] (++)).
  - cbn [group_steps List.filter]. destruct (is_click step) eqn:Hclick;
      cbn [negb].
    + destruct (replay_path product_url step) as [path|e] eqn:Hpath;
        cbn [mbind result_bind]; [|done].
      intros Hrun. destruct (IH _ Hrun) as (Hgroups & Hnew & Hold & Hlen).
      split; [|split; [|split]].
      * intros p. rewrite (Hgroups p), group_of_append, clicks_at_cons,
          Hclick, Hpath. cbn [andb].
        destruct (String.eqb path p); [|done].
        cbn [default from_option id]. by rewrite <-(assoc_L (++)).
      * intros p. rewrite clicks_at_cons, Hclick, Hpath. cbn [andb].
        destruct (String.eqb path p) eqn:Hp.
        -- intros _. apply Hold. rewrite group_of_append, Hp. by eexists.
        -- apply Hnew.
      * intros p Hp. apply Hold. rewrite group_of_append.
        destruct (String.eqb path p); [by eexists|done].
      * rewrite Hlen, group_append_length. simpl. lia.
    + intros Hrun. destruct (IH _ Hrun) as (Hgroups & Hnew & Hold & Hlen).
      split; [|split; [|split]]; try done.
      * intros p. by rewrite (Hgroups p), clicks_at_cons, Hclick.
      * intros p. rewrite clicks_at_cons, Hclick. apply Hnew.
Qed.

(** X23. The recorded clicks run on their page. When the replay script can
    be built, every click step is in exactly one group, and on a page whose
    path is the path on which clicks were recorded, the script clicks
    exactly the targets of these clicks, in the order in which they were
    recorded. *)
Theorem recorded_clicks_run_on_their_page (steps : list Step.t)
    (product_url p : string) (groups : url_groups) :
  _build_page_replay_script steps product_url = Ok groups →
  clicks_at product_url p steps ≠ [] →
  replay_targets groups p = clicks_at product_url p steps
  ∧ length (concat (groups.*2)) = length (List.filter is_click steps).
Proof.
  intros Hbuild Hclicks.
  destruct (group_steps_spec _ _ _ _ Hbuild) as (Hgroups & Hnew & _ & Hlen).
  split; [|exact Hlen].
  assert (group_of p groups = Some (clicks_at product_url p steps)) as Hgroup.
  { destruct (Hnew p Hclicks) as [targets Htargets].
    specialize (Hgroups p). rewrite Htargets in Hgroups. simpl in Hgroups.
    by rewrite Htargets, Hgroups. }
  assert (p ≠ "") as Hne.
  { unfold clicks_at in Hclicks.
    destruct (List.filter _ steps) as [|step ?] eqn:Hfilter; [done|].
    assert (In step (List.filter
                       (λ step, is_click step
                                && match replay_path product_url step with
                                   | Ok q => String.eqb q p
                                   | Raise _ => false
                                   end) steps)) as Hin
      by (rewrite Hfilter; by left).
    apply List.filter_In in Hin as [_ [_ Hpath]%andb_true_iff].
    destruct (replay_path product_url step) as [q|] eqn:Hq; [|done].
    apply String.eqb_eq in Hpath as <-. by apply replay_path_truthy in Hq. }
  unfold replay_targets. cbv zeta.
  pose proof (longest_prefix_spec p (groups.*1)) as Hbest.
  assert (p ∈ groups.*1) as Hin by (apply group_of_keys; by eexists).
  destruct (longest_prefix p (groups.*1)) as [q|].
  - destruct Hbest as (_ & Hpre & _ & Hmax).
    assert (q = p) as ->.
    { apply (prefix_same_length q p p Hpre (prefix_refl p)).
      pose proof (Hmax p Hin (prefix_refl p)).
      pose proof (prefix_length _ _ Hpre). lia. }
    apply str_truthy_spec in Hne as ->. by rewrite Hgroup.
  - exfalso. apply Hne, Hbest; [done|apply prefix_refl].
Qed.

Lemma recorded_clicks_run_on_their_page_witness :
  let steps :=
    [click "cookie_consent" "https://shop.example/p/1?ref=ad" "Accept";
     wait 2;
     click "add_to_cart" "https://shop.example/p/1" "Add to cart";
     click "go_to_checkout" "https://shop.example/cart" "Checkout"] in
  let groups :=
    [("/p/1", [target_of (click "cookie_consent"
                            "https://shop.example/p/1?ref=ad" "Accept");
               target_of (click "add_to_cart" "https://shop.example/p/1"
                            "Add to cart")]);
     ("/cart", [target_of (click "go_to_checkout" "https://shop.example/cart"
                             "Checkout")])] in
  replay_targets groups "/p/1"
    = clicks_at "https://shop.example/p/1" "/p/1" steps
  ∧ length (concat (groups.*2)) = length (List.filter is_click steps).
Proof.
  intros steps groups.
  apply (recorded_clicks_run_on_their_page steps "https://shop.example/p/1");
    [reflexivity|discriminate].
Defined.

(** ** The names on the form *)

Lemma str_split_from_word (word w s : string) :
  str_forall (λ c, negb (is_py_space c)) w = true →
  str_split_from word (w +:+ s) = str_split_from (word +:+ w) s.
Proof.
  revert word. induction w as [|a w IH]; intros word Hw.
  - by rewrite app_empty.
  - simpl in Hw. apply andb_true_iff in Hw as [Ha Hw].
    rewrite app_cons. cbn [str_split_from].
    apply negb_true_iff in Ha. rewrite Ha, (IH _ Hw).
    by rewrite str_app_assoc.
Qed.

Lemma str_split_from_end (word : string) :
  str_split_from word "" = if str_truthy word then [word] else [].
Proof. reflexivity. Qed.

(** Splitting gives words. *)
Lemma str_split_from_words (s word : string) :
  str_forall (λ c, negb (is_py_space c)) word = true →
  Forall is_word (str_split_from word s).
Proof.
  revert word. induction s as [|a s IH]; intros word Hword.
  - cbn [str_split_from]. destruct (str_truthy word) eqn:Ht; [|constructor].
    apply Forall_singleton. split; [by apply str_truthy_spec|done].
  - cbn [str_split_from]. destruct (is_py_space a) eqn:Ha.
    + apply Forall_app. split; [|by apply IH].
      destruct (str_truthy word) eqn:Ht; [|constructor].
      apply Forall_singleton. split; [by apply str_truthy_spec|done].
    + apply IH. clear IH. induction word as [|b word IHw].
      * simpl. by rewrite Ha.
      * simpl in *. apply andb_true_iff in Hword as [Hb Hword].
        by rewrite Hb, IHw.
Qed.

(** Joining words with a space and splitting again gives the words. *)
Lemma str_split_join (ws : list string) :
  Forall is_word ws → str_split (String.concat " " ws) = ws.
Proof.
  unfold str_split. induction 1 as [|w ws [Hne Hw] Hws IH]; [done|].
  apply str_truthy_spec in Hne.
  destruct ws as [|w' ws].
  - cbn [String.concat]. rewrite <-(app_empty w) at 1.
    rewrite (str_split_from_word "" w "" Hw), str_split_from_end.
    change ("" +:+ w) with w. by rewrite Hne.
  - change (String.concat " " (w :: w' :: ws))
      with (w +:+ String " " (String.concat " " (w' :: ws))).
    rewrite (str_split_from_word "" w _ Hw). change ("" +:+ w) with w.
    cbn [str_split_from]. change (is_py_space " ") with true. cbn iota.
    by rewrite Hne, IH.
Qed.

(** Splitting gives no word exactly when there is nothing but white
    space. *)
Lemma str_split_from_nil (s word : string) :
  str_split_from word s = []
  ↔ word = "" ∧ str_forall is_py_space s = true.
Proof.
  revert word. induction s as [|a s IH]; intros word.
  - rewrite str_split_from_end. destruct word; simpl; split; try done.
    by intros [? _].
  - cbn [str_split_from str_forall]. destruct (is_py_space a).
    + rewrite andb_true_l. split.
      * intros [Hw Hs]%app_eq_nil. apply IH in Hs as [_ Hs].
        split; [|done]. by destruct word.
      * intros [-> Hs]. simpl. apply IH. done.
    + rewrite IH. split; [|by intros [_ ?]].
      intros [Hw _]. by destruct word.
Qed.

Lemma str_split_nil (s : string) :
  str_split s = [] ↔ str_forall is_py_space s = true.
Proof.
  unfold str_split. rewrite str_split_from_nil. split; [by intros [_ ?]|done].
Qed.

(** X24. The names on the form. The first name is the first word of the
    full name; the last name is the remaining words joined by single
    spaces, or the first name again when there is no other word. An empty
    name gives two empty names. [run_checkout] raises [IndexError] exactly
    when the name is not empty and holds only white space. The words of a
    name hold no white space, and the two names together are the words of
    the name again, the only word twice when there is one. *)
Theorem names_on_the_form (full_name : string) :
  run_checkout_names full_name
  = match str_split full_name with
    | [] => if str_truthy full_name then None else Some ("", "")
    | [w] => Some (w, w)
    | w :: rest => Some (w, String.concat " " rest)
    end
  ∧ run_checkout_names "" = Some ("", "")
  ∧ (run_checkout_names full_name = None
     ↔ full_name ≠ "" ∧ str_forall is_py_space full_name = true)
  ∧ Forall is_word (str_split full_name)
  ∧ match run_checkout_names full_name with
    | Some (first_name, last_name) =>
        str_split (first_name +:+ " " +:+ last_name)
        = match str_split full_name with
          | [w] => [w; w]
          | ws => ws
          end
    | None => full_name ≠ "" ∧ str_split full_name = []
    end.
Proof.
  pose proof (str_split_from_words full_name "" eq_refl) as Hwords.
  fold (str_split full_name) in Hwords.
  assert (run_checkout_names full_name
          = match str_split full_name with
            | [] => if str_truthy full_name then None else Some ("", "")
            | [w] => Some (w, w)
            | w :: rest => Some (w, String.concat " " rest)
            end) as Hrun.
  { unfold run_checkout_names. destruct (str_truthy full_name) eqn:Ht.
    - by destruct (str_split full_name) as [|w [|w' ws]].
    - apply negb_false_iff, String.eqb_eq in Ht. by rewrite Ht. }
  split; [exact Hrun|]. split; [reflexivity|]. split; [|split; [exact Hwords|]].
  - rewrite Hrun, <-str_split_nil, <-str_truthy_spec.
    destruct (str_split full_name) as [|w [|w' ws]];
      destruct (str_truthy full_name); split; try done; by intros [? ?].
  - rewrite Hrun.
    destruct (str_split full_name) as [|w [|w' ws]] eqn:Hsplit.
    + destruct (str_truthy full_name) eqn:Ht.
      * split; [by apply str_truthy_spec|done].
      * reflexivity.
    + apply (str_split_join [w; w]).
      rewrite Forall_singleton in Hwords.
      constructor; [done|]. constructor; [done|constructor].
    + by apply (str_split_join (w :: w' :: ws)).
Qed.

Lemma names_on_the_form_witness :
  run_checkout_names "Ada  Byron King" = Some ("Ada", "Byron King").
Proof. exact (proj1 (names_on_the_form "Ada  Byron King")). Defined.

(** ** The counters of a stored record *)

Lemma count_saves_positive (cs : list call) :
  existsb is_save cs = true → (1 ≤ count is_save cs)%N.
Proof.
  unfold count. induction cs as [|c cs IH]; [done|]. simpl.
  destruct (is_save c); simpl; [lia|]. exact IH.
Qed.

Lemma trailing_failures_bound (cs : list call) :
  existsb is_save cs = true →
  (trailing_failures cs ≤ failures_after_first_save cs)%N.
Proof.
  induction cs as [|c cs IH] using rev_ind; [done|].
  rewrite existsb_snoc, trailing_failures_snoc, failures_after_first_save_snoc.
  destruct c as [r|t w target error]; simpl.
  - intros _. lia.
  - rewrite orb_false_r. intros Hsaved. rewrite Hsaved.
    specialize (IH Hsaved). lia.
Qed.

(** X25. The counters of a stored record. After any history of saves and
    failures for one domain that starts without a record, a record that
    exists counts at least one success, and no more consecutive failures
    than failures; so the rule of the health check for a record with three
    failures and no success never applies to a record that the store
    wrote. *)
Theorem stored_record_counters (d : string) (fs fs' : files)
    (cs : list call) (flow : Flow.t) :
  fs !! _flow_path d = None →
  Forall (served d) cs →
  run cs fs = (fs', Ok ()) →
  fs' !! _flow_path d = Some (Object flow) →
  ∃ successes failures consecutive,
    Flow.success_count flow = Some successes
    ∧ Flow.failure_count flow = Some failures
    ∧ Flow.consecutive_failures flow = Some consecutive
    ∧ (1 ≤ successes)%N
    ∧ (consecutive ≤ failures)%N
    ∧ ((3 <=? default 0 (Flow.failure_count flow))
       && (default 0 (Flow.success_count flow) =? 0))%N = false.
Proof.
  intros Hfs Hall Hrun Hflow.
  destruct (run_counters d fs Hfs cs Hall) as (fs1 & Hrun1 & Hstate).
  rewrite Hrun in Hrun1. injection Hrun1 as <-.
  destruct (existsb is_save cs) eqn:Hsaved; [|congruence].
  destruct Hstate as (flow1 & Hflow1 & Hs & Hf & Hc).
  assert (flow1 = flow) as -> by congruence.
  pose proof (count_saves_positive cs Hsaved) as Hpos.
  eexists _, _, _. split; [exact Hs|]. split; [exact Hf|]. split; [exact Hc|].
  split; [exact Hpos|]. split; [by apply trailing_failures_bound|].
  rewrite Hs. cbn [default from_option id]. apply andb_false_iff. right.
  apply N.eqb_neq. lia.
Qed.

Lemma stored_record_counters_witness :
  let cs := [failed_visit; Save first_visit; failed_visit; failed_visit;
             failed_visit] in
  ∃ successes failures consecutive,
    Flow.success_count (default Flow.empty
                          (existing_record ((run cs ∅).1
                                            !! _flow_path "shop.example")))
      = Some successes
    ∧ Flow.failure_count (default Flow.empty
                            (existing_record ((run cs ∅).1
                                              !! _flow_path "shop.example")))
      = Some failures
    ∧ Flow.consecutive_failures
        (default Flow.empty
           (existing_record ((run cs ∅).1 !! _flow_path "shop.example")))
      = Some consecutive
    ∧ (1 ≤ successes)%N
    ∧ (consecutive ≤ failures)%N
    ∧ ((3 <=? default 0
                (Flow.failure_count
                   (default Flow.empty
                      (existing_record ((run cs ∅).1
                                        !! _flow_path "shop.example")))))
       && (default 0
             (Flow.success_count
                (default Flow.empty
                   (existing_record ((run cs ∅).1
                                     !! _flow_path "shop.example")))) =? 0))%N
      = false.
Proof.
  intros cs.
  apply (stored_record_counters "shop.example" ∅ (run cs ∅).1 cs).
  - exact (lookup_empty _).
  - repeat constructor.
  - reflexivity.
  - reflexivity.
Defined.
